(** * Voice changer widget: upload state machine, recorder, waveform popup
      and WAV writer

    A shallow embedding of the TypeScript sources

    - [index.tsx]            (upload reducer, recording coordinator),
    - [useVoiceUpload.ts]    (upload with retries),
    - [RecordingPopupComponent] (waveform capture, raster cache, playback
                              scroll loop),
    - [useAudioConverter.ts] (WAV encoder),
    - [ResourceManager.ts]   (registry of timers, frames and blob URLs),

    together with the properties stated about them.

    Conventions.  A JavaScript [number] that counts (retry counters,
    seconds of the recording timer, byte offsets) is a [nat] or a [Z].
    A [number] that measures (pixels, milliseconds, amplitudes) is a real
    number [R]: arithmetic is exact, there is no rounding and no NaN.
    Audio samples are rationals [Q]: every finite float is one, and the
    products the encoder forms are exact on them.  Callbacks handed to the
    platform (timers, animation frames, XHR handlers) are recorded in the
    state and fired by explicit events. *)

From Stdlib Require Import ZArith List String Ascii Bool Lia.
From Stdlib Require Import DecimalString.
From Stdlib Require Import QArith Qround.
From Stdlib Require Import Reals Lra.
From Stdlib Require Lqa.
Import ListNotations.

Set Implicit Arguments.
Set Warnings "-register-all,-abstract-large-number".

Close Scope Q_scope.
Close Scope R_scope.

(** ** The upload state machine ([index.tsx], lines 83-163) *)

Module Upload.

Local Open Scope string_scope.

Inductive Status := idle | uploading | processing | completed | failed.

Record UploadState := {
  status : Status;
  progress : Q;
  processingProgress : Q;
  error : option string;
  outputLink : option string;
  jobId : option string
}.

Inductive UploadAction :=
| START_UPLOAD
| SET_UPLOAD_PROGRESS (payload : Q)
| START_PROCESSING
| SET_PROCESSING_PROGRESS (payload : Q)
| COMPLETE (payload : string)
| FAIL (payload : string)
| RESET
| SET_JOB_ID (payload : string).

Definition initialUploadState : UploadState :=
  {| status := idle; progress := 0%Q; processingProgress := 0%Q;
     error := None; outputLink := None; jobId := None |}.

Definition uploadReducer (state : UploadState) (action : UploadAction)
  : UploadState :=
  match action with
  | START_UPLOAD =>
      {| status := uploading; progress := 0%Q;
         processingProgress := processingProgress state;
         error := None; outputLink := outputLink state;
         jobId := jobId state |}
  | SET_UPLOAD_PROGRESS payload =>
      {| status := status state; progress := payload;
         processingProgress := processingProgress state;
         error := error state; outputLink := outputLink state;
         jobId := jobId state |}
  | START_PROCESSING =>
      {| status := processing; progress := progress state;
         processingProgress := 0%Q;
         error := error state; outputLink := outputLink state;
         jobId := jobId state |}
  | SET_PROCESSING_PROGRESS payload =>
      {| status := status state; progress := progress state;
         processingProgress := payload;
         error := error state; outputLink := outputLink state;
         jobId := jobId state |}
  | COMPLETE payload =>
      {| status := completed; progress := progress state;
         processingProgress := 100%Q;
         error := error state; outputLink := Some payload;
         jobId := jobId state |}
  | FAIL payload =>
      {| status := failed; progress := progress state;
         processingProgress := processingProgress state;
         error := Some payload; outputLink := outputLink state;
         jobId := jobId state |}
  | RESET => initialUploadState
  | SET_JOB_ID payload =>
      {| status := status state; progress := progress state;
         processingProgress := processingProgress state;
         error := error state; outputLink := outputLink state;
         jobId := Some payload |}
  end.

(** ** Upload with retries ([useVoiceUpload.ts]) *)

Definition MAX_UPLOAD_RETRIES : nat := 3.
Definition RETRY_DELAY : Z := 2000%Z.
Definition UPLOAD_TIMEOUT : Z := 120000%Z.
Definition UPLOAD_API_URL : string :=
  "https://api.murf.ai/v1/speech-to-speech/anonymous".

(** Decimal rendering of a counter inside a template string. *)
Definition show_nat (n : nat) : string :=
  NilEmpty.string_of_uint (Nat.to_uint n).

Record File := {
  file_name : string;
  file_type : string;
  file_size : nat
}.

Record Voice := { apiName : string }.

(** The hook's parameters that [startUpload] reads. *)
Record Params := {
  selectedFile : option File;
  selectedVoice : option string;
  voices : list Voice;
  selectedLanguageId : string
}.

Record Toast := {
  toast_message : string;
  toast_type : string;
  toast_duration : Z
}.

(** The multipart body handed to [xhr.send]. *)
Record FormData := {
  fd_file : File;
  fd_voice_id : string;
  fd_retain_prosody : string;
  fd_multi_native_locale : string;
  fd_style : string
}.

(** An XMLHttpRequest as [startUpload] sets it up.  Its three handlers
    close over the [retryCount] of the attempt that created it. *)
Record Xhr := {
  xhr_id : nat;               (* which request this is, counted from 0 *)
  xhr_retryCount : nat;
  xhr_timeout : Z;
  xhr_url : string;
  xhr_body : FormData
}.

(** What the processing animation was asked to do when it finishes. *)
Inductive OnApiDone :=
| NoCallback
| CompleteProcessing (audio_file : string).

Record World := {
  upload : UploadState;            (* the reducer's state *)
  toasts : list Toast;             (* showToast calls, oldest first *)
  xhrRef : option Xhr;             (* xhrRef.current *)
  sent : list Xhr;                 (* xhr.send calls, oldest first *)
  aborted : nat;                   (* xhr.abort calls *)
  timeouts : list (Z * nat);       (* pending setTimeout: delay, retryCount *)
  uploadIntervals : list (nat * nat); (* live progress intervals:
                                      owning request, uploadProgress *)
  animations : list OnApiDone      (* startProcessingAnimation calls *)
}.

Definition dispatchUpload (a : UploadAction) (w : World) : World :=
  {| upload := uploadReducer (upload w) a; toasts := toasts w;
     xhrRef := xhrRef w; sent := sent w; aborted := aborted w;
     timeouts := timeouts w; uploadIntervals := uploadIntervals w;
     animations := animations w |}.

Definition showToast (t : Toast) (w : World) : World :=
  {| upload := upload w; toasts := toasts w ++ [t];
     xhrRef := xhrRef w; sent := sent w; aborted := aborted w;
     timeouts := timeouts w; uploadIntervals := uploadIntervals w;
     animations := animations w |}.

(** [if (xhrRef.current) { xhrRef.current.abort(); xhrRef.current = null }] *)
Definition abortCurrent (w : World) : World :=
  match xhrRef w with
  | Some _ =>
      {| upload := upload w; toasts := toasts w;
         xhrRef := None; sent := sent w; aborted := S (aborted w);
         timeouts := timeouts w; uploadIntervals := uploadIntervals w;
         animations := animations w |}
  | None => w
  end.

Definition setTimeout_startUpload (retryCount : nat) (delay : Z) (w : World)
  : World :=
  {| upload := upload w; toasts := toasts w;
     xhrRef := xhrRef w; sent := sent w; aborted := aborted w;
     timeouts := timeouts w ++ [(delay, retryCount)];
     uploadIntervals := uploadIntervals w;
     animations := animations w |}.

Definition setUploadInterval (id : nat) (w : World) : World :=
  {| upload := upload w; toasts := toasts w;
     xhrRef := xhrRef w; sent := sent w; aborted := aborted w;
     timeouts := timeouts w;
     uploadIntervals := uploadIntervals w ++ [(id, 0)];
     animations := animations w |}.

Definition clearUploadInterval (id : nat) (w : World) : World :=
  {| upload := upload w; toasts := toasts w;
     xhrRef := xhrRef w; sent := sent w; aborted := aborted w;
     timeouts := timeouts w;
     uploadIntervals :=
       filter (fun i => negb (Nat.eqb (fst i) id))
              (uploadIntervals w);
     animations := animations w |}.

Definition sendXhr (x : Xhr) (w : World) : World :=
  {| upload := upload w; toasts := toasts w;
     xhrRef := Some x; sent := sent w ++ [x]; aborted := aborted w;
     timeouts := timeouts w; uploadIntervals := uploadIntervals w;
     animations := animations w |}.

(** [startProcessingAnimation]: zeroes the processing progress (once
    itself, once in [animateProcessingProgress]) and starts the interval
    that animates it to 90; the interval's ticks are not modelled, the
    call is recorded with its completion callback. *)
Definition startProcessingAnimation (cb : OnApiDone) (w : World) : World :=
  let w := dispatchUpload (SET_PROCESSING_PROGRESS 0%Q) w in
  let w := dispatchUpload (SET_PROCESSING_PROGRESS 0%Q) w in
  {| upload := upload w; toasts := toasts w;
     xhrRef := xhrRef w; sent := sent w; aborted := aborted w;
     timeouts := timeouts w; uploadIntervals := uploadIntervals w;
     animations := animations w ++ [cb] |}.

Definition handleRetry (currentRetryCount : nat) (errorMessage : string)
  (w : World) : World :=
  if Nat.ltb currentRetryCount MAX_UPLOAD_RETRIES then
    let w := showToast
      {| toast_message := "Upload failed: " ++ errorMessage ++ ". Retrying...";
         toast_type := "error"; toast_duration := 5000%Z |} w in
    let w := abortCurrent w in
    setTimeout_startUpload (currentRetryCount + 1) RETRY_DELAY w
  else
    let msg := "Upload failed after " ++ show_nat MAX_UPLOAD_RETRIES
               ++ " attempts: " ++ errorMessage in
    let w := showToast
      {| toast_message := msg; toast_type := "error";
         toast_duration := 5000%Z |} w in
    dispatchUpload (FAIL msg) w.

(** [selectedFile.type || 'audio/wav'] *)
Definition type_or_wav (t : string) : string :=
  if String.eqb t EmptyString then "audio/wav" else t.

Definition startUpload (p : Params) (retryCount : nat) (w : World) : World :=
  let w := dispatchUpload START_UPLOAD w in
  match selectedFile p with
  | None => dispatchUpload (FAIL "No file selected") w
  | Some f =>
    match selectedVoice p with
    | None =>
        dispatchUpload (FAIL "No voice selected. Please select a voice.") w
    | Some v =>
      if String.eqb v EmptyString then
        dispatchUpload (FAIL "No voice selected. Please select a voice.") w
      else
      match find (fun o => String.eqb (apiName o) v) (voices p) with
      | None => dispatchUpload (FAIL "Selected voice not found") w
      | Some selectedVoiceObj =>
        if String.eqb (apiName selectedVoiceObj) EmptyString then
          dispatchUpload
            (FAIL "Invalid voice ID. Please select a different voice.") w
        else
          let w := abortCurrent w in
          let file := {| file_name := file_name f;
                         file_type := type_or_wav (file_type f);
                         file_size := file_size f |} in
          let xhr := {| xhr_id := List.length (sent w);
                        xhr_retryCount := retryCount;
                        xhr_timeout := UPLOAD_TIMEOUT;
                        xhr_url := UPLOAD_API_URL;
                        xhr_body :=
                          {| fd_file := file;
                             fd_voice_id := apiName selectedVoiceObj;
                             fd_retain_prosody := "true";
                             fd_multi_native_locale := selectedLanguageId p;
                             fd_style := "natural" |} |} in
          (* [xhrRef.current = xhr] happens before the body is built *)
          let w := {| upload := upload w; toasts := toasts w;
                      xhrRef := Some xhr; sent := sent w;
                      aborted := aborted w; timeouts := timeouts w;
                      uploadIntervals := uploadIntervals w;
                      animations := animations w |} in
          if Nat.eqb (file_size file) 0 then
            handleRetry retryCount
              "Failed to prepare upload: Invalid file data" w
          else
            let w := setUploadInterval (xhr_id xhr) w in
            sendXhr xhr w
      end
    end
  end.

(** The server's answer once [readyState === 4]. *)
Inductive ResponseBody :=
| NotJson (parse_error : string)
| Json (job_id jobId id audio_file : option string).

Definition truthy (s : option string) : bool :=
  match s with
  | Some t => negb (String.eqb t EmptyString)
  | None => false
  end.

Definition first_truthy (a b c : option string) : string :=
  if truthy a then match a with Some t => t | None => EmptyString end
  else if truthy b then match b with Some t => t | None => EmptyString end
  else match c with Some t => t | None => EmptyString end.

(** [xhr.onreadystatechange] at [readyState === 4]. *)
Definition onreadystatechange_done (x : Xhr) (http_status : nat)
  (responseText : string) (body : ResponseBody) (w : World) : World :=
  let retryCount := xhr_retryCount x in
  let w := clearUploadInterval (xhr_id x) w in
  if Nat.eqb http_status 200 then
    match body with
    | NotJson m =>
        handleRetry retryCount ("Error processing server response: " ++ m) w
    | Json job_id jobId' id audio_file =>
        if truthy job_id || truthy jobId' || truthy id then
          let w := dispatchUpload
                     (SET_JOB_ID (first_truthy job_id jobId' id)) w in
          let w := dispatchUpload START_PROCESSING w in
          startProcessingAnimation NoCallback w
        else if truthy audio_file then
          let w := dispatchUpload START_PROCESSING w in
          startProcessingAnimation
            (CompleteProcessing
               match audio_file with Some u => u | None => EmptyString end) w
        else
          handleRetry retryCount
            "Error processing server response: Invalid response format from server"
            w
    end
  else
    let errorText :=
      if String.eqb responseText EmptyString
      then "Upload failed with status: " ++ show_nat http_status
      else responseText in
    handleRetry retryCount errorText w.

(** One firing of the progress interval of request [id] (lines 239-256):
    a step of 100 / (5000 / 50) = 1 per firing. *)
Definition uploadIntervalTick (id : nat) (w : World) : World :=
  match find (fun i => Nat.eqb (fst i) id) (uploadIntervals w) with
  | None => w
  | Some (_, uploadProgress) =>
      let uploadProgress := (uploadProgress + 1)%nat in
      if (100 <=? uploadProgress)%nat then
        let w := dispatchUpload (SET_UPLOAD_PROGRESS 100%Q) w in
        let w := clearUploadInterval id w in
        let w := dispatchUpload START_PROCESSING w in
        startProcessingAnimation NoCallback w
      else
        let w := dispatchUpload
                   (SET_UPLOAD_PROGRESS (inject_Z (Z.of_nat uploadProgress)))
                   w in
        {| upload := upload w; toasts := toasts w;
           xhrRef := xhrRef w; sent := sent w; aborted := aborted w;
           timeouts := timeouts w;
           uploadIntervals :=
             map (fun i => if Nat.eqb (fst i) id then (id, uploadProgress)
                           else i) (uploadIntervals w);
           animations := animations w |}
  end.

Definition onerror (x : Xhr) (w : World) : World :=
  handleRetry (xhr_retryCount x) "Network error occurred" w.

Definition ontimeout (x : Xhr) (w : World) : World :=
  handleRetry (xhr_retryCount x) "Request timed out" w.

(** What the platform can do next. *)
Inductive Event :=
| NetworkError           (* the newest request fires [onerror] *)
| Timeout                (* the newest request fires [ontimeout] *)
| Done (http_status : nat) (responseText : string) (body : ResponseBody)
| TimerFires             (* the oldest pending [setTimeout] callback runs *)
| ProgressTick (id : nat). (* the progress interval of a request fires *)

Definition newest (w : World) : option Xhr := last (map Some (sent w)) None.

(** One event; [start] is what a firing retry timer calls. *)
Definition step_with (start : nat -> World -> World) (e : Event) (w : World)
  : World :=
  match e with
  | NetworkError =>
      match newest w with Some x => onerror x w | None => w end
  | Timeout =>
      match newest w with Some x => ontimeout x w | None => w end
  | Done st txt body =>
      match newest w with
      | Some x => onreadystatechange_done x st txt body w
      | None => w
      end
  | TimerFires =>
      match timeouts w with
      | (_, n) :: rest =>
          start n
            {| upload := upload w; toasts := toasts w;
               xhrRef := xhrRef w; sent := sent w; aborted := aborted w;
               timeouts := rest; uploadIntervals := uploadIntervals w;
               animations := animations w |}
      | [] => w
      end
  | ProgressTick id => uploadIntervalTick id w
  end.

Definition step (p : Params) : Event -> World -> World :=
  step_with (startUpload p).

Definition run (p : Params) (es : list Event) (w : World) : World :=
  fold_left (fun w e => step p e w) es w.

Definition initialWorld : World :=
  {| upload := initialUploadState; toasts := []; xhrRef := None;
     sent := []; aborted := 0; timeouts := []; uploadIntervals := [];
     animations := [] |}.

(** The number of upload attempts made so far. *)
Definition attempts (w : World) : nat := List.length (sent w).

(** *** Scenarios and vocabulary for the properties below *)

(** Parameters with which [startUpload] gets as far as sending: a
    non-empty file and a selected voice that is in the catalogue. *)
Definition ready (p : Params) : Prop :=
  exists f v o,
    selectedFile p = Some f /\ file_size f <> 0%nat /\
    selectedVoice p = Some v /\ v <> EmptyString /\
    find (fun o => String.eqb (apiName o) v) (voices p) = Some o.

(** An attempt that ends in a network error or in a timeout. *)
Definition failure_message (e : Event) : option string :=
  match e with
  | NetworkError => Some "Network error occurred"
  | Timeout => Some "Request timed out"
  | _ => None
  end.

Definition sampleParams : Params :=
  {| selectedFile :=
       Some {| file_name := "clip.wav"; file_type := "audio/wav";
               file_size := 4096 |};
     selectedVoice := Some "en-US-natalie";
     voices := [ {| apiName := "en-US-natalie" |} ];
     selectedLanguageId := "en-US" |}.

(** Three failed attempts in a row, each followed by its retry timer. *)
Definition threeFailures (e1 e2 e3 : Event) : list Event :=
  [e1; TimerFires; e2; TimerFires; e3].

End Upload.

(** ** The recording coordinator ([index.tsx], [handleAudioAction], and the
       helpers it calls from [utils]) *)

Module Recorder.

Local Open Scope Z_scope.

Definition MAX_DURATION : Z := 60.

Record RecordingState := {
  isPopupOpen : bool;
  isRecording : bool;
  recordingTime : Z;
  recordedAudioUrl : option string;
  recordedDuration : Z;
  playbackTime : R;
  isPlayingRecordedAudio : bool
}.

Definition initialRecordingState : RecordingState :=
  {| isPopupOpen := false; isRecording := false; recordingTime := 0;
     recordedAudioUrl := None; recordedDuration := 0;
     playbackTime := 0%R; isPlayingRecordedAudio := false |}.

Inductive MediaRecorderState := inactive | recording.

(** The [HTMLAudioElement] kept in [audioRefs.current.recorded]. *)
Record Audio := {
  audio_src : option string;
  audio_paused : bool;
  audio_currentTime : R
}.

Record Coordinator := {
  recordingState : RecordingState;
  upload : Upload.UploadState;
  recordingTimerRef : option nat;       (* id held in the ref *)
  intervals : list nat;                 (* intervals still installed *)
  nextIntervalId : nat;
  mediaRecorder : option MediaRecorderState;   (* mediaRecorderRef *)
  stopsPending : nat;                   (* [onstop] events owed *)
  audioStream : bool;                   (* audioStreamRef.current, live *)
  mediaStreamSourceConnected : bool;
  recordedChunks : list nat;            (* sizes of the chunks *)
  waveformData : list (list R);         (* waveformDataRef.current *)
  recorded : option Audio;              (* audioRefs.current.recorded *)
  resetWaveformPlayback : Z;
  revokedUrls : list string             (* URL.revokeObjectURL calls *)
}.

Definition initialCoordinator : Coordinator :=
  {| recordingState := initialRecordingState;
     upload := Upload.initialUploadState;
     recordingTimerRef := None; intervals := []; nextIntervalId := 1%nat;
     mediaRecorder := None; stopsPending := 0%nat; audioStream := false;
     mediaStreamSourceConnected := false;
     recordedChunks := []; waveformData := []; recorded := None;
     resetWaveformPlayback := 0; revokedUrls := [] |}.

(** Assignments to the pieces of state, one per field that changes. *)
Definition setRecordingState (f : RecordingState -> RecordingState)
  (c : Coordinator) : Coordinator :=
  {| recordingState := f (recordingState c); upload := upload c;
     recordingTimerRef := recordingTimerRef c; intervals := intervals c;
     nextIntervalId := nextIntervalId c;
     mediaRecorder := mediaRecorder c; stopsPending := stopsPending c;
     audioStream := audioStream c;
     mediaStreamSourceConnected := mediaStreamSourceConnected c;
     recordedChunks := recordedChunks c; waveformData := waveformData c;
     recorded := recorded c;
     resetWaveformPlayback := resetWaveformPlayback c;
     revokedUrls := revokedUrls c |}.

Definition set_upload (u : Upload.UploadState) (c : Coordinator)
  : Coordinator :=
  {| recordingState := recordingState c; upload := u;
     recordingTimerRef := recordingTimerRef c; intervals := intervals c;
     nextIntervalId := nextIntervalId c;
     mediaRecorder := mediaRecorder c; stopsPending := stopsPending c;
     audioStream := audioStream c;
     mediaStreamSourceConnected := mediaStreamSourceConnected c;
     recordedChunks := recordedChunks c; waveformData := waveformData c;
     recorded := recorded c;
     resetWaveformPlayback := resetWaveformPlayback c;
     revokedUrls := revokedUrls c |}.

Definition set_recordingTimerRef (r : option nat) (c : Coordinator)
  : Coordinator :=
  {| recordingState := recordingState c; upload := upload c;
     recordingTimerRef := r; intervals := intervals c;
     nextIntervalId := nextIntervalId c;
     mediaRecorder := mediaRecorder c; stopsPending := stopsPending c;
     audioStream := audioStream c;
     mediaStreamSourceConnected := mediaStreamSourceConnected c;
     recordedChunks := recordedChunks c; waveformData := waveformData c;
     recorded := recorded c;
     resetWaveformPlayback := resetWaveformPlayback c;
     revokedUrls := revokedUrls c |}.

Definition set_intervals (l : list nat) (next : nat) (c : Coordinator)
  : Coordinator :=
  {| recordingState := recordingState c; upload := upload c;
     recordingTimerRef := recordingTimerRef c; intervals := l;
     nextIntervalId := next;
     mediaRecorder := mediaRecorder c; stopsPending := stopsPending c;
     audioStream := audioStream c;
     mediaStreamSourceConnected := mediaStreamSourceConnected c;
     recordedChunks := recordedChunks c; waveformData := waveformData c;
     recorded := recorded c;
     resetWaveformPlayback := resetWaveformPlayback c;
     revokedUrls := revokedUrls c |}.

Definition set_mediaRecorder (m : option MediaRecorderState) (owed : nat)
  (c : Coordinator) : Coordinator :=
  {| recordingState := recordingState c; upload := upload c;
     recordingTimerRef := recordingTimerRef c; intervals := intervals c;
     nextIntervalId := nextIntervalId c;
     mediaRecorder := m; stopsPending := owed;
     audioStream := audioStream c;
     mediaStreamSourceConnected := mediaStreamSourceConnected c;
     recordedChunks := recordedChunks c; waveformData := waveformData c;
     recorded := recorded c;
     resetWaveformPlayback := resetWaveformPlayback c;
     revokedUrls := revokedUrls c |}.

Definition set_stream (live connected : bool) (c : Coordinator)
  : Coordinator :=
  {| recordingState := recordingState c; upload := upload c;
     recordingTimerRef := recordingTimerRef c; intervals := intervals c;
     nextIntervalId := nextIntervalId c;
     mediaRecorder := mediaRecorder c; stopsPending := stopsPending c;
     audioStream := live; mediaStreamSourceConnected := connected;
     recordedChunks := recordedChunks c; waveformData := waveformData c;
     recorded := recorded c;
     resetWaveformPlayback := resetWaveformPlayback c;
     revokedUrls := revokedUrls c |}.

Definition set_buffers (chunks : list nat) (data : list (list R))
  (c : Coordinator) : Coordinator :=
  {| recordingState := recordingState c; upload := upload c;
     recordingTimerRef := recordingTimerRef c; intervals := intervals c;
     nextIntervalId := nextIntervalId c;
     mediaRecorder := mediaRecorder c; stopsPending := stopsPending c;
     audioStream := audioStream c;
     mediaStreamSourceConnected := mediaStreamSourceConnected c;
     recordedChunks := chunks; waveformData := data;
     recorded := recorded c;
     resetWaveformPlayback := resetWaveformPlayback c;
     revokedUrls := revokedUrls c |}.

Definition set_recorded (a : option Audio) (revoked : list string)
  (c : Coordinator) : Coordinator :=
  {| recordingState := recordingState c; upload := upload c;
     recordingTimerRef := recordingTimerRef c; intervals := intervals c;
     nextIntervalId := nextIntervalId c;
     mediaRecorder := mediaRecorder c; stopsPending := stopsPending c;
     audioStream := audioStream c;
     mediaStreamSourceConnected := mediaStreamSourceConnected c;
     recordedChunks := recordedChunks c; waveformData := waveformData c;
     recorded := a;
     resetWaveformPlayback := resetWaveformPlayback c;
     revokedUrls := revoked |}.

Definition setResetWaveformPlayback (f : Z -> Z) (c : Coordinator)
  : Coordinator :=
  {| recordingState := recordingState c; upload := upload c;
     recordingTimerRef := recordingTimerRef c; intervals := intervals c;
     nextIntervalId := nextIntervalId c;
     mediaRecorder := mediaRecorder c; stopsPending := stopsPending c;
     audioStream := audioStream c;
     mediaStreamSourceConnected := mediaStreamSourceConnected c;
     recordedChunks := recordedChunks c; waveformData := waveformData c;
     recorded := recorded c;
     resetWaveformPlayback := f (resetWaveformPlayback c);
     revokedUrls := revokedUrls c |}.

(** [mediaRecorderRef.current.stop()] guarded by
    [state === 'recording']: the recorder goes inactive and owes one
    [onstop] event. *)
Definition stopMediaRecorder (c : Coordinator) : Coordinator :=
  match mediaRecorder c with
  | Some recording => set_mediaRecorder (Some inactive) (S (stopsPending c)) c
  | _ => c
  end.

(** [clearInterval(id)] *)
Definition clearInterval (id : option nat) (c : Coordinator) : Coordinator :=
  match id with
  | Some i =>
      set_intervals (filter (fun j => negb (Nat.eqb i j)) (intervals c))
        (nextIntervalId c) c
  | None => c
  end.

(** [onRecordAudioClick] (lines 837-839): the popup opens. *)
Definition openPopup (c : Coordinator) : Coordinator :=
  setRecordingState
    (fun prev =>
       {| isPopupOpen := true; isRecording := isRecording prev;
          recordingTime := recordingTime prev;
          recordedAudioUrl := recordedAudioUrl prev;
          recordedDuration := recordedDuration prev;
          playbackTime := playbackTime prev;
          isPlayingRecordedAudio := isPlayingRecordedAudio prev |}) c.

(** ['startRecording'] (lines 341-391), on the path where the microphone
    stream is obtained: state update, upload reset, a fresh recorder
    started with a 100 ms time slice, and the one-second timer
    installed. *)
Definition startRecording (c : Coordinator) : Coordinator :=
  let c := setRecordingState
    (fun prev =>
       {| isPopupOpen := isPopupOpen prev; isRecording := true;
          recordingTime := 0; recordedAudioUrl := recordedAudioUrl prev;
          recordedDuration := recordedDuration prev;
          playbackTime := playbackTime prev;
          isPlayingRecordedAudio := isPlayingRecordedAudio prev |}) c in
  let c := set_upload (Upload.uploadReducer (upload c) Upload.RESET) c in
  let c := set_stream true true c in
  let c := set_mediaRecorder (Some inactive) (stopsPending c) c in
  let c := set_buffers [] (waveformData c) c in
  let c := set_mediaRecorder (Some recording) (stopsPending c) c in
  let id := nextIntervalId c in
  let c := set_intervals (intervals c ++ [id]) (S id) c in
  set_recordingTimerRef (Some id) c.

(** One firing of the interval callback installed by ['startRecording']
    (lines 371-386).  The updater passed to [setRecordingState] stops the
    recorder and clears the interval when the next second would reach
    [MAX_DURATION], and then returns [prev] unchanged. *)
Definition recordingTimerTick (c : Coordinator) : Coordinator :=
  let prev := recordingState c in
  let newTime := recordingTime prev + 1 in
  if newTime >=? MAX_DURATION then
    let c := stopMediaRecorder c in
    let c := clearInterval (recordingTimerRef c) c in
    setRecordingState (fun prev => prev) c
  else
    setRecordingState
      (fun prev =>
         {| isPopupOpen := isPopupOpen prev; isRecording := isRecording prev;
            recordingTime := newTime;
            recordedAudioUrl := recordedAudioUrl prev;
            recordedDuration := recordedDuration prev;
            playbackTime := playbackTime prev;
            isPlayingRecordedAudio := isPlayingRecordedAudio prev |}) c.

(** The platform fires the interval as long as it is installed. *)
Definition intervalFires (c : Coordinator) : Coordinator :=
  match recordingTimerRef c with
  | Some id =>
      if existsb (Nat.eqb id) (intervals c) then recordingTimerTick c else c
  | None => c
  end.

(** [mediaRecorder.onstop] (lines 363-369): the chunks become a blob
    whose object URL is [url]. *)
Definition onstop (url : string) (c : Coordinator) : Coordinator :=
  match stopsPending c with
  | O => c
  | S n =>
      let c := set_mediaRecorder (mediaRecorder c) n c in
      setRecordingState
        (fun prev =>
           {| isPopupOpen := isPopupOpen prev;
              isRecording := isRecording prev;
              recordingTime := recordingTime prev;
              recordedAudioUrl := Some url;
              recordedDuration := recordedDuration prev;
              playbackTime := playbackTime prev;
              isPlayingRecordedAudio := isPlayingRecordedAudio prev |}) c
  end.

(** ['stopRecording'] (lines 392-418); the final redraw of the main page
    canvas is not part of the state. *)
Definition stopRecording (c : Coordinator) : Coordinator :=
  let c := setRecordingState
    (fun prev =>
       {| isPopupOpen := isPopupOpen prev; isRecording := false;
          recordingTime := recordingTime prev;
          recordedAudioUrl := recordedAudioUrl prev;
          recordedDuration := recordedDuration prev;
          playbackTime := playbackTime prev;
          isPlayingRecordedAudio := isPlayingRecordedAudio prev |}) c in
  let c := stopMediaRecorder c in
  let c := set_stream false false c in
  let c :=
    match recordingTimerRef c with
    | Some id => set_recordingTimerRef None (clearInterval (Some id) c)
    | None => c
    end in
  setRecordingState
    (fun prev =>
       {| isPopupOpen := isPopupOpen prev; isRecording := isRecording prev;
          recordingTime := recordingTime prev;
          recordedAudioUrl := recordedAudioUrl prev;
          recordedDuration := recordingTime prev;
          playbackTime := playbackTime prev;
          isPlayingRecordedAudio := isPlayingRecordedAudio prev |}) c.

(** [pauseAudioElement] as called by ['pauseAudio'] (lines 484-487). *)
Definition pauseAudio (c : Coordinator) : Coordinator :=
  let c :=
    match recorded c with
    | Some a =>
        set_recorded
          (Some {| audio_src := audio_src a; audio_paused := true;
                   audio_currentTime := audio_currentTime a |})
          (revokedUrls c) c
    | None => c
    end in
  setRecordingState
    (fun prev =>
       {| isPopupOpen := isPopupOpen prev; isRecording := isRecording prev;
          recordingTime := recordingTime prev;
          recordedAudioUrl := recordedAudioUrl prev;
          recordedDuration := recordedDuration prev;
          playbackTime := playbackTime prev;
          isPlayingRecordedAudio := false |}) c.

Definition starts_with_blob (s : string) : bool :=
  String.prefix "blob:" s.

(** [cleanupRecordedAudio] as ['reRecord'] calls it, on a fresh ref object
    around the element: the element is paused, rewound, its blob URL
    revoked and its source removed; the coordinator's own reference to it
    stays. *)
Definition cleanupRecordedAudio (c : Coordinator) : Coordinator :=
  match recorded c with
  | Some a =>
      let revoked :=
        match audio_src a with
        | Some src => if starts_with_blob src then [src] else []
        | None => []
        end in
      set_recorded
        (Some {| audio_src := None; audio_paused := true;
                 audio_currentTime := 0%R |})
        (revokedUrls c ++ revoked) c
  | None => c
  end.

(** [resetRecordingState] ([utils], lines 839-855). *)
Definition resetRecordingState (c : Coordinator) : Coordinator :=
  let c := setRecordingState
    (fun prev =>
       {| isPopupOpen := isPopupOpen prev; isRecording := isRecording prev;
          recordingTime := recordingTime prev;
          recordedAudioUrl := None; recordedDuration := 0;
          playbackTime := 0%R; isPlayingRecordedAudio := false |}) c in
  let c := set_buffers [] [] c in
  setResetWaveformPlayback (fun prev => prev + 1) c.

(** ['reRecord'] (lines 491-500). *)
Definition reRecord (c : Coordinator) : Coordinator :=
  resetRecordingState (cleanupRecordedAudio c).

(** *** Scenarios for the properties below *)

(** A session started in the freshly opened popup, timer fired [k]
    times. *)
Definition session (k : nat) : Coordinator :=
  Nat.iter k intervalFires (startRecording (openPopup initialCoordinator)).

(** A recording under review: three seconds recorded, stopped by hand,
    URL delivered. *)
Definition underReview : Coordinator :=
  onstop "blob:rec" (stopRecording (session 3)).

End Recorder.

(** ** The recording popup ([RecordingPopupComponent])

    The coordinator renders the popup with [isOpen = true] only, so the
    early [return null] is never taken and every hook runs. *)

Module Popup.

Local Open Scope R_scope.
Local Open Scope string_scope.

(** Helper function for linear interpolation (lines 211-213). *)
Definition lerp (start end_ amount : R) : R :=
  start * (1 - amount) + end_ * amount.

Definition Math_floor (x : R) : R := IZR (Int_part x).

(** *** Canvases

    The bitmap of a canvas is the list of drawing commands issued since it
    was last reset, oldest first.  Assigning [width] or [height] resets the
    bitmap and the context state, as the platform does. *)

Inductive PathSeg :=
| MoveTo (x y : R)
| LineTo (x y : R)
| ArcTo (x1 y1 x2 y2 radius : R)
| ClosePath.

Inductive DrawOp :=
| ClearRect (x y w h : R)
| FillRect (style composite : string) (x y w h : R)
| FillPath (style composite : string) (path : list PathSeg)
| DrawImage (source : list DrawOp) (sx sy sw sh dx dy dw dh : R).

Record Canvas := {
  width : R;                 (* bitmap width, device pixels *)
  height : R;                (* bitmap height, device pixels *)
  offsetWidth : R;           (* layout width, CSS pixels *)
  offsetHeight : R;          (* layout height, CSS pixels *)
  has2d : bool;              (* getContext('2d') is not null *)
  fillStyle : string;
  globalCompositeOperation : string;
  bitmap : list DrawOp
}.

Definition default_fillStyle : string := "#000000".
Definition default_composite : string := "source-over".

(** Conversion of a number to [unsigned long]: the fraction is dropped
    (towards zero) and the integer is taken modulo 2^32. *)
Definition ToInteger (x : R) : Z :=
  if Rle_dec 0 x then Int_part x else (- Int_part (- x))%Z.

Definition ToUint32 (x : R) : Z := (ToInteger x mod 4294967296)%Z.

(** What [canvas.width] (or [height]) reads after the number [v] was
    assigned to it: the attribute is an [unsigned long] that reflects the
    content attribute, and a value above 2^31 - 1 is replaced by the
    attribute's default. *)
Definition dimension (default : Z) (v : R) : R :=
  let n := ToUint32 v in
  IZR (if (2147483647 <? n)%Z then default else n).

(** [canvas.width = v] *)
Definition set_width (v : R) (c : Canvas) : Canvas :=
  {| width := dimension 300 v; height := height c;
     offsetWidth := offsetWidth c; offsetHeight := offsetHeight c;
     has2d := has2d c; fillStyle := default_fillStyle;
     globalCompositeOperation := default_composite; bitmap := [] |}.

(** [canvas.height = v] *)
Definition set_height (v : R) (c : Canvas) : Canvas :=
  {| width := width c; height := dimension 150 v;
     offsetWidth := offsetWidth c; offsetHeight := offsetHeight c;
     has2d := has2d c; fillStyle := default_fillStyle;
     globalCompositeOperation := default_composite; bitmap := [] |}.

Definition set_fillStyle (s : string) (c : Canvas) : Canvas :=
  {| width := width c; height := height c;
     offsetWidth := offsetWidth c; offsetHeight := offsetHeight c;
     has2d := has2d c; fillStyle := s;
     globalCompositeOperation := globalCompositeOperation c;
     bitmap := bitmap c |}.

Definition set_composite (s : string) (c : Canvas) : Canvas :=
  {| width := width c; height := height c;
     offsetWidth := offsetWidth c; offsetHeight := offsetHeight c;
     has2d := has2d c; fillStyle := fillStyle c;
     globalCompositeOperation := s; bitmap := bitmap c |}.

Definition draw (op : DrawOp) (c : Canvas) : Canvas :=
  {| width := width c; height := height c;
     offsetWidth := offsetWidth c; offsetHeight := offsetHeight c;
     has2d := has2d c; fillStyle := fillStyle c;
     globalCompositeOperation := globalCompositeOperation c;
     bitmap := bitmap c ++ [op] |}.

Definition clearRect (x y w h : R) (c : Canvas) : Canvas :=
  draw (ClearRect x y w h) c.

Definition fillRect (x y w h : R) (c : Canvas) : Canvas :=
  draw (FillRect (fillStyle c) (globalCompositeOperation c) x y w h) c.

Definition fill (path : list PathSeg) (c : Canvas) : Canvas :=
  draw (FillPath (fillStyle c) (globalCompositeOperation c) path) c.

(** [document.createElement('canvas')]: 300 by 150, not laid out. *)
Definition createCanvas (context2d : bool) : Canvas :=
  {| width := 300; height := 150; offsetWidth := 0; offsetHeight := 0;
     has2d := context2d; fillStyle := default_fillStyle;
     globalCompositeOperation := default_composite; bitmap := [] |}.

(** *** Props, refs and the frame scheduler *)

Record Props := {
  isRecording : bool;
  recordingTime : R;
  recordedDuration : R;
  recordedAudioUrl : option string;
  maxDuration : R;
  analyserNode : bool;             (* the prop is not null *)
  isPlayingRecordedAudio : bool;
  currentPlaybackTime : R;
  resetTrigger : Z
}.

(** A callback handed to [requestAnimationFrame], with the props its
    closure captured. *)
Inductive Callback :=
| LiveLoop (p : Props)         (* drawLiveWaveformBars *)
| PlaybackLoop (p : Props).    (* animationLoop *)

(** What the page supplies. *)
Record Env := {
  devicePixelRatio : R;       (* window.devicePixelRatio *)
  context2d : bool            (* a new canvas yields a 2D context *)
}.

(** [window.devicePixelRatio || 1] *)
Definition dpr (env : Env) : R :=
  if Req_dec_T (devicePixelRatio env) 0 then 1 else devicePixelRatio env.

Record State := {
  liveWaveformCanvas : option Canvas;        (* liveWaveformCanvasRef *)
  animationFrameId : option positive;        (* animationFrameIdRef *)
  playbackAnimationFrameId : option positive;
  waveformHistory : list R;                  (* waveformHistoryRef *)
  playbackStartTime : option R;              (* playbackStartTimeRef *)
  internalPlaybackTime : R;                  (* useState *)
  smoothedScrollOffset : R;                  (* smoothedScrollOffsetRef *)
  lastFrameTime : option R;                  (* lastFrameTimeRef *)
  cachedWaveformCanvas : option Canvas;      (* cachedWaveformCanvasRef *)
  frames : list (positive * Callback);       (* requested, not yet run *)
  nextFrameId : positive;
  pauseSignals : nat                         (* onPauseRecording calls *)
}.

Definition with_canvas (c : option Canvas) (st : State) : State :=
  {| liveWaveformCanvas := c; animationFrameId := animationFrameId st;
     playbackAnimationFrameId := playbackAnimationFrameId st;
     waveformHistory := waveformHistory st;
     playbackStartTime := playbackStartTime st;
     internalPlaybackTime := internalPlaybackTime st;
     smoothedScrollOffset := smoothedScrollOffset st;
     lastFrameTime := lastFrameTime st;
     cachedWaveformCanvas := cachedWaveformCanvas st;
     frames := frames st; nextFrameId := nextFrameId st;
     pauseSignals := pauseSignals st |}.

Definition with_cached (c : option Canvas) (st : State) : State :=
  {| liveWaveformCanvas := liveWaveformCanvas st;
     animationFrameId := animationFrameId st;
     playbackAnimationFrameId := playbackAnimationFrameId st;
     waveformHistory := waveformHistory st;
     playbackStartTime := playbackStartTime st;
     internalPlaybackTime := internalPlaybackTime st;
     smoothedScrollOffset := smoothedScrollOffset st;
     lastFrameTime := lastFrameTime st;
     cachedWaveformCanvas := c;
     frames := frames st; nextFrameId := nextFrameId st;
     pauseSignals := pauseSignals st |}.

Definition with_history (h : list R) (st : State) : State :=
  {| liveWaveformCanvas := liveWaveformCanvas st;
     animationFrameId := animationFrameId st;
     playbackAnimationFrameId := playbackAnimationFrameId st;
     waveformHistory := h;
     playbackStartTime := playbackStartTime st;
     internalPlaybackTime := internalPlaybackTime st;
     smoothedScrollOffset := smoothedScrollOffset st;
     lastFrameTime := lastFrameTime st;
     cachedWaveformCanvas := cachedWaveformCanvas st;
     frames := frames st; nextFrameId := nextFrameId st;
     pauseSignals := pauseSignals st |}.

(** The four playback fields that are written together. *)
Definition with_playback (start : option R) (internal smoothed : R)
  (last_ : option R) (st : State) : State :=
  {| liveWaveformCanvas := liveWaveformCanvas st;
     animationFrameId := animationFrameId st;
     playbackAnimationFrameId := playbackAnimationFrameId st;
     waveformHistory := waveformHistory st;
     playbackStartTime := start;
     internalPlaybackTime := internal;
     smoothedScrollOffset := smoothed;
     lastFrameTime := last_;
     cachedWaveformCanvas := cachedWaveformCanvas st;
     frames := frames st; nextFrameId := nextFrameId st;
     pauseSignals := pauseSignals st |}.

Definition with_playbackFrameId (id : option positive) (st : State) : State :=
  {| liveWaveformCanvas := liveWaveformCanvas st;
     animationFrameId := animationFrameId st;
     playbackAnimationFrameId := id;
     waveformHistory := waveformHistory st;
     playbackStartTime := playbackStartTime st;
     internalPlaybackTime := internalPlaybackTime st;
     smoothedScrollOffset := smoothedScrollOffset st;
     lastFrameTime := lastFrameTime st;
     cachedWaveformCanvas := cachedWaveformCanvas st;
     frames := frames st; nextFrameId := nextFrameId st;
     pauseSignals := pauseSignals st |}.

Definition with_liveFrameId (id : option positive) (st : State) : State :=
  {| liveWaveformCanvas := liveWaveformCanvas st;
     animationFrameId := id;
     playbackAnimationFrameId := playbackAnimationFrameId st;
     waveformHistory := waveformHistory st;
     playbackStartTime := playbackStartTime st;
     internalPlaybackTime := internalPlaybackTime st;
     smoothedScrollOffset := smoothedScrollOffset st;
     lastFrameTime := lastFrameTime st;
     cachedWaveformCanvas := cachedWaveformCanvas st;
     frames := frames st; nextFrameId := nextFrameId st;
     pauseSignals := pauseSignals st |}.

(** [requestAnimationFrame(cb)]: queues the callback, yields its id. *)
Definition requestAnimationFrame (cb : Callback) (st : State)
  : positive * State :=
  (nextFrameId st,
   {| liveWaveformCanvas := liveWaveformCanvas st;
      animationFrameId := animationFrameId st;
      playbackAnimationFrameId := playbackAnimationFrameId st;
      waveformHistory := waveformHistory st;
      playbackStartTime := playbackStartTime st;
      internalPlaybackTime := internalPlaybackTime st;
      smoothedScrollOffset := smoothedScrollOffset st;
      lastFrameTime := lastFrameTime st;
      cachedWaveformCanvas := cachedWaveformCanvas st;
      frames := frames st ++ [(nextFrameId st, cb)];
      nextFrameId := Pos.succ (nextFrameId st);
      pauseSignals := pauseSignals st |}).

Definition cancelAnimationFrame (id : positive) (st : State) : State :=
  {| liveWaveformCanvas := liveWaveformCanvas st;
     animationFrameId := animationFrameId st;
     playbackAnimationFrameId := playbackAnimationFrameId st;
     waveformHistory := waveformHistory st;
     playbackStartTime := playbackStartTime st;
     internalPlaybackTime := internalPlaybackTime st;
     smoothedScrollOffset := smoothedScrollOffset st;
     lastFrameTime := lastFrameTime st;
     cachedWaveformCanvas := cachedWaveformCanvas st;
     frames := filter (fun f => negb (Pos.eqb (fst f) id)) (frames st);
     nextFrameId := nextFrameId st;
     pauseSignals := pauseSignals st |}.

(** [onPauseRecording()] *)
Definition onPauseRecording (st : State) : State :=
  {| liveWaveformCanvas := liveWaveformCanvas st;
     animationFrameId := animationFrameId st;
     playbackAnimationFrameId := playbackAnimationFrameId st;
     waveformHistory := waveformHistory st;
     playbackStartTime := playbackStartTime st;
     internalPlaybackTime := internalPlaybackTime st;
     smoothedScrollOffset := smoothedScrollOffset st;
     lastFrameTime := lastFrameTime st;
     cachedWaveformCanvas := cachedWaveformCanvas st;
     frames := frames st; nextFrameId := nextFrameId st;
     pauseSignals := S (pauseSignals st) |}.

(** [animationFrameIdRef.current = requestAnimationFrame(drawLiveWaveformBars)] *)
Definition scheduleLive (p : Props) (st : State) : State :=
  let (id, st) := requestAnimationFrame (LiveLoop p) st in
  with_liveFrameId (Some id) st.

(** [playbackAnimationFrameIdRef.current = requestAnimationFrame(animationLoop)] *)
Definition schedulePlayback (p : Props) (st : State) : State :=
  let (id, st) := requestAnimationFrame (PlaybackLoop p) st in
  with_playbackFrameId (Some id) st.

(** [if (ref.current) { cancelAnimationFrame(ref.current); ref.current = null }] *)
Definition cancelLive (st : State) : State :=
  match animationFrameId st with
  | Some id => with_liveFrameId None (cancelAnimationFrame id st)
  | None => st
  end.

Definition cancelPlayback (st : State) : State :=
  match playbackAnimationFrameId st with
  | Some id => with_playbackFrameId None (cancelAnimationFrame id st)
  | None => st
  end.

(** *** Geometry constants *)

Definition fixedBarWidth : R := 3.
Definition fixedGap : R := 2.3.
Definition totalBarAndGapWidth : R := fixedBarWidth + fixedGap.
Definition cornerRadiusLogical : R := 1.
Definition sensitivityFactor : R := 30.5.

(** Lines 277-310. *)
Definition drawRoundedRect (x y w h radius : R) (c : Canvas) : Canvas :=
  if Rlt_dec h (2 * radius) then fillRect x y w h c
  else
    fill [ MoveTo (x + radius) y;
           LineTo (x + w - radius) y;
           ArcTo (x + w) y (x + w) (y + radius) radius;
           LineTo (x + w) (y + h - radius);
           ArcTo (x + w) (y + h) (x + w - radius) (y + h) radius;
           LineTo (x + radius) (y + h);
           ArcTo x (y + h) x (y + h - radius) radius;
           LineTo x (y + radius);
           ArcTo x y (x + radius) y radius;
           ClosePath ] c.

(** The loop of lines 359-376, from index [i] on. *)
Fixpoint drawStaticBars (d physicalHeight : R) (i : nat) (hs : list R)
  (c : Canvas) : Canvas :=
  match hs with
  | [] => c
  | historicalBarHeight :: rest =>
      let barX := INR i * totalBarAndGapWidth * d in
      let barHeightPhysical := historicalBarHeight * d in
      let barY := (physicalHeight - barHeightPhysical) / 2 in
      let barWidthPhysical := fixedBarWidth * d in
      drawStaticBars d physicalHeight (S i) rest
        (drawRoundedRect barX barY barWidthPhysical barHeightPhysical
           (cornerRadiusLogical * d) c)
  end.

(** Lines 313-381. *)
Definition drawStaticWaveformToCache (env : Env) (st : State) : State :=
  match liveWaveformCanvas st with
  | None => st
  | Some mainCanvas =>
    match waveformHistory st with
    | [] => st
    | _ :: _ =>
      let d := dpr env in
      let cachedCanvas :=
        match cachedWaveformCanvas st with
        | Some c => c
        | None => createCanvas (context2d env)
        end in
      if negb (has2d cachedCanvas) then with_cached (Some cachedCanvas) st
      else
        let totalWaveformPhysicalWidth :=
          INR (List.length (waveformHistory st)) * totalBarAndGapWidth * d in
        let cachedCanvas := set_width totalWaveformPhysicalWidth cachedCanvas in
        let cachedCanvas :=
          set_height (Math_floor (offsetHeight mainCanvas * d)) cachedCanvas in
        let physicalHeight := height cachedCanvas in
        let cachedCanvas :=
          clearRect 0 0 (width cachedCanvas) physicalHeight cachedCanvas in
        let cachedCanvas :=
          set_fillStyle "rgba(255, 255, 255, 1)" cachedCanvas in
        let cachedCanvas :=
          drawStaticBars d physicalHeight 0 (waveformHistory st) cachedCanvas in
        with_cached (Some cachedCanvas) st
    end
  end.

(** [canvas.width = floor(offsetWidth * dpr); canvas.height = floor(...)] *)
Definition resize (d : R) (c : Canvas) : Canvas :=
  set_height (Math_floor (offsetHeight c * d))
    (set_width (Math_floor (offsetWidth c * d)) c).

Definition needs_resize (d : R) (c : Canvas) : bool :=
  negb (if Req_dec_T (width c) (Math_floor (offsetWidth c * d))
        then true else false)
  || negb (if Req_dec_T (height c) (Math_floor (offsetHeight c * d))
           then true else false).

Definition is_zero (x : R) : bool :=
  if Req_dec_T x 0 then true else false.

(** The byte read from a frequency bin, as a number. *)
Definition bin_value (b : Byte.byte) : R := IZR (Z.of_N (Byte.to_N b)).

(** [sum] after the loop of lines 428-431. *)
Definition sumBins (dataArray : list Byte.byte) : R :=
  fold_left (fun sum b => sum + bin_value b) dataArray 0.

(** Lines 432-437: the bar height computed from one reading of the
    analyser, on a canvas of device-pixel height [physicalHeight]. *)
Definition newBarHeight (d physicalHeight : R) (dataArray : list Byte.byte)
  : R :=
  let bufferLength := INR (List.length dataArray) in
  let averageAmplitude := sumBins dataArray / bufferLength in
  let scaledHeight :=
    ((averageAmplitude / 255) * physicalHeight * sensitivityFactor) / d in
  Rmax 2 (Rmin scaledHeight 32).

(** The loop of lines 454-471, from index [i] on. *)
Fixpoint drawLiveBars (d physicalWidth physicalHeight scrollOffsetLive : R)
  (i : nat) (hs : list R) (c : Canvas) : Canvas :=
  match hs with
  | [] => c
  | historicalBarHeight :: rest =>
      let barX := INR i * totalBarAndGapWidth * d - scrollOffsetLive in
      let barHeightPhysical := historicalBarHeight * d in
      let barY := (physicalHeight - barHeightPhysical) / 2 in
      let barWidthPhysical := fixedBarWidth * d in
      drawLiveBars d physicalWidth physicalHeight scrollOffsetLive (S i) rest
        (if Rlt_dec 0 (barX + barWidthPhysical) then
           if Rlt_dec barX physicalWidth then
             drawRoundedRect barX barY barWidthPhysical barHeightPhysical
               (cornerRadiusLogical * d) c
           else c
         else c)
  end.

(** Lines 384-476: one run of the live loop's callback.  [dataArray] is
    what [getByteFrequencyData] delivers at this tick; its length is the
    analyser's [frequencyBinCount].  [p] are the props the callback closed
    over. *)
Definition drawLiveWaveformBars (env : Env) (p : Props)
  (dataArray : list Byte.byte) (st : State) : State :=
  let reschedule st := if isRecording p then scheduleLive p st else st in
  match liveWaveformCanvas st with
  | None => reschedule st
  | Some canvas =>
    if negb (analyserNode p) then reschedule st
    else if negb (has2d canvas) then reschedule st
    else
      let d := dpr env in
      let canvas :=
        if is_zero (width canvas) || is_zero (height canvas)
           || needs_resize d canvas
        then resize d canvas else canvas in
      let physicalWidth := width canvas in
      let physicalHeight := height canvas in
      let canvas := clearRect 0 0 physicalWidth physicalHeight canvas in
      let bar := newBarHeight d physicalHeight dataArray in
      let history := (waveformHistory st ++ [bar])%list in
      let totalBarsRecorded := INR (List.length history) in
      let totalWaveformPhysicalWidthLive :=
        totalBarsRecorded * totalBarAndGapWidth * d in
      let visiblePhysicalWidthLive := physicalWidth in
      let scrollOffsetLive :=
        if Rlt_dec visiblePhysicalWidthLive totalWaveformPhysicalWidthLive
        then totalWaveformPhysicalWidthLive - visiblePhysicalWidthLive
        else 0 in
      let canvas := set_fillStyle "#FFFFFF" canvas in
      let canvas :=
        drawLiveBars d physicalWidth physicalHeight scrollOffsetLive
          0 history canvas in
      reschedule (with_canvas (Some canvas) (with_history history st))
  end.

(** Lines 479-589. *)
Definition drawPlaybackFrame (env : Env) (p : Props) (currentTime : R)
  (st : State) : State :=
  match liveWaveformCanvas st, cachedWaveformCanvas st with
  | Some canvas, Some cachedCanvas =>
    match waveformHistory st with
    | [] => st
    | _ :: _ =>
      if negb (has2d canvas && has2d cachedCanvas) then st
      else
        let d := dpr env in
        let canvas := if needs_resize d canvas then resize d canvas
                      else canvas in
        let physicalWidth := width canvas in
        let physicalHeight := height canvas in
        let canvas := clearRect 0 0 physicalWidth physicalHeight canvas in
        let totalWaveformPhysicalWidth :=
          INR (List.length (waveformHistory st)) * totalBarAndGapWidth * d in
        let scrollOffset := smoothedScrollOffset st in
        let canvas :=
          draw (DrawImage (bitmap cachedCanvas)
                  scrollOffset 0 physicalWidth physicalHeight
                  0 0 physicalWidth physicalHeight) canvas in
        let playbackProgressFullWaveform :=
          if Rlt_dec 0 (recordedDuration p)
          then (currentTime / recordedDuration p) * totalWaveformPhysicalWidth
          else 0 in
        let overlayEndPointOnVisibleCanvas :=
          playbackProgressFullWaveform - scrollOffset in
        let canvas := set_fillStyle "rgba(132,137,145,0.8)" canvas in
        let saved := globalCompositeOperation canvas in
        let canvas := set_composite "source-atop" canvas in
        let canvas :=
          fillRect 0 0 (Rmax 0 overlayEndPointOnVisibleCanvas) physicalHeight
            canvas in
        let canvas := set_composite saved canvas in
        with_canvas (Some canvas) st
    end
  | _, _ => st
  end.

(** *** The live-visualisation effect (lines 592-644) *)

Definition liveEffect (env : Env) (p : Props) (st : State) : State :=
  match liveWaveformCanvas st with
  | None => st
  | Some canvas =>
    if isRecording p && analyserNode p then
      if (if Rlt_dec 0 (offsetWidth canvas) then true else false)
         && (if Rlt_dec 0 (offsetHeight canvas) then true else false)
      then
        let d := dpr env in
        let canvas := if needs_resize d canvas then resize d canvas
                      else canvas in
        let st := with_canvas (Some canvas) st in
        let st := with_history [] st in
        scheduleLive p st
      else cancelLive st
    else
      let st := cancelLive st in
      match recordedAudioUrl p, waveformHistory st with
      | Some url, _ :: _ =>
          if String.eqb url EmptyString then st
          else drawStaticWaveformToCache env st
      | _, _ => st
      end
  end.

Definition liveCleanup (st : State) : State := cancelLive st.

(** *** The playback effect (lines 647-800) *)

(** [totalWaveformPhysicalWidth] of line 693. *)
Definition totalWaveformPhysicalWidth (env : Env) (st : State) : R :=
  INR (List.length (waveformHistory st)) * totalBarAndGapWidth * dpr env.

(** [playbackProgressPhysical] of lines 696-700. *)
Definition playbackProgressPhysical (recordedDuration newInternalPlaybackTime
  totalWidth : R) : R :=
  if Rlt_dec 0 recordedDuration
  then (newInternalPlaybackTime / recordedDuration) * totalWidth
  else 0.

(** [targetScrollOffset] of lines 702-714. *)
Definition targetScrollOffset (playbackProgress totalWidth physicalWidth : R)
  : R :=
  let playheadCanvasPosition := physicalWidth * 0.2 in
  if Rlt_dec physicalWidth totalWidth then
    Rmax 0 (Rmin (playbackProgress - playheadCanvasPosition)
                 (totalWidth - physicalWidth))
  else 0.

(** [easingFactor] of line 725. *)
Definition easingFactor (deltaTime : R) : R :=
  1 - exp ((-1.8 * deltaTime) / 1000).

(** One run of [animationLoop] (lines 649-754) with the props [p] of the
    effect that defined it. *)
Definition animationLoop (env : Env) (p : Props) (timestamp : R)
  (st : State) : State :=
  match liveWaveformCanvas st with
  | Some canvas =>
    if negb (isPlayingRecordedAudio p) then
      drawPlaybackFrame env p (currentPlaybackTime p)
        (with_playback None (internalPlaybackTime st)
           (smoothedScrollOffset st) None
           (with_playbackFrameId None st))
    else
      let start :=
        match playbackStartTime st with
        | Some s => s
        | None => timestamp - currentPlaybackTime p * 1000
        end in
      let last_ :=
        match playbackStartTime st, lastFrameTime st with
        | Some _, Some l => l
        | _, _ => timestamp
        end in
      let deltaTime := timestamp - last_ in
      let elapsed := (timestamp - start) / 1000 in
      let newInternalPlaybackTime := Rmin elapsed (recordedDuration p) in
      let physicalWidth := width canvas in
      let total := totalWaveformPhysicalWidth env st in
      let target :=
        targetScrollOffset
          (playbackProgressPhysical (recordedDuration p)
             newInternalPlaybackTime total)
          total physicalWidth in
      let smoothed :=
        lerp (smoothedScrollOffset st) target (easingFactor deltaTime) in
      let st :=
        with_playback (Some start) newInternalPlaybackTime smoothed
          (Some timestamp) st in
      let st := drawPlaybackFrame env p newInternalPlaybackTime st in
      if Rle_dec (recordedDuration p) newInternalPlaybackTime then
        let st := onPauseRecording st in
        with_playback None (recordedDuration p) (smoothedScrollOffset st)
          None (with_playbackFrameId None st)
      else schedulePlayback p st
  | None =>
      drawPlaybackFrame env p (currentPlaybackTime p)
        (with_playback None (internalPlaybackTime st)
           (smoothedScrollOffset st) None
           (with_playbackFrameId None st))
  end.

Definition playbackEffect (env : Env) (p : Props) (st : State) : State :=
  if isPlayingRecordedAudio p then
    match playbackAnimationFrameId st with
    | None => schedulePlayback p st
    | Some _ => st
    end
  else
    let st := cancelPlayback st in
    let st := with_playback None (currentPlaybackTime p)
                (smoothedScrollOffset st) None st in
    drawPlaybackFrame env p (currentPlaybackTime p) st.

Definition playbackCleanup (st : State) : State :=
  let st := cancelPlayback st in
  with_playback None (internalPlaybackTime st) (smoothedScrollOffset st)
    None st.

(** The reset effect (lines 803-811). *)
Definition resetEffect (st : State) : State :=
  with_playback None 0 0 None st.

(** The effect on [recordedAudioUrl] (lines 832-855). *)
Definition urlEffect (env : Env) (p : Props) (st : State) : State :=
  match recordedAudioUrl p with
  | Some _ => st
  | None =>
      let st := with_history [] st in
      let st := with_playback (playbackStartTime st) 0 0
                  (lastFrameTime st) st in
      match liveWaveformCanvas st with
      | Some canvas =>
          if has2d canvas then
            with_canvas
              (Some (clearRect 0 0 (offsetWidth canvas * dpr env)
                       (offsetHeight canvas * dpr env) canvas)) st
          else st
      | None => st
      end
  end.

(** *** Rendering

    Which effects run again when the parent renders the popup with new
    props: an effect runs when one of its dependencies changed.  The
    callbacks [drawLiveWaveformBars] and [drawPlaybackFrame] are memoised
    on the props they read; [onPauseRecording] is a fresh arrow function
    at every parent render, so the playback effect runs at each of them.
    The key-handler effect touches no state modelled here. *)

Definition eqbR (x y : R) : bool := if Req_dec_T x y then true else false.

Definition eqb_url (a b : option string) : bool :=
  match a, b with
  | Some x, Some y => String.eqb x y
  | None, None => true
  | _, _ => false
  end.

Definition liveDepsChanged (old new : Props) : bool :=
  negb (Bool.eqb (isRecording old) (isRecording new)
        && Bool.eqb (analyserNode old) (analyserNode new)
        && eqb_url (recordedAudioUrl old) (recordedAudioUrl new)
        && eqbR (recordedDuration old) (recordedDuration new)).

Definition resetDepsChanged (old new : Props) : bool :=
  negb (Z.eqb (resetTrigger old) (resetTrigger new)).

Definition urlDepsChanged (old new : Props) : bool :=
  negb (eqb_url (recordedAudioUrl old) (recordedAudioUrl new)).

(** First render: every effect runs, in the order it is declared. *)
Definition mount (env : Env) (p : Props) (st : State) : State :=
  urlEffect env p (resetEffect (playbackEffect env p (liveEffect env p st))).

(** A render caused by the parent, from props [old] to props [new]:
    the cleanups of the effects that run again, then their bodies. *)
Definition rerender (env : Env) (old new : Props) (st : State) : State :=
  let st := if liveDepsChanged old new then liveCleanup st else st in
  let st := playbackCleanup st in
  let st := if liveDepsChanged old new then liveEffect env new st else st in
  let st := playbackEffect env new st in
  let st := if resetDepsChanged old new then resetEffect st else st in
  if urlDepsChanged old new then urlEffect env new st else st.

(** The platform runs a requested frame: the callback leaves the queue and
    is called with the time stamp; the live loop also reads the analyser. *)
Definition runFrame (env : Env) (id : positive) (timestamp : R)
  (dataArray : list Byte.byte) (st : State) : State :=
  match find (fun f => Pos.eqb (fst f) id) (frames st) with
  | Some (_, cb) =>
      let st := cancelAnimationFrame id st in
      match cb with
      | LiveLoop p => drawLiveWaveformBars env p dataArray st
      | PlaybackLoop p => animationLoop env p timestamp st
      end
  | None => st
  end.

Definition initialState (canvas : Canvas) : State :=
  {| liveWaveformCanvas := Some canvas; animationFrameId := None;
     playbackAnimationFrameId := None; waveformHistory := [];
     playbackStartTime := None; internalPlaybackTime := 0;
     smoothedScrollOffset := 0; lastFrameTime := None;
     cachedWaveformCanvas := None; frames := []; nextFrameId := 1%positive;
     pauseSignals := 0%nat |}.

(** The props the coordinator passes down ([index.tsx], lines 803-823). *)
Definition popupProps (analyser : bool) (c : Recorder.Coordinator) : Props :=
  let rs := Recorder.recordingState c in
  {| isRecording := Recorder.isRecording rs;
     recordingTime := IZR (Recorder.recordingTime rs);
     recordedDuration := IZR (Recorder.recordedDuration rs);
     recordedAudioUrl := Recorder.recordedAudioUrl rs;
     maxDuration := IZR Recorder.MAX_DURATION;
     analyserNode := analyser;
     isPlayingRecordedAudio := Recorder.isPlayingRecordedAudio rs;
     currentPlaybackTime := Recorder.playbackTime rs;
     resetTrigger := Recorder.resetWaveformPlayback c |}.

(** *** Vocabulary and scenarios for the properties below *)

(** [st'] differs from [st] at most in the visible canvas, the playback
    clock and the scroll offset. *)
Definition same_loops (st st' : State) : Prop :=
  animationFrameId st' = animationFrameId st /\
  playbackAnimationFrameId st' = playbackAnimationFrameId st /\
  frames st' = frames st /\
  nextFrameId st' = nextFrameId st /\
  waveformHistory st' = waveformHistory st /\
  cachedWaveformCanvas st' = cachedWaveformCanvas st /\
  pauseSignals st' = pauseSignals st.

(** [ops] appended to the bitmap of [c]. *)
Definition paint (ops : list DrawOp) (c : Canvas) : Canvas :=
  {| width := width c; height := height c;
     offsetWidth := offsetWidth c; offsetHeight := offsetHeight c;
     has2d := has2d c; fillStyle := fillStyle c;
     globalCompositeOperation := globalCompositeOperation c;
     bitmap := bitmap c ++ ops |}.

(** The single command [drawRoundedRect] issues. *)
Definition roundedRectOp (style comp : string) (x y w h radius : R)
  : DrawOp :=
  if Rlt_dec h (2 * radius) then FillRect style comp x y w h
  else
    FillPath style comp
      [ MoveTo (x + radius) y;
        LineTo (x + w - radius) y;
        ArcTo (x + w) y (x + w) (y + radius) radius;
        LineTo (x + w) (y + h - radius);
        ArcTo (x + w) (y + h) (x + w - radius) (y + h) radius;
        LineTo (x + radius) (y + h);
        ArcTo x (y + h) x (y + h - radius) radius;
        LineTo x (y + radius);
        ArcTo x y (x + radius) y radius;
        ClosePath ].

(** The commands of the static loop. *)
Fixpoint staticBarOps (style comp : string) (d physicalHeight : R)
  (i : nat) (hs : list R) : list DrawOp :=
  match hs with
  | [] => []
  | h :: rest =>
      roundedRectOp style comp
        (INR i * totalBarAndGapWidth * d)
        ((physicalHeight - h * d) / 2)
        (fixedBarWidth * d) (h * d) (cornerRadiusLogical * d)
      :: staticBarOps style comp d physicalHeight (S i) rest
  end.

(** The arithmetic mean of the bins, as a sum over the array divided by
    its length. *)
Definition mean (dataArray : list Byte.byte) : R :=
  fold_right (fun b acc => bin_value b + acc) 0 dataArray
  / INR (List.length dataArray).

(** [x] limited to the interval from [lo] to [hi]. *)
Definition clamp (x lo hi : R) : R := Rmax lo (Rmin x hi).

(** The offscreen canvas the builder draws on yields a 2D context. *)
Definition cache_ready (env : Env) (st : State) : Prop :=
  match cachedWaveformCanvas st with
  | Some c => has2d c = true
  | None => context2d env = true
  end.

(** The raster of a history, as the commands on a fresh bitmap. *)
Definition rasterBitmap (d w h : R) (hs : list R) : list DrawOp :=
  ClearRect 0 0 w h
  :: staticBarOps "rgba(255, 255, 255, 1)" default_composite d h 0 hs.

(** The canvas a successful build leaves in the cache, given the canvas
    [c0] it started from. *)
Definition built (env : Env) (mainCanvas c0 : Canvas) (hs : list R)
  : Canvas :=
  let w :=
    dimension 300 (INR (List.length hs) * totalBarAndGapWidth * dpr env) in
  let h := dimension 150 (Math_floor (offsetHeight mainCanvas * dpr env)) in
  {| width := w; height := h;
     offsetWidth := offsetWidth c0; offsetHeight := offsetHeight c0;
     has2d := has2d c0; fillStyle := "rgba(255, 255, 255, 1)";
     globalCompositeOperation := default_composite;
     bitmap := rasterBitmap (dpr env) w h hs |}.

(** The offscreen canvas a build starts from: the one in the ref, or a
    new one. *)
Definition startCanvas (env : Env) (st : State) : Canvas :=
  match cachedWaveformCanvas st with
  | Some c => c
  | None => createCanvas (context2d env)
  end.

(** The clock basis and the frame delta a tick of [animationLoop] works
    with. *)
Definition basisTime (p : Props) (timestamp : R) (st : State) : R :=
  match playbackStartTime st with
  | Some s => s
  | None => timestamp - currentPlaybackTime p * 1000
  end.

Definition frameDelta (timestamp : R) (st : State) : R :=
  match playbackStartTime st, lastFrameTime st with
  | Some _, Some l => timestamp - l
  | _, _ => 0
  end.

(** The playback position a tick computes. *)
Definition positionAt (p : Props) (timestamp : R) (st : State) : R :=
  Rmin ((timestamp - basisTime p timestamp st) / 1000) (recordedDuration p).

(** The scroll offset after a run of ticks with frame deltas [dts], the
    target held constant. *)
Definition smooth (target : R) (dts : list R) (s0 : R) : R :=
  fold_left (fun s dt => lerp s target (easingFactor dt)) dts s0.

(** The simulated time the ticks span. *)
Definition total_time (dts : list R) : R := fold_right Rplus 0 dts.

(** A canvas that is laid out, 600 by 40 CSS pixels. *)
Definition laidOut : Canvas :=
  {| width := 300; height := 150;
     offsetWidth := 600; offsetHeight := 40;
     has2d := true; fillStyle := default_fillStyle;
     globalCompositeOperation := default_composite;
     bitmap := [] |}.

(** A page with a device pixel ratio of 1. *)
Definition plainEnv : Env :=
  {| devicePixelRatio := 1; context2d := true |}.

(** The popup while a recording is under review: a history of one bar,
    rasterised. *)
Definition reviewed : State :=
  drawStaticWaveformToCache plainEnv
    (with_history [5] (initialState laidOut)).

(** What the analyser delivers when each of its 512 bins is at 255. *)
Definition loudBins : list Byte.byte := repeat Byte.xff 512.


(** A history of ten bars on the laid-out canvas. *)
Definition tenBars : State :=
  with_history [2; 5.9; 23.9; 30.5; 2; 10; 12; 32; 4; 8]
    (initialState laidOut).

(** A playback that is four seconds into a ten-second recording of 400
    bars, 16 ms after the previous frame. *)
Definition midPlayback : State :=
  with_playback (Some 1000) 3.984 0 (Some 4984)
    (with_history (repeat 10 400) (initialState laidOut)).

(** The props of the popup while that recording is played. *)
Definition playingProps : Props :=
  {| isRecording := false; recordingTime := 10; recordedDuration := 10;
     recordedAudioUrl := Some "blob:rec"%string; maxDuration := 60;
     analyserNode := true; isPlayingRecordedAudio := true;
     currentPlaybackTime := 0; resetTrigger := 0 |}.

(** A playback one tick before its end: started at time stamp 1000,
    previous frame at 10984, recording of ten seconds. *)
Definition lastLap : State :=
  with_playback (Some 1000) 9.984 0 (Some 10984)
    (with_history (repeat 10 400) (initialState laidOut)).

End Popup.

(** ** The WAV encoder ([useAudioConverter.ts]) *)

Module Wav.

Local Open Scope Z_scope.

(** The decoded audio: [audioBuffer.sampleRate], [audioBuffer.length]
    (frames per channel) and the channels' sample arrays;
    [numberOfChannels] is the number of those arrays. *)
Record AudioBuffer := {
  sampleRate : Z;
  ab_length : nat;
  channelData : list (list Q)
}.

Definition numberOfChannels (ab : AudioBuffer) : nat :=
  List.length (channelData ab).

(** [audioBuffer.getChannelData(channel)] *)
Definition getChannelData (ab : AudioBuffer) (channel : nat) : list Q :=
  nth channel (channelData ab) [].

(** What [decodeAudioData] delivers: every channel has [length] samples. *)
Definition well_formed (ab : AudioBuffer) : Prop :=
  Forall (fun ch => List.length ch = ab_length ab) (channelData ab).

(** *** DataView over an ArrayBuffer: a list of bytes, each in [0, 256) *)

Definition DataView := list Z.

(** [n] bytes of [v], least significant first (two's complement for a
    negative [v]). *)
Fixpoint le_bytes (n : nat) (v : Z) : list Z :=
  match n with
  | O => []
  | S n => v mod 256 :: le_bytes n (v / 256)
  end.

(** A write of consecutive bytes; a write that does not fit throws a
    RangeError, which is [None]. *)
Definition set_bytes (offset : nat) (bs : list Z) (view : DataView)
  : option DataView :=
  if (offset + List.length bs <=? List.length view)%nat
  then Some (firstn offset view ++ bs
             ++ skipn (offset + List.length bs) view)%list
  else None.

Definition setUint8 (offset : nat) (v : Z) (view : DataView) :=
  set_bytes offset (le_bytes 1 v) view.

(** [view.setUint16(offset, v, true)] *)
Definition setUint16 (offset : nat) (v : Z) (view : DataView) :=
  set_bytes offset (le_bytes 2 v) view.

(** [view.setUint32(offset, v, true)] *)
Definition setUint32 (offset : nat) (v : Z) (view : DataView) :=
  set_bytes offset (le_bytes 4 v) view.

(** Conversion of a number to an integer: the fraction is dropped. *)
Definition truncate (q : Q) : Z := Z.quot (Qnum q) (Zpos (Qden q)).

(** ToInt16: truncate, wrap modulo 2^16 into [-2^15, 2^15). *)
Definition ToInt16 (q : Q) : Z :=
  let m := truncate q mod 65536 in
  if m >=? 32768 then m - 65536 else m.

(** [view.setInt16(offset, v, true)] *)
Definition setInt16 (offset : nat) (v : Q) (view : DataView) :=
  set_bytes offset (le_bytes 2 (ToInt16 v)) view.

Definition bind {A B : Type} (m : option A) (f : A -> option B) : option B :=
  match m with
  | Some a => f a
  | None => None
  end.

Notation "x <- m ;; k" := (bind m (fun x => k))
  (at level 61, m at next level, right associativity).

(** [for (let i = 0; i < n; i++) body(i)] over a state that may throw. *)
Fixpoint for_from {S : Type} (i n : nat) (body : nat -> S -> option S)
  (s : S) : option S :=
  match n with
  | O => Some s
  | Datatypes.S n => s' <- body i s ;; for_from (Datatypes.S i) n body s'
  end.

Definition for_ {S : Type} (n : nat) (body : nat -> S -> option S) (s : S)
  : option S := for_from 0 n body s.

Definition charCodeAt (s : string) (i : nat) : Z :=
  match String.get i s with
  | Some c => Z.of_nat (nat_of_ascii c)
  | None => 0
  end.

(** Lines 50-58. *)
Definition writeString (offset : nat) (s : string) (view : DataView)
  : option DataView :=
  for_ (String.length s)
    (fun i view => setUint8 (offset + i) (charCodeAt s i) view) view.

Definition Math_min (a b : Q) : Q := if Qle_bool a b then a else b.
Definition Math_max (a b : Q) : Q := if Qle_bool a b then b else a.
Definition lt0 (s : Q) : bool := negb (Qle_bool 0 s).

(** [s < 0 ? s * 0x8000 : s * 0x7fff] on the clamped sample. *)
Definition scale (x : Q) : Q :=
  let s := Math_max (-1) (Math_min 1 x) in
  if lt0 s then (s * 32768)%Q else (s * 32767)%Q.

(** Lines 102-111. *)
Definition floatTo16BitPCM (offset : nat) (input : list Q) (output : DataView)
  : option DataView :=
  for_ (List.length input)
    (fun i output => setInt16 (offset + 2 * i) (scale (nth i input 0%Q)) output)
    output.

(** Assignment to an element of a typed array; out of range it does
    nothing. *)
Fixpoint upd {A : Type} (i : nat) (x : A) (l : list A) : list A :=
  match l, i with
  | [], _ => []
  | _ :: t, O => x :: t
  | h :: t, Datatypes.S i => h :: upd i x t
  end.

(** Lines 126-135: the interleaved [Int16Array]. *)
Definition interleave (ab : AudioBuffer) : list Z :=
  let numOfChan := numberOfChannels ab in
  fold_left
    (fun pcm16 i =>
       fold_left
         (fun pcm16 channel =>
            upd (i * numOfChan + channel)
              (ToInt16 (scale (nth i (getChannelData ab channel) 0%Q)))
              pcm16)
         (seq 0 numOfChan) pcm16)
    (seq 0 (ab_length ab))
    (repeat 0 (ab_length ab * numOfChan)).

(** Lines 60-99: the header, field after field. *)
Definition writeHeader (len numOfChan : nat) (rate : Z) (view : DataView)
  : option DataView :=
  let offset := 0%nat in
  view <- writeString offset "RIFF" view ;;
  let offset := (offset + 4)%nat in
  view <- setUint32 offset (Z.of_nat len - 8) view ;;
  let offset := (offset + 4)%nat in
  view <- writeString offset "WAVE" view ;;
  let offset := (offset + 4)%nat in
  view <- writeString offset "fmt " view ;;
  let offset := (offset + 4)%nat in
  view <- setUint32 offset 16 view ;;
  let offset := (offset + 4)%nat in
  view <- setUint16 offset 1 view ;;
  let offset := (offset + 2)%nat in
  view <- setUint16 offset (Z.of_nat numOfChan) view ;;
  let offset := (offset + 2)%nat in
  view <- setUint32 offset rate view ;;
  let offset := (offset + 4)%nat in
  view <- setUint32 offset (rate * Z.of_nat numOfChan * 2) view ;;
  let offset := (offset + 4)%nat in
  view <- setUint16 offset (Z.of_nat numOfChan * 2) view ;;
  let offset := (offset + 2)%nat in
  view <- setUint16 offset 16 view ;;
  let offset := (offset + 2)%nat in
  view <- writeString offset "data" view ;;
  let offset := (offset + 4)%nat in
  setUint32 offset (Z.of_nat len - Z.of_nat offset - 4) view.

(** Lines 113-119: channel after channel. *)
Definition writeChannels (ab : AudioBuffer) (view : DataView)
  : option DataView :=
  for_ (numberOfChannels ab)
    (fun i view =>
       floatTo16BitPCM (44 + i * (ab_length ab * 2))
         (getChannelData ab i) view) view.

(** Lines 138-142: the interleaved samples over the same bytes. *)
Definition writeInterleaved (pcm16 : list Z) (view : DataView)
  : option DataView :=
  for_ (List.length pcm16)
    (fun i view => setInt16 (44 + 2 * i) (inject_Z (nth i pcm16 0)) view)
    view.

(** Lines 44-143: the bytes of the WAV file built from a decoded buffer. *)
Definition encodeWav (ab : AudioBuffer) : option DataView :=
  let numOfChan := numberOfChannels ab in
  let rate := sampleRate ab in
  let len := (ab_length ab * numOfChan * 2 + 44)%nat in
  let view : DataView := repeat 0 len in
  view <- writeHeader len numOfChan rate view ;;
  view <- writeChannels ab view ;;
  writeInterleaved (interleave ab) view.

Record Blob := {
  blob_type : string;
  blob_bytes : list Z
}.

Section Convert.

(** [audioContext.decodeAudioData]; [None] when it rejects. *)
Variable decodeAudioData : list Z -> option AudioBuffer.

(** Lines 22-164: the content of the returned file, [None] for the
    [null] returned after an error was caught. *)
Definition convertBlobToWav (blob : Blob) : option (list Z) :=
  if String.eqb (blob_type blob) "audio/wav" then Some (blob_bytes blob)
  else
    audioBuffer <- decodeAudioData (blob_bytes blob) ;;
    encodeWav audioBuffer.

End Convert.

(** *** The layout as the format describes it *)

Definition ascii_bytes (s : string) : list Z :=
  map (fun c => Z.of_nat (nat_of_ascii c)) (list_ascii_of_string s).

(** The 44-byte header for [f] frames of [c] channels at [rate] Hz. *)
Definition wav_header (rate : Z) (f c : nat) : list Z :=
  let total := Z.of_nat (44 + 2 * f * c) in
  (ascii_bytes "RIFF" ++ le_bytes 4 (total - 8)
   ++ ascii_bytes "WAVE" ++ ascii_bytes "fmt "
   ++ le_bytes 4 16                      (* format chunk length *)
   ++ le_bytes 2 1                       (* PCM *)
   ++ le_bytes 2 (Z.of_nat c)            (* channels *)
   ++ le_bytes 4 rate                    (* sample rate *)
   ++ le_bytes 4 (rate * 2 * Z.of_nat c) (* byte rate *)
   ++ le_bytes 2 (2 * Z.of_nat c)        (* block align *)
   ++ le_bytes 2 16                      (* bits per sample *)
   ++ ascii_bytes "data"
   ++ le_bytes 4 (Z.of_nat (2 * f * c)))%list.

(** A sample clamped to [-1, 1], scaled by 0x8000 below zero and by
    0x7fff otherwise, as a signed 16-bit integer. *)
Definition pcm_sample (x : Q) : Z :=
  let s := if Qle_bool 1 x then 1%Q
           else if Qle_bool (-1) x then x else (-1)%Q in
  ToInt16 (if Qle_bool 0 s then s * 32767 else s * 32768)%Q.

(** The data section: frame after frame, within a frame channel after
    channel, two bytes per sample, low byte first. *)
Definition wav_data (ab : AudioBuffer) : list Z :=
  flat_map
    (fun i =>
       flat_map (fun ch => le_bytes 2 (pcm_sample (nth i ch 0%Q)))
                (channelData ab))
    (seq 0 (ab_length ab)).

Definition wav_file (ab : AudioBuffer) : list Z :=
  (wav_header (sampleRate ab) (ab_length ab) (numberOfChannels ab)
   ++ wav_data ab)%list.

(** Reading a little-endian unsigned field of [n] bytes at [offset]. *)
Fixpoint le_value (bs : list Z) : Z :=
  match bs with
  | [] => 0
  | b :: rest => b + 256 * le_value rest
  end.

Definition getUint (n offset : nat) (view : list Z) : Z :=
  le_value (firstn n (skipn offset view)).

(** *** Scenarios for the properties below *)

(** The array of lines 126-135, frame after frame. *)
Definition pcm_frames (ab : AudioBuffer) : list Z :=
  flat_map
    (fun i => map (fun ch => ToInt16 (scale (nth i ch 0%Q))) (channelData ab))
    (seq 0 (ab_length ab)).

Definition stereo : AudioBuffer :=
  {| sampleRate := 48000; ab_length := 3;
     channelData := [[ (1#2); (-1#2); 2 ]%Q; [ (-3); (1#3); 0 ]%Q] |}.

Definition webm : Blob :=
  {| blob_type := "audio/webm"; blob_bytes := [26; 69; 223; 163] |}.

End Wav.

(** ** Cancelling an upload ([useVoiceUpload.ts], lines 323-344, with
       [handleResetToInitial] of [index.tsx], lines 258-301) *)

Module UploadControl.
Import Upload.

Local Open Scope string_scope.

(** A run of reducer actions, oldest first. *)
Definition dispatchAll (actions : list UploadAction) (s : UploadState)
  : UploadState :=
  fold_left uploadReducer actions s.

(** [ResourceManager.cleanupAll] as far as the hook's state goes: every
    progress interval was registered when it was installed (line 257) and
    is never unregistered, so each one is cleared.  Retry timers are not
    registered anywhere. *)
Definition cleanupAll (w : World) : World :=
  {| upload := upload w; toasts := toasts w;
     xhrRef := xhrRef w; sent := sent w; aborted := aborted w;
     timeouts := timeouts w; uploadIntervals := [];
     animations := animations w |}.

(** [handleResetToInitial]: [cleanupResources] looks at the component's
    own [xhrRef] and [animationRefs], which nothing ever assigns, and calls
    [ResourceManager.cleanupAll]; then the reducer is reset.  The selected
    file and voice it clears are the next render's; the handlers and timers
    already created keep the values they closed over. *)
Definition handleResetToInitial (w : World) : World :=
  dispatchUpload RESET (cleanupAll w).

(** [handleCancelUpload]: the hook's [animationRefs.current.upload] is
    never assigned, so its branch is not taken. *)
Definition handleCancelUpload (w : World) : World :=
  let w := abortCurrent w in
  let w := dispatchUpload RESET w in
  let w := showToast
    {| toast_message := EmptyString; toast_type := "success";
       toast_duration := 2000%Z |} w in
  handleResetToInitial w.

Definition handleStartOver (w : World) : World :=
  handleCancelUpload (dispatchUpload RESET w).

(** *** Vocabulary for the properties below *)

(** No request was retried more often than the limit allows, and every
    pending retry waits the fixed delay. *)
Definition bounded_retries (w : World) : Prop :=
  Forall (fun x => (xhr_retryCount x <= MAX_UPLOAD_RETRIES)%nat) (sent w) /\
  Forall (fun t => fst t = RETRY_DELAY /\ (snd t <= MAX_UPLOAD_RETRIES)%nat)
         (timeouts w).

(** The progress interval of request [id] fires [k] times. *)
Definition progressTicks (id k : nat) (w : World) : World :=
  Nat.iter k (uploadIntervalTick id) w.

(** Parameters whose file is empty and whose voice is in the catalogue. *)
Definition emptyFile (p : Params) : Prop :=
  exists f v o,
    selectedFile p = Some f /\ file_size f = 0%nat /\
    selectedVoice p = Some v /\ v <> EmptyString /\
    find (fun o => String.eqb (apiName o) v) (voices p) = Some o.

Definition emptyParams : Params :=
  {| selectedFile :=
       Some {| file_name := "clip.wav"; file_type := "audio/wav";
               file_size := 0 |};
     selectedVoice := Some "en-US-natalie";
     voices := [ {| apiName := "en-US-natalie" |} ];
     selectedLanguageId := "en-US" |}.

End UploadControl.

(** ** File validation ([utils], lines 353-427) *)

Module Validation.

Local Open Scope string_scope.

Definition MAX_DURATION : Q := 60%Q.
Definition MAX_FILE_SIZE : Z := (25 * 1024 * 1024)%Z.
Definition MIN_FILE_SIZE : Z := 1024%Z.
Definition ALLOWED_FILE_TYPES : list string :=
  [ "audio/mpeg"; "audio/wav"; "audio/x-m4a"; "video/x-msvideo" ].
Definition ALLOWED_FILE_EXTENSIONS : list string :=
  [ ".mp3"; ".wav"; ".m4a"; ".avi" ].

(** [array.includes(s)] on strings. *)
Definition includes (l : list string) (s : string) : bool :=
  existsb (String.eqb s) l.

(** [s.split(sep)] for a one-character separator: never empty. *)
Fixpoint split (sep : ascii) (s : string) : list string :=
  match s with
  | EmptyString => [EmptyString]
  | String c rest =>
      if Ascii.eqb c sep then EmptyString :: split sep rest
      else
        match split sep rest with
        | seg :: segs => String c seg :: segs
        | [] => [String c EmptyString]
        end
  end.

(** [array.pop()]: the last element, [undefined] on an empty array. *)
Definition pop (l : list string) : option string := last (map Some l) None.

(** [toLowerCase] on a name given as bytes: the letters A to Z change,
    which is all that decides membership in the list of extensions. *)
Definition lower (c : ascii) : ascii :=
  let n := nat_of_ascii c in
  if (65 <=? n)%nat && (n <=? 90)%nat then ascii_of_nat (n + 32) else c.

Fixpoint toLowerCase (s : string) : string :=
  match s with
  | EmptyString => EmptyString
  | String c rest => String (lower c) (toLowerCase rest)
  end.

(** ['.' + file.name.split('.').pop()?.toLowerCase() || ''] (line 400):
    the concatenation is never empty, so the alternative is not taken. *)
Definition fileExtension (name : string) : string :=
  match pop (split "."%char name) with
  | Some seg => "." ++ toLowerCase seg
  | None => "." ++ "undefined"
  end.

(** A JavaScript number that may fail to be finite. *)
Inductive JsNumber :=
| Finite (q : Q)
| NaN
| PlusInfinity
| MinusInfinity.

(** [a > b] for a finite [b]. *)
Definition gt (a : JsNumber) (b : Q) : bool :=
  match a with
  | Finite q => negb (Qle_bool q b)
  | PlusInfinity => true
  | NaN | MinusInfinity => false
  end.

(** What [getAudioDuration] settles with (lines 429-446). *)
Inductive DurationProbe :=
| Loaded (duration : JsNumber)     (* [loadedmetadata]: [audio.duration] *)
| LoadError.                       (* [error]: the promise rejects *)

Record Verdict := { isValid : bool; error : string }.

(** Lines 381-427; [probe] is how the duration probe ends. *)
Definition validateFile (file : option Upload.File) (probe : DurationProbe)
  : Verdict :=
  match file with
  | None => {| isValid := false; error := "No file selected" |}
  | Some file =>
    let size := Z.of_nat (Upload.file_size file) in
    if (size =? 0)%Z then
      {| isValid := false; error := "File is empty" |}
    else if (size <? MIN_FILE_SIZE)%Z then
      {| isValid := false; error := "File is too small (minimum 1KB)" |}
    else if (MAX_FILE_SIZE <? size)%Z then
      {| isValid := false; error := "File size exceeds 25MB limit" |}
    else if negb (includes ALLOWED_FILE_EXTENSIONS
                    (fileExtension (Upload.file_name file))) then
      {| isValid := false;
         error := "Invalid file type. Supported formats: MP3, WAV, AVI, M4A" |}
    else if negb (includes ALLOWED_FILE_TYPES (Upload.file_type file)) then
      {| isValid := false;
         error := "Invalid file type. Supported formats: MP3, WAV, AVI, M4A" |}
    else
      match probe with
      | Loaded duration =>
          if gt duration MAX_DURATION then
            {| isValid := false;
               error := "Audio duration exceeds 1 minute limit" |}
          else {| isValid := true; error := EmptyString |}
      | LoadError =>
          {| isValid := false; error := "Unable to validate audio duration" |}
      end
  end.

(** *** Vocabulary for the properties below *)

(** The string has no dot in it. *)
Fixpoint dotless (s : string) : bool :=
  match s with
  | EmptyString => true
  | String c rest => negb (Ascii.eqb c "."%char) && dotless rest
  end.

End Validation.

(** ** The component's handlers ([index.tsx]) and the processing
       animation of the upload hook ([useVoiceUpload.ts], lines 52-157) *)

Module Page.

Local Open Scope string_scope.

(** What a handler caught or was handed as [error]. *)
Inductive Thrown :=
| ErrorObject (message : string)    (* [instanceof Error] *)
| Text (s : string)                 (* [typeof error === 'string'] *)
| Other.                            (* an event, [undefined], ... *)

(** What an animation calls when it reaches its target. *)
Inductive Completion :=
| ApiDone (cb : Upload.OnApiDone)   (* the wrapper of [startProcessingAnimation] *)
| Finish (audioFileUrl : string).   (* the arrow function of [completeProcessing] *)

(** The interval of [animateProcessingProgress] with what its closure
    holds. *)
Record Animation := {
  currentAnimatedProgress : Q;
  incrementPerStep : Q;
  targetProgress : Q;
  onCompleteCallback : Completion
}.

Record State := {
  selectedFile : option Upload.File;
  upload : Upload.UploadState;
  isRecording : bool;               (* recordingState.isRecording *)
  notices : list (string * string); (* showToast: message, type *)
  processing : option Animation;    (* animationRefs.current.processing *)
  loading : list string             (* audio elements of
                                       [handleProcessedAudio], pending *)
}.

Definition dispatchUpload (a : Upload.UploadAction) (s : State) : State :=
  {| selectedFile := selectedFile s;
     upload := Upload.uploadReducer (upload s) a;
     isRecording := isRecording s; notices := notices s;
     processing := processing s; loading := loading s |}.

Definition showToast (message type : string) (s : State) : State :=
  {| selectedFile := selectedFile s; upload := upload s;
     isRecording := isRecording s;
     notices := notices s ++ [(message, type)];
     processing := processing s; loading := loading s |}.

Definition setSelectedFile (f : option Upload.File) (s : State) : State :=
  {| selectedFile := f; upload := upload s;
     isRecording := isRecording s; notices := notices s;
     processing := processing s; loading := loading s |}.

Definition set_isRecording (b : bool) (s : State) : State :=
  {| selectedFile := selectedFile s; upload := upload s;
     isRecording := b; notices := notices s;
     processing := processing s; loading := loading s |}.

Definition set_processing (a : option Animation) (s : State) : State :=
  {| selectedFile := selectedFile s; upload := upload s;
     isRecording := isRecording s; notices := notices s;
     processing := a; loading := loading s |}.

Definition set_loading (l : list string) (s : State) : State :=
  {| selectedFile := selectedFile s; upload := upload s;
     isRecording := isRecording s; notices := notices s;
     processing := processing s; loading := l |}.

(** [s || d] for an optional string. *)
Definition or_else (s : option string) (d : string) : string :=
  match s with
  | Some t => if String.eqb t EmptyString then d else t
  | None => d
  end.

(** [handleError] (lines 227-251). *)
Definition handleError (error : Thrown) (fallbackMessage : option string)
  (updateRecording : bool) (s : State) : State :=
  let message := or_else fallbackMessage "An unexpected error occurred." in
  let message :=
    match error with
    | ErrorObject m => or_else (Some m) message
    | Text t => t
    | Other => message
    end in
  let s :=
    if updateRecording then
      let s := set_isRecording false s in
      dispatchUpload
        (Upload.FAIL
           match error with
           | ErrorObject m => m
           | _ => or_else fallbackMessage "An error occurred"
           end) s
    else s in
  showToast message "error" s.

(** [handleFileSelect] (lines 698-709); [probe] is how the duration probe
    of [validateFile] ends. *)
Definition handleFileSelect (file : Upload.File)
  (probe : Validation.DurationProbe) (s : State) : State :=
  let validation := Validation.validateFile (Some file) probe in
  if negb (Validation.isValid validation) then
    handleError (Text (Validation.error validation))
      (Some "Error validating file") true s
  else
    let s := dispatchUpload Upload.RESET s in
    setSelectedFile (Some file) s.

(** [animateProcessingProgress] (lines 52-85): an interval that is still
    installed is replaced.  Both callers pass a positive duration. *)
Definition animateProcessingProgress (targetProgress totalDuration : Q)
  (onCompleteCallback : Completion) (s : State) : State :=
  let currentAnimatedProgress := 0%Q in
  let s := dispatchUpload (Upload.SET_PROCESSING_PROGRESS 0%Q) s in
  let numberOfSteps := Qceiling (totalDuration / 50) in
  let incrementPerStep :=
    ((targetProgress - currentAnimatedProgress) / inject_Z numberOfSteps)%Q in
  set_processing
    (Some {| currentAnimatedProgress := currentAnimatedProgress;
             incrementPerStep := incrementPerStep;
             targetProgress := targetProgress;
             onCompleteCallback := onCompleteCallback |}) s.

Definition startProcessingAnimation (onApiDoneCallback : Upload.OnApiDone)
  (s : State) : State :=
  let s := dispatchUpload (Upload.SET_PROCESSING_PROGRESS 0%Q) s in
  animateProcessingProgress 90 5000 (ApiDone onApiDoneCallback) s.

Definition finishProcessingAnimation (onComplete : Completion) (s : State)
  : State :=
  animateProcessingProgress 100 2000 onComplete s.

(** [completeProcessing] (lines 141-157) up to the call of
    [handleProcessedAudio], which is made when the animation ends. *)
Definition completeProcessing (audioFileUrl : string) (s : State) : State :=
  let s := dispatchUpload (Upload.SET_PROCESSING_PROGRESS 90%Q) s in
  finishProcessingAnimation (Finish audioFileUrl) s.

(** The call of an animation's completion callback. *)
Definition complete (cb : Completion) (s : State) : State :=
  match cb with
  | ApiDone Upload.NoCallback => s
  | ApiDone (Upload.CompleteProcessing audio_file) =>
      completeProcessing audio_file s
  | Finish audioFileUrl =>
      (* [handleProcessedAudio]: the element is created and loads *)
      set_loading (loading s ++ [audioFileUrl]) s
  end.

(** One firing of the interval of lines 67-83. *)
Definition processingTick (s : State) : State :=
  match processing s with
  | None => s
  | Some a =>
      let current := (currentAnimatedProgress a + incrementPerStep a)%Q in
      if Qle_bool (targetProgress a) current then
        let s := dispatchUpload
                   (Upload.SET_PROCESSING_PROGRESS (targetProgress a)) s in
        let s := set_processing None s in
        complete (onCompleteCallback a) s
      else
        let s := dispatchUpload (Upload.SET_PROCESSING_PROGRESS current) s in
        set_processing
          (Some {| currentAnimatedProgress := current;
                   incrementPerStep := incrementPerStep a;
                   targetProgress := targetProgress a;
                   onCompleteCallback := onCompleteCallback a |}) s
  end.

(** How the audio element of [handleProcessedAudio] settles. *)
Inductive AudioOutcome :=
| MetadataLoaded       (* [loadedmetadata] *)
| TenSecondsPassed     (* the timeout of line 124 resolves as well *)
| LoadFailed.          (* [error] *)

(** The oldest pending [handleProcessedAudio] settles and its [then]
    callback runs (lines 98-139 and 144-155).  On [error] the element's
    [onerror] property runs first, then the listener rejects. *)
Definition audioSettles (outcome : AudioOutcome) (s : State) : State :=
  match loading s with
  | [] => s
  | audioFileUrl :: rest =>
      let s := set_loading rest s in
      match outcome with
      | MetadataLoaded | TenSecondsPassed =>
          dispatchUpload (Upload.COMPLETE audioFileUrl) s
      | LoadFailed =>
          let s := handleError Other (Some "Audio playback error") false s in
          let s := handleError Other
                     (Some "Error processing final audio file for playback")
                     true s in
          let s := handleError
                     (Text "Failed to set up processed audio for playback")
                     None true s in
          dispatchUpload Upload.RESET s
      end
  end.

(** *** Scenarios for the properties below *)

Definition ticks (k : nat) (s : State) : State := Nat.iter k processingTick s.

(** The state the [readystatechange] handler leaves when the server
    answered with [cb]'s kind of body: [START_PROCESSING] dispatched and
    the animation started. *)
Definition answered (cb : Upload.OnApiDone) (s : State) : State :=
  startProcessingAnimation cb (dispatchUpload Upload.START_PROCESSING s).

Definition initialState : State :=
  {| selectedFile := None; upload := Upload.initialUploadState;
     isRecording := false; notices := []; processing := None;
     loading := [] |}.

Definition tinyFile : Upload.File :=
  {| Upload.file_name := "clip.wav"; Upload.file_type := "audio/wav";
     Upload.file_size := 10 |}.

End Page.

(** ** Playing the recording under review ([index.tsx], lines 419-490,
       with the audio helpers of [utils], lines 686-816) *)

Module Review.
Import Recorder.

Local Open Scope Z_scope.
Local Open Scope string_scope.

(** [setupAudioElement]: [new Audio(url)] with its handlers. *)
Definition setupAudioElement (url : string) : Audio :=
  {| audio_src := Some url; audio_paused := true; audio_currentTime := 0%R |}.

(** [handleError] as far as the coordinator's state goes (the toast is
    not part of it). *)
Definition handleError (error : Page.Thrown) (fallbackMessage : option string)
  (updateRecording : bool) (c : Coordinator) : Coordinator :=
  if updateRecording then
    let c := setRecordingState
      (fun prev =>
         {| isPopupOpen := isPopupOpen prev; isRecording := false;
            recordingTime := recordingTime prev;
            recordedAudioUrl := recordedAudioUrl prev;
            recordedDuration := recordedDuration prev;
            playbackTime := playbackTime prev;
            isPlayingRecordedAudio := isPlayingRecordedAudio prev |}) c in
    set_upload
      (Upload.uploadReducer (upload c)
         (Upload.FAIL
            match error with
            | Page.ErrorObject m => m
            | _ => Page.or_else fallbackMessage "An error occurred"
            end)) c
  else c.

(** [resetAudioElement] (lines 806-816) on a ref around the coordinator's
    element. *)
Definition resetAudioElement (c : Coordinator) : Coordinator :=
  match recorded c with
  | Some a =>
      let c := set_recorded
        (Some {| audio_src := audio_src a; audio_paused := audio_paused a;
                 audio_currentTime := 0%R |}) (revokedUrls c) c in
      let c := setRecordingState
        (fun prev =>
           {| isPopupOpen := isPopupOpen prev;
              isRecording := isRecording prev;
              recordingTime := recordingTime prev;
              recordedAudioUrl := recordedAudioUrl prev;
              recordedDuration := recordedDuration prev;
              playbackTime := 0%R;
              isPlayingRecordedAudio := isPlayingRecordedAudio prev |}) c in
      setResetWaveformPlayback (fun prev => prev + 1) c
  | None => c
  end.

Definition set_isPlayingRecordedAudio (b : bool) (c : Coordinator)
  : Coordinator :=
  setRecordingState
    (fun prev =>
       {| isPopupOpen := isPopupOpen prev; isRecording := isRecording prev;
          recordingTime := recordingTime prev;
          recordedAudioUrl := recordedAudioUrl prev;
          recordedDuration := recordedDuration prev;
          playbackTime := playbackTime prev;
          isPlayingRecordedAudio := b |}) c.

(** [playAudioElement] (lines 767-786); [rejection] is what [audio.play()]
    rejects with, [None] when it resolves. *)
Definition playAudioElement (rejection : option Page.Thrown)
  (c : Coordinator) : Coordinator :=
  match recorded c with
  | None => c
  | Some a =>
      match rejection with
      | None =>
          let c := set_recorded
            (Some {| audio_src := audio_src a; audio_paused := false;
                     audio_currentTime := audio_currentTime a |})
            (revokedUrls c) c in
          set_isPlayingRecordedAudio true c
      | Some error =>
          let c := handleError error (Some "Error playing audio element")
                     true c in
          set_isPlayingRecordedAudio false c
      end
  end.

(** ['playAudio'] (lines 421-482).  [atEnd] stands for
    [ended || currentTime >= duration - 0.05] of the element. *)
Definition playAudio (atEnd : bool) (rejection : option Page.Thrown)
  (c : Coordinator) : Coordinator :=
  let rs := recordingState c in
  match recordedAudioUrl rs with
  | None => c
  | Some url =>
    if String.eqb url EmptyString then c
    else
      match recorded c, isPlayingRecordedAudio rs with
      | Some _, true => pauseAudio c
      | _, _ =>
        let c :=
          match recorded c with
          | None =>
              set_recorded (Some (setupAudioElement url)) (revokedUrls c) c
          | Some _ => c
          end in
        let c :=
          match recorded c with
          | Some _ =>
              if atEnd
                 || negb (if Req_dec_T (playbackTime rs) 0 then true
                          else false)
              then resetAudioElement c else c
          | None => c
          end in
        playAudioElement rejection c
      end
  end.

(** What the user and the platform can do while the popup is open. *)
Inductive Action :=
| StartRecording
| TimerFires
| StopRecording
| RecorderStopped (url : string)       (* [onstop] *)
| PlayAudio (atEnd : bool) (rejection : option Page.Thrown)
| PauseAudio
| ReRecord.

Definition perform (a : Action) (c : Coordinator) : Coordinator :=
  match a with
  | StartRecording => startRecording c
  | TimerFires => intervalFires c
  | StopRecording => stopRecording c
  | RecorderStopped url => onstop url c
  | PlayAudio atEnd rejection => playAudio atEnd rejection c
  | PauseAudio => pauseAudio c
  | ReRecord => reRecord c
  end.

Definition performAll (actions : list Action) (c : Coordinator)
  : Coordinator :=
  fold_left (fun c a => perform a c) actions c.

(** *** Vocabulary and scenarios for the properties below *)

(** There is an audio element and it has no source. *)
Definition sourceless (c : Coordinator) : Prop :=
  exists a, recorded c = Some a /\ audio_src a = None.

(** The recording under review once its audio element has been set up. *)
Definition loaded : Coordinator :=
  set_recorded (Some (setupAudioElement "blob:rec")) [] underReview.

End Review.

(** ** The popup over its lifetime: renders and animation frames *)

Module PopupRun.
Import Popup.

Local Open Scope R_scope.

(** The states the popup can be in once it is mounted on a page [env]:
    it is mounted with some props, the parent renders it again with new
    props, and the platform runs a frame that was requested.  The
    analyser delivers at least one frequency bin. *)
Inductive Reachable (env : Env) : Props -> State -> Prop :=
| reach_mount (canvas : Canvas) (p : Props) :
    Reachable env p (mount env p (initialState canvas))
| reach_render (old new : Props) (st : State) :
    Reachable env old st ->
    Reachable env new (rerender env old new st)
| reach_frame (p : Props) (st : State) (id : positive) (timestamp : R)
    (dataArray : list Byte.byte) :
    Reachable env p st -> dataArray <> [] ->
    Reachable env p (runFrame env id timestamp dataArray st).

(** Every bar of the history is between 2 and 32 logical pixels high. *)
Definition bounded_history (st : State) : Prop :=
  Forall (fun h => 2 <= h <= 32) (waveformHistory st).

Definition is_live (f : positive * Callback) : bool :=
  match snd f with LiveLoop _ => true | PlaybackLoop _ => false end.

Definition is_playback (f : positive * Callback) : bool :=
  match snd f with LiveLoop _ => false | PlaybackLoop _ => true end.

(** A requested frame is the one its loop's ref holds. *)
Definition referenced (live playback : option positive)
  (f : positive * Callback) : Prop :=
  match snd f with
  | LiveLoop _ => live = Some (fst f)
  | PlaybackLoop _ => playback = Some (fst f)
  end.

(** The frame queue is in order: every frame is referenced, ids are not
    repeated and are below the next id to be given out. *)
Definition tidy_of (live playback : option positive)
  (fr : list (positive * Callback)) (next : positive) : Prop :=
  Forall (referenced live playback) fr /\
  NoDup (map fst fr) /\
  Forall (fun f => (fst f < next)%positive) fr.

Definition tidy (st : State) : Prop :=
  tidy_of (animationFrameId st) (playbackAnimationFrameId st)
    (frames st) (nextFrameId st).

(** [st'] has the frame queue, the two frame refs and the history of
    [st]. *)
Definition same_queue (st st' : State) : Prop :=
  animationFrameId st' = animationFrameId st /\
  playbackAnimationFrameId st' = playbackAnimationFrameId st /\
  frames st' = frames st /\
  nextFrameId st' = nextFrameId st /\
  waveformHistory st' = waveformHistory st.

(** A run of [animationLoop] at the time stamps [tss], oldest first. *)
Definition playFrames (env : Env) (p : Props) (tss : list R) (st : State)
  : State :=
  fold_left (fun st timestamp => animationLoop env p timestamp st) tss st.

(** The width of the overlay [drawPlaybackFrame] draws at playback time
    [currentTime] (lines 546-570). *)
Definition overlayWidth (env : Env) (p : Props) (st : State)
  (currentTime : R) : R :=
  Rmax 0
    (playbackProgressPhysical (recordedDuration p) currentTime
       (totalWaveformPhysicalWidth env st)
     - smoothedScrollOffset st).

(** The last command on the visible canvas. *)
Definition lastDrawn (st : State) : option DrawOp :=
  match liveWaveformCanvas st with
  | Some canvas => last (map Some (bitmap canvas)) None
  | None => None
  end.

(** A command that fills a path. *)
Definition isFillPath (op : DrawOp) : bool :=
  match op with FillPath _ _ _ => true | _ => false end.

End PopupRun.



(** ** Formatting a time ([RecordingPopupComponent], lines 216-220, and
       [utils], lines 448-455) *)

Module TimeFormat.

Local Open Scope string_scope.

(** [n.toString()] for an integer (below 1e21 in size, where JavaScript
    keeps the plain decimal notation). *)
Definition toString (z : Z) : string := NilZero.string_of_int (Z.to_int z).

(** [s.padStart(2, '0')] *)
Definition padStart2 (s : string) : string :=
  match String.length s with
  | 0%nat => "00"
  | 1%nat => "0" ++ s
  | _ => s
  end.

(** [seconds % 60]: the remainder has the sign of [seconds]. *)
Definition rem60 (seconds : Q) : Q :=
  (seconds - 60 * inject_Z (Wav.truncate (seconds / 60)))%Q.

(** Lines 216-220. *)
Definition formatRecordingTime (seconds : Q) : string :=
  let minutes := Qfloor (seconds / 60) in
  let remainingSeconds := Qfloor (rem60 seconds) in
  padStart2 (toString minutes) ++ ":" ++ padStart2 (toString remainingSeconds).

(** [formatTime] of [utils]: zero, NaN and the infinities give "00:00". *)
Definition formatTime (time : Validation.JsNumber) : string :=
  match time with
  | Validation.Finite q =>
      if Qeq_bool q 0 then "00:00"
      else
        let minutes := Qfloor (q / 60) in
        let seconds := Qfloor (rem60 q) in
        padStart2 (toString minutes) ++ ":" ++ padStart2 (toString seconds)
  | _ => "00:00"
  end.

(** *** Vocabulary for the properties below *)

(** The character of a decimal digit. *)
Definition digit (d : Z) : ascii := ascii_of_nat (48 + Z.to_nat d).

(** Two decimal digits. *)
Definition twoDigits (m : Z) : string :=
  String (digit (m / 10)) (String (digit (m mod 10)) EmptyString).

End TimeFormat.

(** ** Reading the WAV file back *)

Module WavRead.
Import Wav.

Local Open Scope Z_scope.

(** [view.getInt16(offset, true)]: two bytes, low byte first, as a signed
    number. *)
Definition getInt16 (offset : nat) (view : list Z) : Z :=
  let u := getUint 2 offset view in
  if u >=? 32768 then u - 65536 else u.

(** The 16-bit code the encoder stores for a sample (lines 108-109). *)
Definition sampleCode (x : Q) : Z := ToInt16 (scale x).

End WavRead.

(** ** The resource registry ([ResourceManager.ts]) *)

Module ResourceManager.

Local Open Scope string_scope.

(** The static fields of the class, and beside them the calls made on the
    platform so far, oldest first.  A [Set] is the list of its elements
    in insertion order; timer and frame ids are integers; an audio
    element is known by its identity. *)
Record Manager := {
  audioRefs : list nat;
  blobUrls : list string;
  animationFrames : list Z;
  intervals : list Z;
  timeouts : list Z;
  revoked : list string;           (* URL.revokeObjectURL *)
  cancelledFrames : list Z;        (* cancelAnimationFrame *)
  clearedIntervals : list Z;       (* clearInterval *)
  clearedTimeouts : list Z         (* clearTimeout *)
}.

Definition initial : Manager :=
  {| audioRefs := []; blobUrls := []; animationFrames := [];
     intervals := []; timeouts := []; revoked := [];
     cancelledFrames := []; clearedIntervals := []; clearedTimeouts := [] |}.

(** [set.add(x)] *)
Definition add {A : Type} (eqb : A -> A -> bool) (x : A) (s : list A)
  : list A :=
  if existsb (eqb x) s then s else (s ++ [x])%list.

(** [set.delete(x)] *)
Definition delete {A : Type} (eqb : A -> A -> bool) (x : A) (s : list A)
  : list A :=
  filter (fun y => negb (eqb x y)) s.

Definition set_audioRefs (v : list nat) (m : Manager) : Manager :=
  {| audioRefs := v; blobUrls := blobUrls m;
     animationFrames := animationFrames m; intervals := intervals m;
     timeouts := timeouts m; revoked := revoked m;
     cancelledFrames := cancelledFrames m;
     clearedIntervals := clearedIntervals m;
     clearedTimeouts := clearedTimeouts m |}.

Definition set_blobUrls (v : list string) (m : Manager) : Manager :=
  {| audioRefs := audioRefs m; blobUrls := v;
     animationFrames := animationFrames m; intervals := intervals m;
     timeouts := timeouts m; revoked := revoked m;
     cancelledFrames := cancelledFrames m;
     clearedIntervals := clearedIntervals m;
     clearedTimeouts := clearedTimeouts m |}.

Definition set_animationFrames (v : list Z) (m : Manager) : Manager :=
  {| audioRefs := audioRefs m; blobUrls := blobUrls m;
     animationFrames := v; intervals := intervals m;
     timeouts := timeouts m; revoked := revoked m;
     cancelledFrames := cancelledFrames m;
     clearedIntervals := clearedIntervals m;
     clearedTimeouts := clearedTimeouts m |}.

Definition set_intervals (v : list Z) (m : Manager) : Manager :=
  {| audioRefs := audioRefs m; blobUrls := blobUrls m;
     animationFrames := animationFrames m; intervals := v;
     timeouts := timeouts m; revoked := revoked m;
     cancelledFrames := cancelledFrames m;
     clearedIntervals := clearedIntervals m;
     clearedTimeouts := clearedTimeouts m |}.

Definition set_timeouts (v : list Z) (m : Manager) : Manager :=
  {| audioRefs := audioRefs m; blobUrls := blobUrls m;
     animationFrames := animationFrames m; intervals := intervals m;
     timeouts := v; revoked := revoked m;
     cancelledFrames := cancelledFrames m;
     clearedIntervals := clearedIntervals m;
     clearedTimeouts := clearedTimeouts m |}.

(** Lines 12-17; [None] is a missing element. *)
Definition registerAudio (audio : option nat) (m : Manager) : Manager :=
  match audio with
  | Some a => set_audioRefs (add Nat.eqb a (audioRefs m)) m
  | None => m
  end.

Definition unregisterAudio (audio : option nat) (m : Manager) : Manager :=
  match audio with
  | Some a => set_audioRefs (delete Nat.eqb a (audioRefs m)) m
  | None => m
  end.

(** Lines 20-25; the empty string is falsy. *)
Definition registerBlobUrl (url : string) (m : Manager) : Manager :=
  if String.eqb url EmptyString then m
  else set_blobUrls (add String.eqb url (blobUrls m)) m.

Definition unregisterBlobUrl (url : string) (m : Manager) : Manager :=
  if String.eqb url EmptyString then m
  else set_blobUrls (delete String.eqb url (blobUrls m)) m.

(** Lines 28-49. *)
Definition registerAnimationFrame (id : Z) (m : Manager) : Manager :=
  set_animationFrames (add Z.eqb id (animationFrames m)) m.

Definition unregisterAnimationFrame (id : Z) (m : Manager) : Manager :=
  set_animationFrames (delete Z.eqb id (animationFrames m)) m.

Definition registerInterval (id : Z) (m : Manager) : Manager :=
  set_intervals (add Z.eqb id (intervals m)) m.

Definition unregisterInterval (id : Z) (m : Manager) : Manager :=
  set_intervals (delete Z.eqb id (intervals m)) m.

Definition registerTimeout (id : Z) (m : Manager) : Manager :=
  set_timeouts (add Z.eqb id (timeouts m)) m.

Definition unregisterTimeout (id : Z) (m : Manager) : Manager :=
  set_timeouts (delete Z.eqb id (timeouts m)) m.

(** Lines 52-81: each loop runs over its set in insertion order, then the
    set is emptied. *)
Definition cleanupAll (m : Manager) : Manager :=
  {| audioRefs := [];
     blobUrls := [];
     animationFrames := [];
     intervals := [];
     timeouts := [];
     revoked :=
       fold_left
         (fun log url =>
            if Recorder.starts_with_blob url then (log ++ [url])%list
            else log)
         (blobUrls m) (revoked m);
     cancelledFrames :=
       fold_left (fun log id => (log ++ [id])%list) (animationFrames m)
         (cancelledFrames m);
     clearedIntervals :=
       fold_left (fun log id => (log ++ [id])%list) (intervals m)
         (clearedIntervals m);
     clearedTimeouts :=
       fold_left (fun log id => (log ++ [id])%list) (timeouts m)
         (clearedTimeouts m) |}.

(** The calls the rest of the program can make on the class. *)
Inductive Call :=
| RegisterAudio (audio : option nat)
| UnregisterAudio (audio : option nat)
| RegisterBlobUrl (url : string)
| UnregisterBlobUrl (url : string)
| RegisterAnimationFrame (id : Z)
| UnregisterAnimationFrame (id : Z)
| RegisterInterval (id : Z)
| UnregisterInterval (id : Z)
| RegisterTimeout (id : Z)
| UnregisterTimeout (id : Z)
| CleanupAll.

Definition perform (c : Call) (m : Manager) : Manager :=
  match c with
  | RegisterAudio a => registerAudio a m
  | UnregisterAudio a => unregisterAudio a m
  | RegisterBlobUrl u => registerBlobUrl u m
  | UnregisterBlobUrl u => unregisterBlobUrl u m
  | RegisterAnimationFrame id => registerAnimationFrame id m
  | UnregisterAnimationFrame id => unregisterAnimationFrame id m
  | RegisterInterval id => registerInterval id m
  | UnregisterInterval id => unregisterInterval id m
  | RegisterTimeout id => registerTimeout id m
  | UnregisterTimeout id => unregisterTimeout id m
  | CleanupAll => cleanupAll m
  end.

(** A history of calls, oldest first, from the freshly loaded class. *)
Definition run (calls : list Call) : Manager :=
  fold_left (fun m c => perform c m) calls initial.

(** *** Vocabulary for the properties below *)

(** The registries hold nothing twice, and no empty URL. *)
Definition duplicate_free (m : Manager) : Prop :=
  NoDup (audioRefs m) /\ NoDup (blobUrls m) /\ NoDup (animationFrames m) /\
  NoDup (intervals m) /\ NoDup (timeouts m) /\
  ~ In EmptyString (blobUrls m).

(** A call that takes interval [id] out of its registry. *)
Definition drops_interval (id : Z) (c : Call) : bool :=
  match c with
  | UnregisterInterval id' => Z.eqb id' id
  | CleanupAll => true
  | _ => false
  end.

End ResourceManager.

(** * Properties *)

(** ** Upload retries *)

Module UploadProofs.
Import Upload.
Local Open Scope string_scope.

Lemma handleRetry_below (n : nat) (m : string) (w : World) :
  (n < MAX_UPLOAD_RETRIES)%nat ->
  handleRetry n m w =
    setTimeout_startUpload (n + 1) RETRY_DELAY
      (abortCurrent
         (showToast
            {| toast_message := "Upload failed: " ++ m ++ ". Retrying...";
               toast_type := "error"; toast_duration := 5000 |} w)).
Proof.
  intros H. unfold handleRetry.
  apply Nat.ltb_lt in H. rewrite H. reflexivity.
Qed.

Lemma handleRetry_exhausted (n : nat) (m : string) (w : World) :
  (MAX_UPLOAD_RETRIES <= n)%nat ->
  handleRetry n m w =
    dispatchUpload
      (FAIL ("Upload failed after 3 attempts: " ++ m))
      (showToast
         {| toast_message := "Upload failed after 3 attempts: " ++ m;
            toast_type := "error"; toast_duration := 5000 |} w).
Proof.
  intros H. unfold handleRetry.
  apply Nat.ltb_ge in H. rewrite H. reflexivity.
Qed.

Lemma step_with_ext (s1 s2 : nat -> World -> World) :
  (forall n w, s1 n w = s2 n w) ->
  forall e w, step_with s1 e w = step_with s2 e w.
Proof.
  intros H e w. destruct e; try reflexivity.
  unfold step_with. destruct (timeouts w) as [|[d n] rest];
    [reflexivity|apply H].
Qed.

Lemma run_ext (p : Params) (s2 : nat -> World -> World) :
  (forall n w, startUpload p n w = s2 n w) ->
  forall es w, run p es w = fold_left (fun w e => step_with s2 e w) es w.
Proof.
  intros H es. unfold run.
  induction es as [|e es IH]; intros w; [reflexivity|].
  cbn [fold_left]. unfold step at 2.
  rewrite (step_with_ext _ _ H). apply IH.
Qed.

(** C1 (the code departs from the claim): with ready parameters, let
    every attempt end in a network error or a timeout.  After the third
    failure the state is still [uploading] and one retry timer with the
    fixed delay of 2000 ms is pending; when it fires a fourth request is
    sent; only the fourth failure makes the status [failed], with the
    message that speaks of 3 attempts. *)
Theorem fourth_attempt_after_three_failures
  (p : Params) (e1 e2 e3 e4 : Event) (m1 m2 m3 m4 : string) :
  ready p ->
  failure_message e1 = Some m1 -> failure_message e2 = Some m2 ->
  failure_message e3 = Some m3 -> failure_message e4 = Some m4 ->
  let w3 := run p (threeFailures e1 e2 e3) (startUpload p 0 initialWorld) in
  let w4 := run p [TimerFires] w3 in
  let w5 := run p [e4] w4 in
  (attempts w3 = 3%nat /\ status (upload w3) = uploading /\
   timeouts w3 = [(RETRY_DELAY, 3%nat)]) /\
  (attempts w4 = 4%nat /\ status (upload w4) = uploading) /\
  (attempts w5 = 4%nat /\ status (upload w5) = failed /\
   timeouts w5 = [] /\
   error (upload w5) = Some ("Upload failed after 3 attempts: " ++ m4)).
Proof.
  intros (f & v & o & Hf & Hsz & Hv & Hne & Hfind) H1 H2 H3 H4.
  apply String.eqb_neq in Hne.
  pose proof (find_some _ _ Hfind) as [_ Ho]. apply String.eqb_eq in Ho.
  apply Nat.eqb_neq in Hsz.
  set (su := fun n w =>
     let w := abortCurrent (dispatchUpload START_UPLOAD w) in
     let x := {| xhr_id := List.length (sent w);
                 xhr_retryCount := n; xhr_timeout := UPLOAD_TIMEOUT;
                 xhr_url := UPLOAD_API_URL;
                 xhr_body :=
                   {| fd_file := {| file_name := file_name f;
                                    file_type := type_or_wav (file_type f);
                                    file_size := file_size f |};
                      fd_voice_id := v; fd_retain_prosody := "true";
                      fd_multi_native_locale := selectedLanguageId p;
                      fd_style := "natural" |} |} in
     sendXhr x (setUploadInterval (xhr_id x)
       {| upload := upload w; toasts := toasts w; xhrRef := Some x;
          sent := sent w; aborted := aborted w; timeouts := timeouts w;
          uploadIntervals := uploadIntervals w;
          animations := animations w |})).
  assert (Hs : forall n w, startUpload p n w = su n w).
  { intros n w. unfold su, startUpload.
    rewrite Hf, Hv, Hne, Hfind, Ho, Hne. cbn [file_size]. rewrite Hsz.
    reflexivity. }
  assert (Hrun : forall es w,
            run p es w = fold_left (fun w e => step_with su e w) es w).
  { intros es w. apply run_ext. exact Hs. }
  cbv zeta. rewrite !Hrun, Hs.
  destruct e1; try discriminate H1; injection H1 as <-;
  destruct e2; try discriminate H2; injection H2 as <-;
  destruct e3; try discriminate H3; injection H3 as <-;
  destruct e4; try discriminate H4; injection H4 as <-;
  vm_compute; repeat split.
Qed.

Lemma fourth_attempt_after_three_failures_witness :
  let w3 := run sampleParams (threeFailures NetworkError Timeout NetworkError)
              (startUpload sampleParams 0 initialWorld) in
  let w4 := run sampleParams [TimerFires] w3 in
  let w5 := run sampleParams [NetworkError] w4 in
  (attempts w3 = 3%nat /\ status (upload w3) = uploading /\
   timeouts w3 = [(RETRY_DELAY, 3%nat)]) /\
  (attempts w4 = 4%nat /\ status (upload w4) = uploading) /\
  (attempts w5 = 4%nat /\ status (upload w5) = failed /\
   timeouts w5 = [] /\
   error (upload w5)
   = Some ("Upload failed after 3 attempts: " ++ "Network error occurred")).
Proof.
  apply (@fourth_attempt_after_three_failures sampleParams
           NetworkError Timeout NetworkError NetworkError
           "Network error occurred" "Request timed out"
           "Network error occurred" "Network error occurred").
  - exists {| file_name := "clip.wav"; file_type := "audio/wav";
              file_size := 4096 |},
           "en-US-natalie", {| apiName := "en-US-natalie" |}.
    repeat split; try reflexivity; discriminate.
  - reflexivity.
  - reflexivity.
  - reflexivity.
  - reflexivity.
Defined.

End UploadProofs.

(** ** The recording timer *)

Module RecorderProofs.
Import Recorder.
Local Open Scope Z_scope.

Lemma session_S (k : nat) : session (S k) = intervalFires (session k).
Proof. reflexivity. Qed.

#[global] Arguments session : simpl never.

Lemma session_counts (k : nat) :
  (k < 60)%nat ->
  recordingState (session k) =
    {| isPopupOpen := true; isRecording := true;
       recordingTime := Z.of_nat k; recordedAudioUrl := None;
       recordedDuration := 0; playbackTime := 0%R;
       isPlayingRecordedAudio := false |}
  /\ recordingTimerRef (session k) = Some 1%nat
  /\ intervals (session k) = [1%nat]
  /\ mediaRecorder (session k) = Some recording
  /\ stopsPending (session k) = 0%nat.
Proof.
  induction k as [|k IH]; intros Hk.
  - repeat split.
  - destruct IH as (Hrs & Href & Hiv & Hmr & Hsp); [lia|].
    rewrite session_S.
    destruct (session k) as [rs up ref iv nx mr sp au ms ch wd rec rw rv].
    cbn in Hrs, Href, Hiv, Hmr, Hsp. subst.
    unfold intervalFires, recordingTimerTick.
    cbn [recordingTimerRef intervals existsb Nat.eqb orb recordingState
         recordingTime].
    unfold MAX_DURATION.
    destruct (Z.geb_spec (Z.of_nat k + 1) 60) as [Hge|Hlt]; [lia|].
    cbn. repeat split. do 2 f_equal. lia.
Qed.

(** A firing at 59 seconds: the recorder is stopped and the interval
    cleared, the state is returned as it was. *)
Lemma intervalFires_at_limit (c : Coordinator) (rs : RecordingState)
  (id : nat) :
  recordingState c = rs -> recordingTime rs = 59 ->
  recordingTimerRef c = Some id -> intervals c = [id] ->
  mediaRecorder c = Some recording -> stopsPending c = 0%nat ->
  recordingState (intervalFires c) = rs /\
  intervals (intervalFires c) = [] /\
  mediaRecorder (intervalFires c) = Some inactive /\
  stopsPending (intervalFires c) = 1%nat.
Proof.
  intros Hrs Ht Href Hiv Hmr Hsp.
  destruct c as [rs0 up ref iv nx mr sp au ms ch wd rec rw rv].
  cbn in Hrs, Href, Hiv, Hmr, Hsp. subst.
  unfold intervalFires, recordingTimerTick.
  cbn [recordingTimerRef intervals existsb orb recordingState].
  rewrite Nat.eqb_refl, Ht. cbn [orb].
  change (59 + 1 >=? MAX_DURATION) with true. cbv iota.
  cbn. rewrite Nat.eqb_refl. repeat split.
Qed.

Lemma stopRecording_duration (c : Coordinator) :
  recordedDuration (recordingState (stopRecording c))
  = recordingTime (recordingState c).
Proof.
  destruct c as [rs up ref iv nx mr sp au ms ch wd rec rw rv].
  destruct mr as [[|]|], ref; reflexivity.
Qed.

Lemma session_60 :
  recordingState (session 60) =
    {| isPopupOpen := true; isRecording := true;
       recordingTime := 59; recordedAudioUrl := None;
       recordedDuration := 0; playbackTime := 0%R;
       isPlayingRecordedAudio := false |}
  /\ intervals (session 60) = []
  /\ mediaRecorder (session 60) = Some inactive
  /\ stopsPending (session 60) = 1%nat.
Proof.
  destruct (session_counts (k := 59)) as (Hrs & Href & Hiv & Hmr & Hsp);
    [lia|].
  rewrite (session_S 59).
  apply intervalFires_at_limit with (id := 1%nat); auto.
Qed.

End RecorderProofs.

(** ** The popup: what each operation leaves alone *)

Module PopupFrames.
Import Popup.
Local Open Scope R_scope.

Lemma same_loops_refl st : same_loops st st.
Proof. repeat split. Qed.

Lemma same_loops_trans st1 st2 st3 :
  same_loops st1 st2 -> same_loops st2 st3 -> same_loops st1 st3.
Proof.
  unfold same_loops. intros (?&?&?&?&?&?&?) (?&?&?&?&?&?&?).
  repeat split; congruence.
Qed.

Lemma same_loops_with_canvas c st : same_loops st (with_canvas c st).
Proof. repeat split. Qed.

Lemma same_loops_with_playback a b c d st :
  same_loops st (with_playback a b c d st).
Proof. repeat split. Qed.

Lemma drawPlaybackFrame_same_loops env p t st :
  same_loops st (drawPlaybackFrame env p t st).
Proof.
  unfold drawPlaybackFrame.
  destruct (liveWaveformCanvas st), (cachedWaveformCanvas st);
    try apply same_loops_refl.
  destruct (waveformHistory st); try apply same_loops_refl.
  destruct (negb _); [apply same_loops_refl|apply same_loops_with_canvas].
Qed.

Lemma drawPlaybackFrame_playback env p t st :
  playbackStartTime (drawPlaybackFrame env p t st) = playbackStartTime st /\
  internalPlaybackTime (drawPlaybackFrame env p t st)
    = internalPlaybackTime st /\
  smoothedScrollOffset (drawPlaybackFrame env p t st)
    = smoothedScrollOffset st /\
  lastFrameTime (drawPlaybackFrame env p t st) = lastFrameTime st.
Proof.
  unfold drawPlaybackFrame.
  destruct (liveWaveformCanvas st), (cachedWaveformCanvas st);
    try (repeat split; fail).
  destruct (waveformHistory st); try (repeat split; fail).
  destruct (negb _); repeat split.
Qed.

Lemma resetEffect_same_loops st : same_loops st (resetEffect st).
Proof. apply same_loops_with_playback. Qed.

(** The cleanups and the cancelling branches never touch the history or
    the cached canvas. *)
Lemma cancelLive_keeps st :
  waveformHistory (cancelLive st) = waveformHistory st /\
  cachedWaveformCanvas (cancelLive st) = cachedWaveformCanvas st /\
  liveWaveformCanvas (cancelLive st) = liveWaveformCanvas st /\
  playbackAnimationFrameId (cancelLive st) = playbackAnimationFrameId st /\
  nextFrameId (cancelLive st) = nextFrameId st.
Proof. unfold cancelLive. destruct (animationFrameId st); repeat split. Qed.

Lemma cancelPlayback_keeps st :
  waveformHistory (cancelPlayback st) = waveformHistory st /\
  cachedWaveformCanvas (cancelPlayback st) = cachedWaveformCanvas st /\
  liveWaveformCanvas (cancelPlayback st) = liveWaveformCanvas st /\
  animationFrameId (cancelPlayback st) = animationFrameId st /\
  nextFrameId (cancelPlayback st) = nextFrameId st /\
  playbackAnimationFrameId (cancelPlayback st) = None.
Proof.
  unfold cancelPlayback.
  destruct (playbackAnimationFrameId st) eqn:E; repeat split; auto.
Qed.

Lemma cancelPlayback_idle st :
  playbackAnimationFrameId st = None -> cancelPlayback st = st.
Proof. unfold cancelPlayback. intros ->. reflexivity. Qed.

Lemma playbackCleanup_keeps st :
  waveformHistory (playbackCleanup st) = waveformHistory st /\
  cachedWaveformCanvas (playbackCleanup st) = cachedWaveformCanvas st /\
  liveWaveformCanvas (playbackCleanup st) = liveWaveformCanvas st /\
  animationFrameId (playbackCleanup st) = animationFrameId st /\
  nextFrameId (playbackCleanup st) = nextFrameId st /\
  playbackAnimationFrameId (playbackCleanup st) = None.
Proof.
  unfold playbackCleanup. cbn. apply cancelPlayback_keeps.
Qed.

(** Not playing: the playback effect schedules nothing. *)
Lemma playbackEffect_paused env p st :
  isPlayingRecordedAudio p = false ->
  playbackAnimationFrameId st = None ->
  same_loops st (playbackEffect env p st).
Proof.
  intros Hp Hid. unfold playbackEffect. rewrite Hp.
  rewrite (cancelPlayback_idle st Hid).
  eapply same_loops_trans; [|apply drawPlaybackFrame_same_loops].
  apply same_loops_with_playback.
Qed.

Lemma urlEffect_keeps env p st :
  animationFrameId (urlEffect env p st) = animationFrameId st /\
  playbackAnimationFrameId (urlEffect env p st)
    = playbackAnimationFrameId st /\
  frames (urlEffect env p st) = frames st /\
  cachedWaveformCanvas (urlEffect env p st) = cachedWaveformCanvas st.
Proof.
  unfold urlEffect. destruct (recordedAudioUrl p); [repeat split|].
  cbn. destruct (liveWaveformCanvas st) as [c|]; [|repeat split].
  destruct (has2d c); repeat split.
Qed.

Lemma urlEffect_cleared env p st :
  recordedAudioUrl p = None -> waveformHistory (urlEffect env p st) = [].
Proof.
  intros H. unfold urlEffect. rewrite H. cbn.
  destruct (liveWaveformCanvas st) as [c|]; [|reflexivity].
  destruct (has2d c); reflexivity.
Qed.

(** While the props say "recording", the live effect clears the history
    and requests a frame for the live loop. *)
Lemma liveEffect_schedules env p st canvas :
  liveWaveformCanvas st = Some canvas ->
  0 < offsetWidth canvas -> 0 < offsetHeight canvas ->
  isRecording p = true -> analyserNode p = true ->
  animationFrameId (liveEffect env p st) = Some (nextFrameId st) /\
  frames (liveEffect env p st) = (frames st ++ [(nextFrameId st, LiveLoop p)])%list /\
  waveformHistory (liveEffect env p st) = [] /\
  playbackAnimationFrameId (liveEffect env p st)
    = playbackAnimationFrameId st /\
  cachedWaveformCanvas (liveEffect env p st) = cachedWaveformCanvas st.
Proof.
  intros Hc Hw Hh Hr Ha. unfold liveEffect. rewrite Hc, Hr, Ha. cbn [andb].
  destruct (Rlt_dec 0 (offsetWidth canvas)); [|contradiction].
  destruct (Rlt_dec 0 (offsetHeight canvas)); [|contradiction].
  cbn. repeat split.
Qed.

(** The live loop's callback requests its next frame whenever the props
    it closed over say "recording". *)
Lemma drawLiveWaveformBars_reschedules env p data st :
  isRecording p = true ->
  animationFrameId (drawLiveWaveformBars env p data st)
    = Some (nextFrameId st) /\
  frames (drawLiveWaveformBars env p data st)
    = (frames st ++ [(nextFrameId st, LiveLoop p)])%list.
Proof.
  intros Hr. unfold drawLiveWaveformBars. rewrite Hr.
  destruct (liveWaveformCanvas st) as [c|]; [|split; reflexivity].
  destruct (negb (analyserNode p)); [split; reflexivity|].
  destruct (negb (has2d c)); split; reflexivity.
Qed.

End PopupFrames.

(** ** The popup across a render *)

Module PopupRender.
Import Popup PopupFrames.
Local Open Scope R_scope.

Lemma liveEffect_cache env p st :
  recordedAudioUrl p = None ->
  cachedWaveformCanvas (liveEffect env p st) = cachedWaveformCanvas st.
Proof.
  intros Hu. unfold liveEffect.
  destruct (liveWaveformCanvas st) as [c|]; [|reflexivity].
  destruct (isRecording p && analyserNode p).
  - destruct (_ && _); [reflexivity|apply cancelLive_keeps].
  - rewrite Hu. apply cancelLive_keeps.
Qed.

Lemma playbackEffect_cache env p st :
  cachedWaveformCanvas (playbackEffect env p st) = cachedWaveformCanvas st.
Proof.
  unfold playbackEffect. destruct (isPlayingRecordedAudio p).
  - destruct (playbackAnimationFrameId st); reflexivity.
  - destruct (drawPlaybackFrame_same_loops env p (currentPlaybackTime p)
      (with_playback None (currentPlaybackTime p)
         (smoothedScrollOffset (cancelPlayback st)) None (cancelPlayback st)))
      as (_&_&_&_&_&H&_).
    rewrite H. cbn. apply cancelPlayback_keeps.
Qed.

(** A render in which [recordedAudioUrl] goes from a URL to [null]
    empties the history and leaves the cached canvas as it was. *)
Lemma rerender_url_cleared env old new st u :
  recordedAudioUrl old = Some u ->
  recordedAudioUrl new = None ->
  waveformHistory (rerender env old new st) = [] /\
  cachedWaveformCanvas (rerender env old new st) = cachedWaveformCanvas st.
Proof.
  intros Ho Hn. unfold rerender.
  assert (Hu : urlDepsChanged old new = true).
  { unfold urlDepsChanged. rewrite Ho, Hn. reflexivity. }
  assert (Hl : liveDepsChanged old new = true).
  { unfold liveDepsChanged. rewrite Ho, Hn. cbn.
    rewrite !andb_false_r. reflexivity. }
  rewrite Hu, Hl. split; [apply urlEffect_cleared; assumption|].
  destruct (urlEffect_keeps env new
    (if resetDepsChanged old new
     then resetEffect (playbackEffect env new
            (liveEffect env new (playbackCleanup (liveCleanup st))))
     else playbackEffect env new
            (liveEffect env new (playbackCleanup (liveCleanup st)))))
    as (_&_&_&H).
  rewrite H. clear H.
  assert (H : cachedWaveformCanvas
                (playbackEffect env new
                   (liveEffect env new (playbackCleanup (liveCleanup st))))
              = cachedWaveformCanvas st).
  { rewrite playbackEffect_cache, liveEffect_cache by assumption.
    destruct (playbackCleanup_keeps (liveCleanup st)) as (_&H&_).
    rewrite H. apply cancelLive_keeps. }
  destruct (resetDepsChanged old new); [|exact H].
  destruct (resetEffect_same_loops (playbackEffect env new
     (liveEffect env new (playbackCleanup (liveCleanup st)))))
    as (_&_&_&_&_&H'&_).
  rewrite H'. exact H.
Qed.

(** A render whose new props still say "recording" (and not playing)
    leaves a frame of the live loop requested. *)
Lemma rerender_keeps_live_loop env old new st canvas :
  liveWaveformCanvas st = Some canvas ->
  0 < offsetWidth canvas -> 0 < offsetHeight canvas ->
  liveDepsChanged old new = true ->
  isRecording new = true -> analyserNode new = true ->
  isPlayingRecordedAudio new = false ->
  exists id,
    animationFrameId (rerender env old new st) = Some id /\
    In (id, LiveLoop new) (frames (rerender env old new st)).
Proof.
  intros Hc Hw Hh Hl Hr Ha Hp. unfold rerender. rewrite Hl.
  set (st1 := playbackCleanup (liveCleanup st)).
  assert (Hc1 : liveWaveformCanvas st1 = Some canvas).
  { unfold st1. destruct (playbackCleanup_keeps (liveCleanup st))
      as (_&_&H&_). rewrite H.
    destruct (cancelLive_keeps st) as (_&_&H'&_).
    unfold liveCleanup. rewrite H'. exact Hc. }
  assert (Hp1 : playbackAnimationFrameId st1 = None)
    by apply playbackCleanup_keeps.
  destruct (liveEffect_schedules env new st1 Hc1 Hw Hh Hr Ha)
    as (Hid & Hfr & _ & Hpid & _).
  set (st2 := liveEffect env new st1) in *.
  assert (Hp2 : playbackAnimationFrameId st2 = None) by congruence.
  destruct (playbackEffect_paused env new st2 Hp Hp2)
    as (Hid3 & _ & Hfr3 & _).
  set (st3 := playbackEffect env new st2) in *.
  set (st4 := if resetDepsChanged old new then resetEffect st3 else st3).
  assert (H4 : animationFrameId st4 = animationFrameId st3 /\
               frames st4 = frames st3).
  { unfold st4. destruct (resetDepsChanged old new); [|split; reflexivity].
    destruct (resetEffect_same_loops st3) as (?&_&?&_). split; assumption. }
  destruct H4 as (Hid4 & Hfr4).
  exists (nextFrameId st1).
  destruct (urlDepsChanged old new).
  - destruct (urlEffect_keeps env new st4) as (Hid5 & _ & Hfr5 & _).
    rewrite Hid5, Hfr5, Hid4, Hfr4, Hid3, Hfr3, Hid, Hfr.
    split; [reflexivity|]. apply in_or_app. right. left. reflexivity.
  - rewrite Hid4, Hfr4, Hid3, Hfr3, Hid, Hfr.
    split; [reflexivity|]. apply in_or_app. right. left. reflexivity.
Qed.

End PopupRender.

(** ** Recording sessions seen from both sides *)

Module Session.
Import Recorder RecorderProofs.
Local Open Scope R_scope.

(** C2 (the code departs from the claim): a session whose timer fires 60
    times.  The sixtieth firing stops the media recorder and clears the
    interval but returns the previous state: once the recorder's [onstop]
    has delivered the URL, [isRecording] is still true, [recordingTime] is
    59 and [recordedDuration] is still 0.  The popup, rendered with these
    props, requests a frame of the live loop again, and the callback of
    that loop requests its successor whenever it runs.  A later manual
    stop records a duration of 59 seconds. *)
Theorem auto_stop_keeps_recording
  (env : Popup.Env) (url : string) (st s : Popup.State)
  (canvas : Popup.Canvas) (data : list Byte.byte) :
  Popup.liveWaveformCanvas st = Some canvas ->
  0 < Popup.offsetWidth canvas -> 0 < Popup.offsetHeight canvas ->
  let c := session 60 in
  let c' := onstop url c in
  let before := Popup.popupProps true c in
  let after := Popup.popupProps true c' in
  recordingState c' =
    {| isPopupOpen := true; isRecording := true;
       recordingTime := 59; recordedAudioUrl := Some url;
       recordedDuration := 0; playbackTime := 0;
       isPlayingRecordedAudio := false |} /\
  intervals c' = [] /\ mediaRecorder c' = Some inactive /\
  (exists id,
     Popup.animationFrameId (Popup.rerender env before after st) = Some id /\
     In (id, Popup.LiveLoop after)
        (Popup.frames (Popup.rerender env before after st))) /\
  In (Popup.nextFrameId s, Popup.LiveLoop after)
     (Popup.frames (Popup.drawLiveWaveformBars env after data s)) /\
  recordedDuration (recordingState (stopRecording c')) = 59%Z.
Proof.
  intros Hc Hw Hh.
  destruct session_60 as (Hrs & Hiv & Hmr & Hsp).
  generalize dependent (session 60). intros c Hrs Hiv Hmr Hsp.
  assert (Hon : onstop url c =
    {| recordingState :=
         {| isPopupOpen := true; isRecording := true;
            recordingTime := 59; recordedAudioUrl := Some url;
            recordedDuration := 0; playbackTime := 0;
            isPlayingRecordedAudio := false |};
       upload := upload c;
       recordingTimerRef := recordingTimerRef c; intervals := [];
       nextIntervalId := nextIntervalId c;
       mediaRecorder := Some inactive; stopsPending := 0%nat;
       audioStream := audioStream c;
       mediaStreamSourceConnected := mediaStreamSourceConnected c;
       recordedChunks := recordedChunks c; waveformData := waveformData c;
       recorded := recorded c;
       resetWaveformPlayback := resetWaveformPlayback c;
       revokedUrls := revokedUrls c |}).
  { destruct c. cbn in Hrs, Hiv, Hmr, Hsp. subst. reflexivity. }
  intros c0 c' before after. subst c0.
  assert (Hrs' : recordingState c' =
    {| isPopupOpen := true; isRecording := true;
       recordingTime := 59; recordedAudioUrl := Some url;
       recordedDuration := 0; playbackTime := 0;
       isPlayingRecordedAudio := false |}).
  { unfold c'. rewrite Hon. reflexivity. }
  assert (Hiv' : intervals c' = []).
  { unfold c'. rewrite Hon. reflexivity. }
  assert (Hmr' : mediaRecorder c' = Some inactive).
  { unfold c'. rewrite Hon. reflexivity. }
  assert (Hdur : recordedDuration (recordingState (stopRecording c'))
                 = 59%Z).
  { rewrite stopRecording_duration, Hrs'. reflexivity. }
  clearbody c'.
  assert (Hrec : Popup.isRecording after = true).
  { unfold after, Popup.popupProps. cbn [Popup.isRecording].
    rewrite Hrs'. reflexivity. }
  split; [exact Hrs'|]. split; [exact Hiv'|]. split; [exact Hmr'|].
  split; [|split].
  - apply PopupRender.rerender_keeps_live_loop with (canvas := canvas).
    + exact Hc.
    + exact Hw.
    + exact Hh.
    + unfold Popup.liveDepsChanged, before, after, Popup.popupProps.
      cbn [Popup.isRecording Popup.analyserNode Popup.recordedAudioUrl
           Popup.recordedDuration].
      rewrite Hrs, Hrs'. reflexivity.
    + exact Hrec.
    + reflexivity.
    + unfold after, Popup.popupProps. cbn [Popup.isPlayingRecordedAudio].
      rewrite Hrs'. reflexivity.
  - rewrite (proj2 (PopupFrames.drawLiveWaveformBars_reschedules
                      env after data s Hrec)).
    apply in_or_app. right. left. reflexivity.
  - exact Hdur.
Qed.

Lemma auto_stop_keeps_recording_witness :
  let env := Popup.plainEnv in
  let st := Popup.initialState Popup.laidOut in
  let c := session 60 in
  let c' := onstop "blob:rec" c in
  let before := Popup.popupProps true c in
  let after := Popup.popupProps true c' in
  recordingState c' =
    {| isPopupOpen := true; isRecording := true;
       recordingTime := 59; recordedAudioUrl := Some "blob:rec"%string;
       recordedDuration := 0; playbackTime := 0;
       isPlayingRecordedAudio := false |} /\
  intervals c' = [] /\ mediaRecorder c' = Some inactive /\
  (exists id,
     Popup.animationFrameId (Popup.rerender env before after st) = Some id /\
     In (id, Popup.LiveLoop after)
        (Popup.frames (Popup.rerender env before after st))) /\
  In (Popup.nextFrameId st, Popup.LiveLoop after)
     (Popup.frames (Popup.drawLiveWaveformBars env after [] st)) /\
  recordedDuration (recordingState (stopRecording c')) = 59%Z.
Proof.
  refine (@auto_stop_keeps_recording Popup.plainEnv "blob:rec"
            (Popup.initialState Popup.laidOut) (Popup.initialState Popup.laidOut)
            Popup.laidOut [] eq_refl _ _); simpl; lra.
Defined.

Lemma underReview_url :
  recordedAudioUrl (recordingState underReview) = Some "blob:rec"%string.
Proof.
  destruct (session_counts (k := 3)) as (Hrs & Href & Hiv & Hmr & Hsp);
    [lia|].
  unfold underReview, stopRecording, stopMediaRecorder. cbn.
  rewrite Hmr. cbn. rewrite Href. cbn. reflexivity.
Qed.

(** C3 (as amended): when a recording is under review
    ([recordedAudioUrl] is set), the re-record action followed by the
    render it causes leaves the popup's waveform history empty (and the
    coordinator's waveform data too); the cached offscreen canvas is
    whatever it was before. *)
Theorem reRecord_empties_history_keeps_cache
  (env : Popup.Env) (analyser : bool) (c : Coordinator) (st : Popup.State)
  (u : string) :
  recordedAudioUrl (recordingState c) = Some u ->
  let before := Popup.popupProps analyser c in
  let after := Popup.popupProps analyser (reRecord c) in
  List.length (Popup.waveformHistory (Popup.rerender env before after st))
    = 0%nat /\
  waveformData (reRecord c) = [] /\
  Popup.cachedWaveformCanvas (Popup.rerender env before after st)
    = Popup.cachedWaveformCanvas st.
Proof.
  intros Hu before after.
  destruct (@PopupRender.rerender_url_cleared env before after st u)
    as (Hh & Hc).
  - unfold before, Popup.popupProps. cbn. exact Hu.
  - reflexivity.
  - rewrite Hh, Hc. repeat split.
Qed.

Lemma reRecord_empties_history_keeps_cache_witness :
  Popup.cachedWaveformCanvas
    (Popup.rerender Popup.plainEnv (Popup.popupProps true underReview)
       (Popup.popupProps true (reRecord underReview)) Popup.reviewed)
  = Popup.cachedWaveformCanvas Popup.reviewed.
Proof.
  apply (@reRecord_empties_history_keeps_cache Popup.plainEnv true underReview
           Popup.reviewed "blob:rec").
  exact underReview_url.
Defined.

(** C3 as stated fails: after re-recording the Popup.reviewed session the
    cached canvas is still there. *)
Lemma reRecord_cached_canvas_survives :
  let st' := Popup.rerender Popup.plainEnv (Popup.popupProps true underReview)
               (Popup.popupProps true (reRecord underReview)) Popup.reviewed in
  ~ (List.length (Popup.waveformHistory st') = 0%nat /\
     Popup.cachedWaveformCanvas st' = None).
Proof.
  intros st' [_ H].
  destruct (@PopupRender.rerender_url_cleared Popup.plainEnv
              (Popup.popupProps true underReview)
              (Popup.popupProps true (reRecord underReview)) Popup.reviewed
              "blob:rec") as (_ & Hc).
  - unfold Popup.popupProps. cbn [Popup.recordedAudioUrl].
    exact underReview_url.
  - reflexivity.
  - unfold st' in H. rewrite Hc in H.
    unfold Popup.reviewed, Popup.drawStaticWaveformToCache in H. cbn in H.
    discriminate H.
Qed.

End Session.

(** ** Drawing as lists of commands *)

Module Drawing.
Import Popup.
Local Open Scope R_scope.

Lemma paint_nil c : paint [] c = c.
Proof. destruct c. unfold paint. cbn. rewrite app_nil_r. reflexivity. Qed.

Lemma paint_paint a b c : paint b (paint a c) = paint (a ++ b) c.
Proof. unfold paint. cbn. rewrite app_assoc. reflexivity. Qed.

Lemma drawRoundedRect_paint x y w h r c :
  drawRoundedRect x y w h r c =
  paint [roundedRectOp (fillStyle c) (globalCompositeOperation c)
           x y w h r] c.
Proof.
  unfold drawRoundedRect, roundedRectOp.
  destruct (Rlt_dec h (2 * r)); reflexivity.
Qed.

Lemma drawStaticBars_paint d ph hs : forall i c,
  drawStaticBars d ph i hs c =
  paint (staticBarOps (fillStyle c) (globalCompositeOperation c) d ph i hs) c.
Proof.
  induction hs as [|h rest IH]; intros i c; cbn [drawStaticBars staticBarOps].
  - symmetry. apply paint_nil.
  - rewrite IH, drawRoundedRect_paint, paint_paint. reflexivity.
Qed.

Lemma drawLiveBars_dims d pw ph off hs : forall i c,
  width (drawLiveBars d pw ph off i hs c) = width c /\
  height (drawLiveBars d pw ph off i hs c) = height c.
Proof.
  induction hs as [|h rest IH]; intros i c; cbn [drawLiveBars].
  - split; reflexivity.
  - destruct (Rlt_dec 0 _); [destruct (Rlt_dec _ pw)|];
      rewrite ?drawRoundedRect_paint;
      destruct (IH (S i) c) as [? ?];
      match goal with
      | |- context [drawLiveBars _ _ _ _ _ _ (paint ?o ?c)] =>
          destruct (IH (S i) (paint o c)) as [-> ->]; split; reflexivity
      | _ => split; assumption
      end.
Qed.

Lemma fold_left_sum (l : list Byte.byte) : forall a,
  fold_left (fun sum b => sum + bin_value b) l a =
  a + fold_right (fun b acc => bin_value b + acc) 0 l.
Proof.
  induction l as [|b l IH]; intros a; cbn.
  - lra.
  - rewrite IH. lra.
Qed.

Lemma sumBins_mean dataArray :
  sumBins dataArray / INR (List.length dataArray) = mean dataArray.
Proof.
  unfold sumBins, mean. rewrite fold_left_sum. f_equal. lra.
Qed.

Lemma clamp_bounds x lo hi : lo <= hi -> lo <= clamp x lo hi <= hi.
Proof.
  intros H. unfold clamp, Rmax, Rmin.
  repeat destruct Rle_dec; lra.
Qed.

Lemma newBarHeight_spec d physicalHeight dataArray :
  newBarHeight d physicalHeight dataArray =
  clamp ((mean dataArray / 255) * physicalHeight * sensitivityFactor / d)
        2 32.
Proof.
  unfold newBarHeight, clamp. rewrite sumBins_mean. reflexivity.
Qed.

End Drawing.

(** ** The amplitude sampler and the static raster *)

Module Waveform.
Import Popup Drawing.
Local Open Scope R_scope.

(** C4: a tick of the live loop that reaches the sampling code (canvas
    with a 2D context, analyser present, at least one frequency bin)
    appends exactly one bar to the history: the mean of the bins over
    255, times the canvas's device-pixel height, times the sensitivity
    factor, over the device pixel ratio, clamped to [2, 32]. *)
Theorem live_tick_appends_clamped_bar
  (env : Env) (p : Props) (dataArray : list Byte.byte) (st : State)
  (canvas : Canvas) :
  liveWaveformCanvas st = Some canvas ->
  has2d canvas = true ->
  analyserNode p = true ->
  dataArray <> [] ->
  let st' := drawLiveWaveformBars env p dataArray st in
  exists canvas',
    liveWaveformCanvas st' = Some canvas' /\
    let bar :=
      clamp ((mean dataArray / 255) * height canvas' * sensitivityFactor
             / dpr env) 2 32 in
    waveformHistory st' = (waveformHistory st ++ [bar])%list /\
    2 <= bar <= 32.
Proof.
  intros Hc H2d Ha _ st'. unfold st', drawLiveWaveformBars.
  rewrite Hc, Ha, H2d.
  set (canvas0 := if is_zero _ || _ || _ then _ else _).
  cbv beta zeta iota delta [negb].
  match goal with
  | |- context [drawLiveBars ?d ?pw ?ph ?off ?i ?hs ?c] =>
      pose proof (drawLiveBars_dims d pw ph off hs i c) as [_ Hh];
      set (final := drawLiveBars d pw ph off i hs c) in *
  end.
  exists final. split.
  - destruct (isRecording p); reflexivity.
  - rewrite Hh, <- newBarHeight_spec. split.
    + destruct (isRecording p); reflexivity.
    + rewrite newBarHeight_spec. apply clamp_bounds. lra.
Qed.

Lemma live_tick_appends_clamped_bar_witness :
  exists canvas',
    liveWaveformCanvas
      (drawLiveWaveformBars plainEnv
         (popupProps true (Recorder.session 1)) loudBins
         (initialState laidOut)) = Some canvas' /\
    let bar :=
      clamp ((mean loudBins / 255) * height canvas' * sensitivityFactor
             / dpr plainEnv) 2 32 in
    waveformHistory
      (drawLiveWaveformBars plainEnv
         (popupProps true (Recorder.session 1)) loudBins
         (initialState laidOut)) = ([] ++ [bar])%list /\
    2 <= bar <= 32.
Proof.
  apply (@live_tick_appends_clamped_bar plainEnv
           (popupProps true (Recorder.session 1)) loudBins
           (initialState laidOut) laidOut).
  - reflexivity.
  - reflexivity.
  - reflexivity.
  - discriminate.
Defined.

End Waveform.

Module Raster.
Import Popup Drawing.
Local Open Scope R_scope.
Local Open Scope string_scope.

Lemma drawStaticWaveformToCache_built env st mainCanvas :
  liveWaveformCanvas st = Some mainCanvas ->
  waveformHistory st <> [] ->
  cache_ready env st ->
  drawStaticWaveformToCache env st =
  with_cached
    (Some (built env mainCanvas (startCanvas env st) (waveformHistory st)))
    st.
Proof.
  intros Hc Hh Hr. unfold drawStaticWaveformToCache. rewrite Hc.
  destruct (waveformHistory st) as [|h hs] eqn:E; [contradiction|].
  fold (startCanvas env st).
  assert (H2 : has2d (startCanvas env st) = true).
  { unfold startCanvas, cache_ready in *.
    destruct (cachedWaveformCanvas st); [exact Hr|exact Hr]. }
  rewrite H2. cbn [negb]. rewrite drawStaticBars_paint.
  unfold built, rasterBitmap, paint. cbn. reflexivity.
Qed.

Lemma drawStaticWaveformToCache_unready env st mainCanvas :
  liveWaveformCanvas st = Some mainCanvas ->
  waveformHistory st <> [] ->
  has2d (startCanvas env st) = false ->
  drawStaticWaveformToCache env st =
  with_cached (Some (startCanvas env st)) st.
Proof.
  intros Hc Hh H2. unfold drawStaticWaveformToCache. rewrite Hc.
  destruct (waveformHistory st) as [|h hs] eqn:E; [contradiction|].
  fold (startCanvas env st). rewrite H2. reflexivity.
Qed.

Lemma drawStaticWaveformToCache_skipped env st :
  liveWaveformCanvas st = None \/ waveformHistory st = [] ->
  drawStaticWaveformToCache env st = st.
Proof.
  intros [H|H]; unfold drawStaticWaveformToCache; rewrite H;
    [reflexivity|].
  destruct (liveWaveformCanvas st); reflexivity.
Qed.

(** Building is idempotent on the whole popup state. *)
Lemma drawStaticWaveformToCache_twice env st :
  drawStaticWaveformToCache env (drawStaticWaveformToCache env st) =
  drawStaticWaveformToCache env st.
Proof.
  destruct (liveWaveformCanvas st) as [mainCanvas|] eqn:Hc.
  2:{ rewrite !(drawStaticWaveformToCache_skipped env st) by auto.
      reflexivity. }
  destruct (waveformHistory st) as [|h hs] eqn:Hh.
  { rewrite !(drawStaticWaveformToCache_skipped env st) by auto.
    reflexivity. }
  assert (Hne : waveformHistory st <> []) by (rewrite Hh; discriminate).
  destruct (has2d (startCanvas env st)) eqn:H2.
  - assert (Hr : cache_ready env st).
    { unfold cache_ready, startCanvas in *.
      destruct (cachedWaveformCanvas st); exact H2. }
    rewrite (drawStaticWaveformToCache_built env st Hc Hne Hr).
    rewrite (@drawStaticWaveformToCache_built env _ mainCanvas).
    + reflexivity.
    + exact Hc.
    + exact Hne.
    + exact H2.
  - rewrite (drawStaticWaveformToCache_unready env st Hc Hne H2).
    rewrite (@drawStaticWaveformToCache_unready env _ mainCanvas).
    + reflexivity.
    + exact Hc.
    + exact Hne.
    + exact H2.
Qed.






(** C6: building the cache is idempotent, and what it draws is a
    function of the history, the device pixel ratio and the visible
    canvas's layout height alone: building again from the state the first
    build produced changes nothing, and two builds from the same history
    give the same bitmap whatever the offscreen canvas held before. *)
Theorem static_raster_idempotent
  (env : Env) (st st2 : State) (mainCanvas : Canvas) :
  liveWaveformCanvas st = Some mainCanvas ->
  waveformHistory st <> [] ->
  cache_ready env st ->
  liveWaveformCanvas st2 = Some mainCanvas ->
  waveformHistory st2 = waveformHistory st ->
  cache_ready env st2 ->
  drawStaticWaveformToCache env (drawStaticWaveformToCache env st)
    = drawStaticWaveformToCache env st /\
  exists c c2,
    cachedWaveformCanvas (drawStaticWaveformToCache env st) = Some c /\
    cachedWaveformCanvas (drawStaticWaveformToCache env st2) = Some c2 /\
    bitmap c = bitmap c2 /\ width c = width c2 /\ height c = height c2 /\
    bitmap c =
      rasterBitmap (dpr env) (width c) (height c) (waveformHistory st).
Proof.
  intros Hc Hh Hr Hc2 Hh2 Hr2. split.
  - apply drawStaticWaveformToCache_twice.
  - rewrite (drawStaticWaveformToCache_built env st Hc Hh Hr).
    rewrite (@drawStaticWaveformToCache_built env st2 mainCanvas);
      [|assumption|rewrite Hh2; assumption|assumption].
    rewrite Hh2.
    exists (built env mainCanvas (startCanvas env st) (waveformHistory st)),
           (built env mainCanvas (startCanvas env st2) (waveformHistory st)).
    unfold built. cbn [bitmap width height].
    repeat (split; [reflexivity|]). reflexivity.
Qed.

Lemma static_raster_idempotent_witness :
  drawStaticWaveformToCache plainEnv
    (drawStaticWaveformToCache plainEnv tenBars)
  = drawStaticWaveformToCache plainEnv tenBars.
Proof.
  apply (@static_raster_idempotent plainEnv tenBars
           (with_cached (Some laidOut) tenBars) laidOut).
  - reflexivity.
  - discriminate.
  - reflexivity.
  - reflexivity.
  - reflexivity.
  - reflexivity.
Defined.

End Raster.

(** ** The playback loop *)

Module Playback.
Import Popup PopupFrames Drawing.
Local Open Scope R_scope.

(** A tick while playing, up to the test for completion. *)
Lemma animationLoop_playing env p timestamp st canvas :
  liveWaveformCanvas st = Some canvas ->
  isPlayingRecordedAudio p = true ->
  let t := positionAt p timestamp st in
  let total := totalWaveformPhysicalWidth env st in
  let target :=
    targetScrollOffset (playbackProgressPhysical (recordedDuration p) t total)
      total (width canvas) in
  let drawn :=
    drawPlaybackFrame env p t
      (with_playback (Some (basisTime p timestamp st)) t
         (lerp (smoothedScrollOffset st) target
            (easingFactor (frameDelta timestamp st)))
         (Some timestamp) st) in
  animationLoop env p timestamp st =
  if Rle_dec (recordedDuration p) t then
    with_playback None (recordedDuration p) (smoothedScrollOffset drawn) None
      (with_playbackFrameId None (onPauseRecording drawn))
  else schedulePlayback p drawn.
Proof.
  intros Hc Hp. unfold animationLoop. rewrite Hc, Hp. cbn [negb].
  unfold positionAt, basisTime, frameDelta.
  destruct (playbackStartTime st) as [s|]; [destruct (lastFrameTime st)|];
    cbv zeta;
    replace (timestamp - timestamp) with 0 by lra; reflexivity.
Qed.

Lemma animationLoop_smoothed env p timestamp st canvas :
  liveWaveformCanvas st = Some canvas ->
  isPlayingRecordedAudio p = true ->
  let t := positionAt p timestamp st in
  let total := totalWaveformPhysicalWidth env st in
  smoothedScrollOffset (animationLoop env p timestamp st) =
  lerp (smoothedScrollOffset st)
    (targetScrollOffset (playbackProgressPhysical (recordedDuration p) t total)
       total (width canvas))
    (easingFactor (frameDelta timestamp st)).
Proof.
  intros Hc Hp. rewrite (animationLoop_playing env p timestamp st Hc Hp).
  cbv zeta.
  match goal with
  | |- context [drawPlaybackFrame ?e ?q ?t ?s] =>
      destruct (drawPlaybackFrame_playback e q t s) as (_ & _ & Hs & _);
      set (drawn := drawPlaybackFrame e q t s) in *
  end.
  destruct (Rle_dec _ _); cbn; exact Hs.
Qed.

(** C7: on a tick of the playback loop with a positive recorded
    duration, the scroll offset moves from its old value towards a target
    by the easing factor of the frame; the target is
    [clamp (progressPixels - 0.2 * visibleWidth, 0,
    totalRasterWidth - visibleWidth)] when the raster is wider than the
    visible canvas and 0 otherwise, with [progressPixels] the played
    fraction of the raster's width. *)
Theorem target_scroll_offset_on_tick
  (env : Env) (p : Props) (timestamp : R) (st : State) (canvas : Canvas) :
  liveWaveformCanvas st = Some canvas ->
  isPlayingRecordedAudio p = true ->
  0 < recordedDuration p ->
  let playbackTime := positionAt p timestamp st in
  let totalRasterWidth :=
    INR (List.length (waveformHistory st)) * (3 + 2.3) * dpr env in
  let visibleWidth := width canvas in
  let progressPixels :=
    (playbackTime / recordedDuration p) * totalRasterWidth in
  exists target,
    smoothedScrollOffset (animationLoop env p timestamp st) =
      lerp (smoothedScrollOffset st) target
        (easingFactor (frameDelta timestamp st)) /\
    (visibleWidth < totalRasterWidth ->
     target = clamp (progressPixels - 0.2 * visibleWidth) 0
                (totalRasterWidth - visibleWidth)) /\
    (totalRasterWidth <= visibleWidth -> target = 0).
Proof.
  intros Hc Hp Hd playbackTime totalRasterWidth visibleWidth progressPixels.
  eexists. split; [apply (animationLoop_smoothed env p timestamp st Hc Hp)|].
  cbv zeta. unfold targetScrollOffset, playbackProgressPhysical.
  change (totalWaveformPhysicalWidth env st) with totalRasterWidth.
  fold playbackTime. fold visibleWidth.
  destruct (Rlt_dec 0 (recordedDuration p)); [|contradiction].
  fold progressPixels.
  destruct (Rlt_dec visibleWidth totalRasterWidth); split; intros H;
    try lra.
  unfold clamp. f_equal. f_equal. lra.
Qed.

Lemma target_scroll_offset_on_tick_witness :
  exists target,
    smoothedScrollOffset
      (animationLoop plainEnv playingProps 5000 midPlayback) =
      lerp (smoothedScrollOffset midPlayback) target
        (easingFactor (frameDelta 5000 midPlayback)) /\
    (width laidOut
       < INR (List.length (waveformHistory midPlayback)) * (3 + 2.3)
         * dpr plainEnv ->
     target =
       clamp ((positionAt playingProps 5000 midPlayback
               / recordedDuration playingProps)
              * (INR (List.length (waveformHistory midPlayback)) * (3 + 2.3)
                 * dpr plainEnv)
              - 0.2 * width laidOut) 0
         (INR (List.length (waveformHistory midPlayback)) * (3 + 2.3)
          * dpr plainEnv - width laidOut)) /\
    (INR (List.length (waveformHistory midPlayback)) * (3 + 2.3)
     * dpr plainEnv <= width laidOut -> target = 0).
Proof.
  apply (@target_scroll_offset_on_tick plainEnv playingProps 5000
           midPlayback laidOut).
  - reflexivity.
  - reflexivity.
  - simpl. lra.
Defined.

End Playback.

(** ** Scroll smoothing *)

Module Smoothing.
Import Popup.
Local Open Scope R_scope.

Lemma lerp_easing (s target dt : R) :
  lerp s target (easingFactor dt) - target
  = (s - target) * exp ((-1.8 * dt) / 1000).
Proof. unfold lerp, easingFactor. ring. Qed.

Lemma decay_range (dt : R) :
  0 < dt -> 0 < exp ((-1.8 * dt) / 1000) < 1.
Proof.
  intros H. split; [apply exp_pos|].
  rewrite <- exp_0. apply exp_increasing. lra.
Qed.

Lemma smooth_closed_form (target : R) (dts : list R) : forall s,
  smooth target dts s - target
  = (s - target) * exp ((-1.8 * total_time dts) / 1000).
Proof.
  unfold smooth.
  induction dts as [|dt dts IH]; intros s; cbn [fold_left total_time fold_right].
  - replace ((-1.8 * 0) / 1000) with 0 by lra. rewrite exp_0. ring.
  - rewrite IH, lerp_easing.
    replace ((-1.8 * (dt + fold_right Rplus 0 dts)) / 1000)
      with ((-1.8 * dt) / 1000 + (-1.8 * total_time dts) / 1000)
      by (unfold total_time; lra).
    rewrite exp_plus. ring.
Qed.

(** Far enough into the run the offset is as close to the target as
    wanted. *)
Lemma smooth_converges (target s eps : R) :
  0 < eps ->
  exists T, forall dts,
    Forall (Rlt 0) dts -> T <= total_time dts ->
    Rabs (smooth target dts s - target) < eps.
Proof.
  intros Heps.
  destruct (Req_dec_T s target) as [->|Hne].
  - exists 0. intros dts _ _. rewrite smooth_closed_form.
    replace (target - target) with 0 by lra.
    rewrite Rmult_0_l, Rabs_R0. exact Heps.
  - assert (HD : 0 < Rabs (s - target)) by (apply Rabs_pos_lt; lra).
    set (D := Rabs (s - target)) in *.
    set (L := ln (eps / D)).
    exists (Rmax 0 (- L * 1000 / 1.8) + 1).
    intros dts _ HT. rewrite smooth_closed_form, Rabs_mult. fold D.
    rewrite (Rabs_pos_eq (exp _)) by (left; apply exp_pos).
    assert (Hlt : exp ((-1.8 * total_time dts) / 1000) < eps / D).
    { rewrite <- (exp_ln (eps / D)) by (apply Rdiv_lt_0_compat; lra).
      apply exp_increasing. fold L.
      pose proof (Rmax_r 0 (- L * 1000 / 1.8)). lra. }
    apply (Rmult_lt_compat_l D) in Hlt; [|exact HD].
    replace (D * (eps / D)) with eps in Hlt by (field; lra).
    exact Hlt.
Qed.

(** C8: one smoothing step is
    [smoothed + (target - smoothed) * (1 - e^(-1.8 dt / 1000))]; for a
    positive [dt] it does not increase the distance to the target (and
    decreases it unless the offset is already there), it stays on its side
    of the target, and over a run of such steps against a constant target
    the distance falls below any positive bound once enough time has
    passed. *)
Theorem smoothing_approaches_target_without_overshoot
  (smoothed target dt : R) :
  0 < dt ->
  let smoothed' := lerp smoothed target (easingFactor dt) in
  smoothed' =
    smoothed + (target - smoothed) * (1 - exp ((-1.8 * dt) / 1000)) /\
  Rabs (smoothed' - target) <= Rabs (smoothed - target) /\
  (smoothed <> target ->
   Rabs (smoothed' - target) < Rabs (smoothed - target)) /\
  (smoothed <= target -> smoothed <= smoothed' <= target) /\
  (target <= smoothed -> target <= smoothed' <= smoothed) /\
  (forall eps, 0 < eps ->
   exists T, forall dts,
     Forall (Rlt 0) dts -> T <= total_time dts ->
     Rabs (smooth target dts smoothed - target) < eps).
Proof.
  intros Hdt smoothed'.
  pose proof (decay_range Hdt) as [He0 He1].
  pose proof (lerp_easing smoothed target dt) as Hstep.
  fold smoothed' in Hstep.
  set (e := exp ((-1.8 * dt) / 1000)) in *.
  assert (Habs : Rabs (smoothed' - target) = Rabs (smoothed - target) * e).
  { rewrite Hstep, Rabs_mult, (Rabs_pos_eq e) by lra. reflexivity. }
  pose proof (Rabs_pos (smoothed - target)) as Hpos.
  split; [|split; [|split; [|split; [|split]]]].
  - unfold smoothed', lerp, easingFactor. fold e. ring.
  - rewrite Habs. nra.
  - intros Hne. rewrite Habs.
    assert (0 < Rabs (smoothed - target)) by (apply Rabs_pos_lt; lra).
    nra.
  - intros Hle. split; nra.
  - intros Hle. split; nra.
  - intros eps Heps. apply smooth_converges. exact Heps.
Qed.

Lemma smoothing_approaches_target_without_overshoot_witness :
  let smoothed' := lerp 0 100 (easingFactor 16) in
  0 <= smoothed' <= 100.
Proof.
  apply (@smoothing_approaches_target_without_overshoot 0 100 16); lra.
Defined.

End Smoothing.

(** ** The end of playback *)

Module Completion.
Import Popup PopupFrames Playback.
Local Open Scope R_scope.

Lemma cancelAnimationFrame_incl id st :
  incl (frames (cancelAnimationFrame id st)) (frames st).
Proof. cbn. apply incl_filter. Qed.

Lemma cancelLive_incl st : incl (frames (cancelLive st)) (frames st).
Proof.
  unfold cancelLive. destruct (animationFrameId st).
  - apply cancelAnimationFrame_incl.
  - apply incl_refl.
Qed.

Lemma cancelPlayback_incl st : incl (frames (cancelPlayback st)) (frames st).
Proof.
  unfold cancelPlayback. destruct (playbackAnimationFrameId st).
  - apply cancelAnimationFrame_incl.
  - apply incl_refl.
Qed.

Lemma drawStaticWaveformToCache_frames env st :
  frames (drawStaticWaveformToCache env st) = frames st /\
  playbackAnimationFrameId (drawStaticWaveformToCache env st)
    = playbackAnimationFrameId st.
Proof.
  unfold drawStaticWaveformToCache.
  destruct (liveWaveformCanvas st); [|split; reflexivity].
  destruct (waveformHistory st); [split; reflexivity|].
  destruct (negb _); split; reflexivity.
Qed.

(** Outside recording the live effect requests nothing. *)
Lemma liveEffect_idle env p st :
  isRecording p = false ->
  incl (frames (liveEffect env p st)) (frames st) /\
  playbackAnimationFrameId (liveEffect env p st)
    = playbackAnimationFrameId st.
Proof.
  intros Hr. unfold liveEffect. rewrite Hr. cbn [andb].
  destruct (liveWaveformCanvas st); [|split; [apply incl_refl|reflexivity]].
  pose proof (cancelLive_incl st) as Hi.
  destruct (cancelLive_keeps st) as (_ & _ & _ & Hp & _).
  destruct (recordedAudioUrl p) as [u|]; [|split; assumption].
  destruct (waveformHistory (cancelLive st)); [split; assumption|].
  destruct (String.eqb u EmptyString); [split; assumption|].
  destruct (drawStaticWaveformToCache_frames env (cancelLive st)) as [-> ->].
  split; assumption.
Qed.

(** A render with props that say neither "recording" nor "playing"
    requests no frame. *)
Lemma rerender_idle env old new st :
  isRecording new = false -> isPlayingRecordedAudio new = false ->
  playbackAnimationFrameId (rerender env old new st) = None /\
  incl (frames (rerender env old new st)) (frames st).
Proof.
  intros Hr Hp. unfold rerender.
  set (st0 := if liveDepsChanged old new then liveCleanup st else st).
  assert (H0 : incl (frames st0) (frames st)).
  { unfold st0. destruct (liveDepsChanged old new);
      [apply cancelLive_incl|apply incl_refl]. }
  set (st1 := playbackCleanup st0).
  assert (H1 : playbackAnimationFrameId st1 = None /\
               incl (frames st1) (frames st)).
  { split; [apply playbackCleanup_keeps|].
    unfold st1, playbackCleanup. cbn [frames with_playback].
    eapply incl_tran; [apply cancelPlayback_incl|exact H0]. }
  destruct H1 as [Hid1 Hin1].
  set (st2 := if liveDepsChanged old new then liveEffect env new st1
              else st1).
  assert (H2 : playbackAnimationFrameId st2 = None /\
               incl (frames st2) (frames st)).
  { unfold st2. destruct (liveDepsChanged old new); [|split; assumption].
    destruct (liveEffect_idle env new st1 Hr) as [Hi ->].
    split; [exact Hid1|]. eapply incl_tran; eassumption. }
  destruct H2 as [Hid2 Hin2].
  destruct (playbackEffect_paused env new st2 Hp Hid2)
    as (_ & Hid3 & Hfr3 & _).
  set (st3 := playbackEffect env new st2) in *.
  set (st4 := if resetDepsChanged old new then resetEffect st3 else st3).
  assert (H4 : playbackAnimationFrameId st4 = None /\
               frames st4 = frames st2).
  { unfold st4. destruct (resetDepsChanged old new).
    - destruct (resetEffect_same_loops st3) as (_ & -> & -> & _).
      split; congruence.
    - split; congruence. }
  destruct H4 as [Hid4 Hfr4].
  destruct (urlDepsChanged old new).
  - destruct (urlEffect_keeps env new st4) as (_ & -> & -> & _).
    rewrite Hfr4. split; assumption.
  - rewrite Hfr4. split; assumption.
Qed.

(** C9: on a tick of the playback loop at which the elapsed time has
    reached [recordedDuration], the position is exactly
    [recordedDuration], [onPauseRecording] is called once, the loop's
    frame reference is cleared and no frame is requested; the render that
    follows once the coordinator has paused requests none either. *)
Theorem playback_stops_at_duration
  (env : Env) (p : Props) (timestamp : R) (st : State) (canvas : Canvas) :
  liveWaveformCanvas st = Some canvas ->
  isPlayingRecordedAudio p = true ->
  recordedDuration p <= (timestamp - basisTime p timestamp st) / 1000 ->
  let st' := animationLoop env p timestamp st in
  positionAt p timestamp st = recordedDuration p /\
  internalPlaybackTime st' = recordedDuration p /\
  pauseSignals st' = S (pauseSignals st) /\
  playbackAnimationFrameId st' = None /\
  frames st' = frames st /\
  (forall new,
     isPlayingRecordedAudio new = false -> isRecording new = false ->
     playbackAnimationFrameId (rerender env p new st') = None /\
     incl (frames (rerender env p new st')) (frames st)).
Proof.
  intros Hc Hp Hend st'.
  assert (Hpos : positionAt p timestamp st = recordedDuration p).
  { unfold positionAt. apply Rmin_right. exact Hend. }
  assert (Hst : internalPlaybackTime st' = recordedDuration p /\
                pauseSignals st' = S (pauseSignals st) /\
                playbackAnimationFrameId st' = None /\
                frames st' = frames st).
  { unfold st'. rewrite (animationLoop_playing env p timestamp st Hc Hp).
    cbv zeta. rewrite Hpos.
    destruct (Rle_dec (recordedDuration p) (recordedDuration p)) as [_|N];
      [|exfalso; apply N; apply Rle_refl].
    match goal with
    | |- context [drawPlaybackFrame ?e ?q ?t ?s] =>
        destruct (drawPlaybackFrame_same_loops e q t s)
          as (_ & _ & Hfr & _ & _ & _ & Hps);
        set (drawn := drawPlaybackFrame e q t s) in *
    end.
    cbn. rewrite Hps, Hfr. repeat split. }
  destruct Hst as (Hi & Hps & Hid & Hfr).
  repeat (split; [assumption|]).
  intros new Hnp Hnr.
  destruct (rerender_idle env p new st' Hnr Hnp) as [H1 H2].
  split; [exact H1|]. rewrite <- Hfr. exact H2.
Qed.

Lemma playback_stops_at_duration_witness :
  let st' := animationLoop plainEnv playingProps 11000 lastLap in
  positionAt playingProps 11000 lastLap = recordedDuration playingProps /\
  internalPlaybackTime st' = recordedDuration playingProps /\
  pauseSignals st' = S (pauseSignals lastLap) /\
  playbackAnimationFrameId st' = None /\
  frames st' = frames lastLap /\
  (forall new,
     isPlayingRecordedAudio new = false -> isRecording new = false ->
     playbackAnimationFrameId (rerender plainEnv playingProps new st')
       = None /\
     incl (frames (rerender plainEnv playingProps new st'))
          (frames lastLap)).
Proof.
  apply (@playback_stops_at_duration plainEnv playingProps 11000
           lastLap laidOut).
  - reflexivity.
  - reflexivity.
  - unfold basisTime, lastLap. simpl. lra.
Defined.

(** Before the end the loop requests its next frame. *)
Lemma playback_continues_before_duration
  (env : Env) (p : Props) (timestamp : R) (st : State) (canvas : Canvas) :
  liveWaveformCanvas st = Some canvas ->
  isPlayingRecordedAudio p = true ->
  (timestamp - basisTime p timestamp st) / 1000 < recordedDuration p ->
  In (nextFrameId st, PlaybackLoop p)
     (frames (animationLoop env p timestamp st)).
Proof.
  intros Hc Hp Hlt.
  rewrite (animationLoop_playing env p timestamp st Hc Hp). cbv zeta.
  assert (Hpos : positionAt p timestamp st
                 = (timestamp - basisTime p timestamp st) / 1000).
  { unfold positionAt. apply Rmin_left. lra. }
  rewrite Hpos.
  destruct (Rle_dec _ _) as [Hle|_]; [lra|].
  match goal with
  | |- context [drawPlaybackFrame ?e ?q ?t ?s] =>
      destruct (drawPlaybackFrame_same_loops e q t s)
        as (_ & _ & Hfr & Hnx & _);
      set (drawn := drawPlaybackFrame e q t s) in *
  end.
  cbn. rewrite Hfr, Hnx. cbn.
  apply in_or_app. right. left. reflexivity.
Qed.

End Completion.

(** ** The WAV encoder *)

Module WavProofs.
Import Wav.
Local Open Scope Z_scope.

Lemma length_le_bytes (n : nat) : forall v, List.length (le_bytes n v) = n.
Proof. induction n; intros v; cbn; [reflexivity|]. rewrite IHn. reflexivity. Qed.

Lemma set_bytes_splice (pre old bs post : list Z) :
  List.length old = List.length bs ->
  set_bytes (List.length pre) bs (pre ++ old ++ post)
  = Some (pre ++ bs ++ post)%list.
Proof.
  intros H. unfold set_bytes.
  rewrite !length_app, H.
  replace (_ <=? _)%nat with true
    by (symmetry; apply Nat.leb_le; lia).
  rewrite firstn_app, firstn_all, Nat.sub_diag, firstn_O, app_nil_r.
  rewrite skipn_app, skipn_all2 by lia.
  replace (List.length pre + List.length bs - List.length pre)%nat
    with (List.length old) by lia.
  rewrite skipn_app, skipn_all, Nat.sub_diag, skipn_O. reflexivity.
Qed.

(** A run of two-byte writes at consecutive even offsets from [base]
    replaces exactly the bytes it covers. *)
Lemma write16_run (base : nat) (vals : nat -> Z) :
  forall n i pre old post,
    List.length pre = (base + 2 * i)%nat ->
    List.length old = (2 * n)%nat ->
    for_from i n
      (fun j v => set_bytes (base + 2 * j) (le_bytes 2 (vals j)) v)
      (pre ++ old ++ post)
    = Some (pre ++ flat_map (fun j => le_bytes 2 (vals j)) (seq i n)
            ++ post)%list.
Proof.
  induction n as [|n IH]; intros i pre old post Hpre Hold.
  - destruct old; [reflexivity|discriminate].
  - destruct old as [|o1 [|o2 old]]; try (cbn in Hold; lia).
    cbn [for_from seq flat_map].
    change (o1 :: o2 :: old) with ([o1; o2] ++ old)%list.
    rewrite <- Hpre, <- app_assoc.
    rewrite set_bytes_splice by reflexivity.
    cbn [bind].
    rewrite (app_assoc pre (le_bytes 2 (vals i))).
    rewrite IH.
    + rewrite <- !app_assoc. reflexivity.
    + rewrite length_app, length_le_bytes. lia.
    + cbn in Hold. lia.
Qed.

Lemma writeHeader_zeros (len numOfChan : nat) (rate : Z) (rest : list Z) :
  writeHeader len numOfChan rate (repeat 0 44 ++ rest) =
  Some (ascii_bytes "RIFF" ++ le_bytes 4 (Z.of_nat len - 8)
        ++ ascii_bytes "WAVE" ++ ascii_bytes "fmt "
        ++ le_bytes 4 16 ++ le_bytes 2 1
        ++ le_bytes 2 (Z.of_nat numOfChan)
        ++ le_bytes 4 rate
        ++ le_bytes 4 (rate * Z.of_nat numOfChan * 2)
        ++ le_bytes 2 (Z.of_nat numOfChan * 2)
        ++ le_bytes 2 16
        ++ ascii_bytes "data"
        ++ le_bytes 4 (Z.of_nat len - 44) ++ rest)%list.
Proof.
  unfold writeHeader.
  replace (Z.of_nat len - Z.of_nat (0 + 4 + 4 + 4 + 4 + 4 + 2 + 2 + 4 + 4 + 2 + 2 + 4) - 4)
    with (Z.of_nat len - 44) by lia.
  generalize (Z.of_nat len - 8) (Z.of_nat len - 44) (Z.of_nat numOfChan)
             (rate * Z.of_nat numOfChan * 2) (Z.of_nat numOfChan * 2).
  intros a b c d e. vm_compute. reflexivity.
Qed.

Lemma floatTo16BitPCM_splice (offset : nat) (input : list Q)
  (pre old post : list Z) :
  List.length pre = offset ->
  List.length old = (2 * List.length input)%nat ->
  floatTo16BitPCM offset input (pre ++ old ++ post) =
  Some (pre
        ++ flat_map (fun j => le_bytes 2 (ToInt16 (scale (nth j input 0%Q))))
             (seq 0 (List.length input))
        ++ post)%list.
Proof.
  intros Hpre Hold. unfold floatTo16BitPCM, for_.
  apply (write16_run offset
           (fun j => ToInt16 (scale (nth j input 0%Q)))); [lia|exact Hold].
Qed.

Lemma getChannelData_length (ab : AudioBuffer) (i : nat) :
  well_formed ab -> (i < numberOfChannels ab)%nat ->
  List.length (getChannelData ab i) = ab_length ab.
Proof.
  unfold well_formed, getChannelData, numberOfChannels. intros Hwf Hi.
  rewrite Forall_forall in Hwf. apply Hwf. apply nth_In. exact Hi.
Qed.

(** A list cut at [a] and [a + b]. *)
Lemma cut3 (A : Type) (a b : nat) (l : list A) :
  (a + b <= List.length l)%nat ->
  exists l1 l2 l3,
    l = (l1 ++ l2 ++ l3)%list /\ List.length l1 = a /\ List.length l2 = b.
Proof.
  intros H. exists (firstn a l), (firstn b (skipn a l)), (skipn b (skipn a l)).
  rewrite !firstn_skipn. repeat split.
  - apply firstn_length_le. lia.
  - apply firstn_length_le. rewrite length_skipn. lia.
Qed.

(** The channel-after-channel pass succeeds and stays inside the data
    section. *)
Lemma writeChannels_data (ab : AudioBuffer) (hdr : list Z) :
  well_formed ab -> List.length hdr = 44%nat ->
  forall n i d,
    (i + n = numberOfChannels ab)%nat ->
    List.length d = (2 * (ab_length ab * numberOfChannels ab))%nat ->
    exists d',
      for_from i n
        (fun i view =>
           floatTo16BitPCM (44 + i * (ab_length ab * 2))
             (getChannelData ab i) view) (hdr ++ d)
      = Some (hdr ++ d')%list /\
      List.length d' = List.length d.
Proof.
  intros Hwf Hhdr. induction n as [|n IH]; intros i d Hin Hd.
  - exists d. split; reflexivity.
  - assert (Hch : List.length (getChannelData ab i) = ab_length ab)
      by (apply getChannelData_length; [exact Hwf|lia]).
    destruct (@cut3 Z (i * (ab_length ab * 2)) (2 * ab_length ab) d)
      as (d1 & d2 & d3 & -> & H1 & H2).
    { rewrite Hd. rewrite <- Hin. nia. }
    cbn [for_from].
    rewrite (app_assoc hdr d1).
    rewrite floatTo16BitPCM_splice;
      [|rewrite length_app; lia|rewrite Hch; exact H2].
    cbn [bind]. rewrite <- app_assoc.
    set (d2' := flat_map _ _).
    assert (H2' : List.length d2' = List.length d2).
    { unfold d2'. rewrite H2, Hch.
      clear. generalize 0%nat at 2.
      induction (ab_length ab) as [|k IHk]; intros s; cbn [seq flat_map];
        [reflexivity|].
      rewrite length_app, IHk. cbn. lia. }
    destruct (IH (S i) (d1 ++ d2' ++ d3)%list) as (d' & Hrun & Hlen).
    + lia.
    + rewrite <- Hd, !length_app. lia.
    + exists d'. split; [exact Hrun|].
      rewrite Hlen, !length_app. lia.
Qed.

(** *** The interleaved sample array *)

Lemma upd_app_r (A : Type) (l1 l2 : list A) (j : nat) (x : A) :
  upd (List.length l1 + j) x (l1 ++ l2) = (l1 ++ upd j x l2)%list.
Proof.
  induction l1 as [|a l1 IH]; cbn; [reflexivity|]. rewrite IH. reflexivity.
Qed.

Lemma upd_at_end (A : Type) (l1 l2 : list A) (x y : A) :
  upd (List.length l1) x (l1 ++ y :: l2) = (l1 ++ x :: l2)%list.
Proof.
  rewrite <- (Nat.add_0_r (List.length l1)), upd_app_r. reflexivity.
Qed.

Lemma fill_row (base : nat) (g : nat -> Z) :
  forall n j pre post,
    List.length pre = (base + j)%nat ->
    fold_left (fun arr ch => upd (base + ch) (g ch) arr) (seq j n)
      (pre ++ repeat 0 n ++ post)
    = (pre ++ map g (seq j n) ++ post)%list.
Proof.
  induction n as [|n IH]; intros j pre post Hpre; [reflexivity|].
  cbn [seq fold_left repeat map app].
  rewrite <- Hpre, upd_at_end.
  change (pre ++ g j :: repeat 0 n ++ post)%list
    with (pre ++ [g j] ++ repeat 0 n ++ post)%list.
  rewrite app_assoc.
  rewrite IH by (rewrite length_app; cbn; lia).
  rewrite <- app_assoc. reflexivity.
Qed.

Lemma fill_rows (c : nat) (g : nat -> nat -> Z) :
  forall n i pre,
    List.length pre = (i * c)%nat ->
    fold_left
      (fun arr i =>
         fold_left (fun arr ch => upd (i * c + ch) (g i ch) arr)
           (seq 0 c) arr)
      (seq i n) (pre ++ repeat 0 (n * c))
    = (pre ++ flat_map (fun i => map (g i) (seq 0 c)) (seq i n))%list.
Proof.
  induction n as [|n IH]; intros i pre Hpre.
  - cbn. reflexivity.
  - cbn [seq fold_left flat_map Nat.mul]. rewrite repeat_app.
    rewrite (fill_row (i * c) (g i) c 0 pre (repeat 0 (n * c)))
      by lia.
    rewrite app_assoc, IH by (rewrite length_app, length_map, length_seq; lia).
    rewrite <- app_assoc. reflexivity.
Qed.

Lemma map_nth_seq (A B : Type) (h : A -> B) (d : A) (l : list A) :
  map (fun k => h (nth k l d)) (seq 0 (List.length l)) = map h l.
Proof.
  induction l as [|a l IH]; [reflexivity|].
  cbn [List.length seq map nth]. f_equal.
  rewrite <- seq_shift, map_map. exact IH.
Qed.

Lemma interleave_frames (ab : AudioBuffer) : interleave ab = pcm_frames ab.
Proof.
  unfold interleave, pcm_frames. cbv zeta.
  pose proof (fill_rows (numberOfChannels ab)
             (fun i ch => ToInt16 (scale (nth i (getChannelData ab ch) 0%Q)))
             (ab_length ab) 0 [] eq_refl) as H.
  cbn [app] in H. rewrite H. clear H.
  apply flat_map_ext. intros i.
  unfold getChannelData, numberOfChannels.
  apply (map_nth_seq (fun ch => ToInt16 (scale (nth i ch 0%Q)))).
Qed.

Lemma pcm_frames_length (ab : AudioBuffer) :
  List.length (pcm_frames ab) = (ab_length ab * numberOfChannels ab)%nat.
Proof.
  unfold pcm_frames, numberOfChannels.
  generalize 0%nat. induction (ab_length ab) as [|n IH]; intros s;
    cbn [seq flat_map]; [reflexivity|].
  rewrite length_app, length_map, IH. reflexivity.
Qed.

(** *** Samples *)

Lemma ToInt16_range (q : Q) : -32768 <= ToInt16 q < 32768.
Proof.
  unfold ToInt16.
  pose proof (Z.mod_pos_bound (truncate q) 65536 eq_refl).
  destruct (Z.geb_spec (truncate q mod 65536) 32768); lia.
Qed.

Lemma ToInt16_inject (z : Z) :
  -32768 <= z < 32768 -> ToInt16 (inject_Z z) = z.
Proof.
  intros H. unfold ToInt16, truncate, inject_Z. cbn [Qnum Qden].
  rewrite Z.quot_1_r.
  destruct (Z_lt_ge_dec z 0) as [Hneg|Hpos].
  - replace (z mod 65536) with (z + 65536).
    + destruct (Z.geb_spec (z + 65536) 32768); lia.
    + apply Z.mod_unique with (q := -1); lia.
  - rewrite Z.mod_small by lia.
    destruct (Z.geb_spec z 32768); lia.
Qed.

Lemma scale_pcm_sample (x : Q) : ToInt16 (scale x) = pcm_sample x.
Proof.
  unfold scale, pcm_sample, Math_max, Math_min, lt0.
  destruct (Qle_bool 1 x).
  - change (Qle_bool (-1) 1) with true. cbv iota.
    destruct (Qle_bool 0 1); reflexivity.
  - destruct (Qle_bool (-1) x).
    + destruct (Qle_bool 0 x); reflexivity.
    + destruct (Qle_bool 0 (-1)); reflexivity.
Qed.

(** *** The file *)

Lemma flat_map_map (A B C : Type) (h : A -> B) (F : B -> list C)
  (l : list A) :
  flat_map F (map h l) = flat_map (fun a => F (h a)) l.
Proof.
  induction l as [|a l IH]; cbn; [reflexivity|]. rewrite IH. reflexivity.
Qed.

Lemma flat_map_nth_seq (A B : Type) (F : A -> list B) (d : A) (l : list A) :
  flat_map (fun k => F (nth k l d)) (seq 0 (List.length l)) = flat_map F l.
Proof.
  rewrite !flat_map_concat_map. f_equal. apply map_nth_seq.
Qed.

Lemma data_bytes (ab : AudioBuffer) :
  flat_map
    (fun j => le_bytes 2 (ToInt16 (inject_Z (nth j (pcm_frames ab) 0))))
    (seq 0 (List.length (pcm_frames ab)))
  = wav_data ab.
Proof.
  rewrite (flat_map_nth_seq (fun z => le_bytes 2 (ToInt16 (inject_Z z)))).
  unfold pcm_frames, wav_data.
  induction (seq 0 (ab_length ab)) as [|i l IH]; [reflexivity|].
  cbn [flat_map]. rewrite flat_map_app, IH. f_equal.
  rewrite flat_map_map. apply flat_map_ext. intros ch.
  rewrite ToInt16_inject by apply ToInt16_range.
  rewrite scale_pcm_sample. reflexivity.
Qed.

Lemma wav_header_length (rate : Z) (f c : nat) :
  List.length (wav_header rate f c) = 44%nat.
Proof. reflexivity. Qed.

Lemma flat_map_length_const (A B : Type) (F : A -> list B) (k : nat)
  (l : list A) :
  (forall a, List.length (F a) = k) ->
  List.length (flat_map F l) = (k * List.length l)%nat.
Proof.
  intros H. induction l as [|a l IH]; cbn [flat_map List.length]; [lia|].
  rewrite length_app, H, IH. lia.
Qed.

Lemma wav_data_length (ab : AudioBuffer) :
  List.length (wav_data ab)
  = (2 * ab_length ab * numberOfChannels ab)%nat.
Proof.
  unfold wav_data, numberOfChannels.
  rewrite (@flat_map_length_const _ _ _
             (2 * List.length (channelData ab))).
  - rewrite length_seq. lia.
  - intros i. apply flat_map_length_const. intros ch. reflexivity.
Qed.

(** On a well-formed buffer the encoder succeeds and writes the layout
    above. *)
Lemma encodeWav_wav_file (ab : AudioBuffer) :
  well_formed ab -> encodeWav ab = Some (wav_file ab).
Proof.
  intros Hwf. unfold encodeWav. cbv zeta.
  set (f := ab_length ab). set (c := numberOfChannels ab).
  replace (f * c * 2 + 44)%nat with (44 + f * c * 2)%nat at 2 by lia.
  rewrite repeat_app, writeHeader_zeros. cbn [bind].
  set (d0 := repeat 0 (f * c * 2)).
  assert (Hhdr :
    (ascii_bytes "RIFF" ++ le_bytes 4 (Z.of_nat (f * c * 2 + 44) - 8)
     ++ ascii_bytes "WAVE" ++ ascii_bytes "fmt "
     ++ le_bytes 4 16 ++ le_bytes 2 1 ++ le_bytes 2 (Z.of_nat c)
     ++ le_bytes 4 (sampleRate ab)
     ++ le_bytes 4 (sampleRate ab * Z.of_nat c * 2)
     ++ le_bytes 2 (Z.of_nat c * 2) ++ le_bytes 2 16
     ++ ascii_bytes "data"
     ++ le_bytes 4 (Z.of_nat (f * c * 2 + 44) - 44) ++ d0)%list
    = (wav_header (sampleRate ab) f c ++ d0)%list).
  { unfold wav_header. rewrite <- !app_assoc.
    replace (Z.of_nat (f * c * 2 + 44) - 8)
      with (Z.of_nat (44 + 2 * f * c) - 8) by lia.
    replace (Z.of_nat (f * c * 2 + 44) - 44)
      with (Z.of_nat (2 * f * c)) by lia.
    replace (sampleRate ab * Z.of_nat c * 2)
      with (sampleRate ab * 2 * Z.of_nat c) by lia.
    replace (Z.of_nat c * 2) with (2 * Z.of_nat c) by lia.
    reflexivity. }
  rewrite Hhdr. clear Hhdr.
  set (hdr := wav_header (sampleRate ab) f c).
  destruct (@writeChannels_data ab hdr Hwf (wav_header_length _ _ _)
              c 0%nat d0) as (d' & Hrun & Hlen).
  { reflexivity. }
  { unfold d0. rewrite repeat_length. fold f c. lia. }
  unfold writeChannels, for_. fold c. rewrite Hrun. cbn [bind].
  rewrite interleave_frames. unfold writeInterleaved, for_.
  assert (Hd' : List.length d' = (2 * List.length (pcm_frames ab))%nat).
  { rewrite Hlen. unfold d0. rewrite repeat_length, pcm_frames_length.
    fold f c. lia. }
  pose proof (write16_run 44
                (fun j => ToInt16 (inject_Z (nth j (pcm_frames ab) 0)))
                (List.length (pcm_frames ab)) 0 hdr d' [] eq_refl Hd') as H.
  cbv beta in H. rewrite app_nil_r in H. unfold setInt16. rewrite H.
  rewrite data_bytes, app_nil_r. reflexivity.
Qed.

Lemma le_value_le_bytes (n : nat) : forall v,
  le_value (le_bytes n v) = v mod 256 ^ Z.of_nat n.
Proof.
  induction n as [|n IH]; intros v.
  - cbn. rewrite Z.mod_1_r. reflexivity.
  - cbn [le_bytes le_value]. rewrite IH.
    rewrite Nat2Z.inj_succ, Z.pow_succ_r by lia.
    rewrite Z.rem_mul_r by lia. reflexivity.
Qed.

Lemma header_fields (rate : Z) (f c : nat) (data : list Z) :
  let w := (wav_header rate f c ++ data)%list in
  getUint 4 4 w = (Z.of_nat (44 + 2 * f * c) - 8) mod 2 ^ 32 /\
  getUint 2 20 w = 1 /\
  getUint 2 22 w = Z.of_nat c mod 2 ^ 16 /\
  getUint 4 24 w = rate mod 2 ^ 32 /\
  getUint 4 28 w = (rate * 2 * Z.of_nat c) mod 2 ^ 32 /\
  getUint 2 32 w = (2 * Z.of_nat c) mod 2 ^ 16 /\
  getUint 2 34 w = 16 /\
  getUint 4 40 w = Z.of_nat (2 * f * c) mod 2 ^ 32.
Proof.
  cbv zeta.
  change (2 ^ 32) with (256 ^ Z.of_nat 4).
  change (2 ^ 16) with (256 ^ Z.of_nat 2).
  rewrite <- !le_value_le_bytes.
  repeat split; reflexivity.
Qed.

(** C10: for a blob that is not already WAV and decodes to a buffer of
    [f] frames in [c] channels, [convertBlobToWav] returns
    [44 + 2 * f * c] bytes; read as little-endian unsigned fields the
    header holds the total size less 8, format 1, the channel count, the
    sample rate, the byte rate [sampleRate * 2 * c], the block align
    [2 * c], 16 bits per sample and the data length [2 * f * c] (each
    modulo the width of its field); after the header come the samples
    frame by frame, channel by channel within a frame, each clamped to
    [-1, 1], scaled by 0x8000 if negative and by 0x7fff otherwise, stored
    as a signed 16-bit integer, low byte first. *)
Theorem convertBlobToWav_layout
  (decodeAudioData : list Z -> option AudioBuffer) (blob : Blob)
  (ab : AudioBuffer) :
  blob_type blob <> "audio/wav"%string ->
  decodeAudioData (blob_bytes blob) = Some ab ->
  well_formed ab ->
  let f := ab_length ab in
  let c := numberOfChannels ab in
  exists wav,
    convertBlobToWav decodeAudioData blob = Some wav /\
    List.length wav = (44 + 2 * f * c)%nat /\
    firstn 4 wav = ascii_bytes "RIFF" /\
    getUint 4 4 wav = (Z.of_nat (List.length wav) - 8) mod 2 ^ 32 /\
    getUint 2 20 wav = 1 /\
    getUint 2 22 wav = Z.of_nat c mod 2 ^ 16 /\
    getUint 4 24 wav = sampleRate ab mod 2 ^ 32 /\
    getUint 4 28 wav = (sampleRate ab * 2 * Z.of_nat c) mod 2 ^ 32 /\
    getUint 2 32 wav = (2 * Z.of_nat c) mod 2 ^ 16 /\
    getUint 2 34 wav = 16 /\
    getUint 4 40 wav = Z.of_nat (2 * f * c) mod 2 ^ 32 /\
    skipn 44 wav = wav_data ab /\
    wav = wav_file ab.
Proof.
  intros Hty Hdec Hwf f c. exists (wav_file ab).
  assert (Hlen : List.length (wav_file ab) = (44 + 2 * f * c)%nat).
  { unfold wav_file. rewrite length_app, wav_header_length, wav_data_length.
    reflexivity. }
  split.
  { unfold convertBlobToWav. apply String.eqb_neq in Hty. rewrite Hty.
    rewrite Hdec. cbn [bind]. apply encodeWav_wav_file. exact Hwf. }
  split; [exact Hlen|].
  split; [reflexivity|].
  rewrite Hlen.
  destruct (header_fields (sampleRate ab) f c (wav_data ab))
    as (H1 & H2 & H3 & H4 & H5 & H6 & H7 & H8).
  unfold wav_file. fold f c.
  repeat (split; [assumption|]).
  split; reflexivity.
Qed.

Lemma convertBlobToWav_layout_witness :
  exists wav,
    convertBlobToWav (fun _ => Some stereo) webm = Some wav /\
    List.length wav = (44 + 2 * 3 * 2)%nat /\
    firstn 4 wav = ascii_bytes "RIFF" /\
    getUint 4 4 wav = (Z.of_nat (List.length wav) - 8) mod 2 ^ 32 /\
    getUint 2 20 wav = 1 /\
    getUint 2 22 wav = Z.of_nat 2 mod 2 ^ 16 /\
    getUint 4 24 wav = 48000 mod 2 ^ 32 /\
    getUint 4 28 wav = (48000 * 2 * Z.of_nat 2) mod 2 ^ 32 /\
    getUint 2 32 wav = (2 * Z.of_nat 2) mod 2 ^ 16 /\
    getUint 2 34 wav = 16 /\
    getUint 4 40 wav = Z.of_nat (2 * 3 * 2) mod 2 ^ 32 /\
    skipn 44 wav = wav_data stereo /\
    wav = wav_file stereo.
Proof.
  apply (@convertBlobToWav_layout (fun _ => Some stereo) webm stereo).
  - discriminate.
  - reflexivity.
  - repeat constructor.
Defined.

End WavProofs.

(** ** The upload machine beyond the retry scenario *)

Module UploadInvariants.
Import Upload UploadControl.
Local Open Scope string_scope.

Lemma dispatchAll_inv (P : UploadState -> Prop) :
  (forall s a, P s -> P (uploadReducer s a)) ->
  forall actions s, P s -> P (dispatchAll actions s).
Proof.
  intros step actions. unfold dispatchAll.
  induction actions as [|a actions IH]; intros s Hs; [exact Hs|].
  cbn [fold_left]. apply IH, step, Hs.
Qed.

(** X1.  Whatever actions are dispatched from the initial state, a state
    whose status is [completed] carries an output link and a state whose
    status is [failed] carries an error message. *)
Theorem terminal_status_has_its_payload (actions : list UploadAction) :
  let s := dispatchAll actions initialUploadState in
  match status s with
  | completed => exists url, outputLink s = Some url
  | failed => exists message, error s = Some message
  | _ => True
  end.
Proof.
  cbv zeta.
  apply (dispatchAll_inv
           (fun s => match status s with
                     | completed => exists url, outputLink s = Some url
                     | failed => exists message, error s = Some message
                     | _ => True
                     end)).
  - intros s a Hs. destruct a; cbn; try exact I; try exact Hs; eauto.
  - exact I.
Qed.

(** *** What each operation does to the requests and the timers *)

Lemma newest_In (w : World) (x : Xhr) : newest w = Some x -> In x (sent w).
Proof.
  unfold newest. induction (sent w) as [|y l IH]; [discriminate|].
  destruct l as [|z l].
  - cbn. intros [= ->]. now left.
  - intros H. right. apply IH. exact H.
Qed.

Lemma bounded_ext (w w' : World) :
  sent w' = sent w -> timeouts w' = timeouts w ->
  bounded_retries w -> bounded_retries w'.
Proof. unfold bounded_retries. intros -> ->. exact (fun H => H). Qed.

Lemma handleRetry_sent n m w : sent (handleRetry n m w) = sent w.
Proof.
  unfold handleRetry, abortCurrent.
  destruct (Nat.ltb n MAX_UPLOAD_RETRIES); cbn; [|reflexivity].
  destruct (xhrRef w); reflexivity.
Qed.

Lemma handleRetry_timeouts n m w :
  timeouts (handleRetry n m w) =
    if Nat.ltb n MAX_UPLOAD_RETRIES
    then (timeouts w ++ [(RETRY_DELAY, (n + 1)%nat)])%list
    else timeouts w.
Proof.
  unfold handleRetry, abortCurrent.
  destruct (Nat.ltb n MAX_UPLOAD_RETRIES); cbn; [|reflexivity].
  destruct (xhrRef w); reflexivity.
Qed.

Lemma bounded_handleRetry n m w :
  bounded_retries w -> bounded_retries (handleRetry n m w).
Proof.
  intros [Hs Ht]. split.
  - rewrite handleRetry_sent. exact Hs.
  - rewrite handleRetry_timeouts.
    destruct (Nat.ltb n MAX_UPLOAD_RETRIES) eqn:E; [|exact Ht].
    apply Nat.ltb_lt in E. apply Forall_app. split; [exact Ht|].
    constructor; [|constructor]. cbn [fst snd]. split; [reflexivity|].
    unfold MAX_UPLOAD_RETRIES in *. lia.
Qed.

Lemma abortCurrent_sent w : sent (abortCurrent w) = sent w.
Proof. unfold abortCurrent. destruct (xhrRef w); reflexivity. Qed.

Lemma abortCurrent_timeouts w : timeouts (abortCurrent w) = timeouts w.
Proof. unfold abortCurrent. destruct (xhrRef w); reflexivity. Qed.

Lemma abortCurrent_upload w : upload (abortCurrent w) = upload w.
Proof. unfold abortCurrent. destruct (xhrRef w); reflexivity. Qed.

Lemma abortCurrent_intervals w :
  uploadIntervals (abortCurrent w) = uploadIntervals w.
Proof. unfold abortCurrent. destruct (xhrRef w); reflexivity. Qed.


(** What [startUpload] does with ready parameters, field by field. *)
Lemma startUpload_ready (p : Params) (n : nat) (w : World) :
  ready p ->
  exists x,
    xhr_retryCount x = n /\ xhr_id x = List.length (sent w) /\
    sent (startUpload p n w) = (sent w ++ [x])%list /\
    xhrRef (startUpload p n w) = Some x /\
    upload (startUpload p n w) = uploadReducer (upload w) START_UPLOAD /\
    timeouts (startUpload p n w) = timeouts w /\
    uploadIntervals (startUpload p n w)
    = (uploadIntervals w ++ [(List.length (sent w), 0%nat)])%list.
Proof.
  intros (f & v & o & Hf & Hsz & Hv & Hne & Hfind).
  apply String.eqb_neq in Hne.
  pose proof (find_some _ _ Hfind) as [_ Ho]. apply String.eqb_eq in Ho.
  apply Nat.eqb_neq in Hsz.
  unfold startUpload.
  rewrite Hf, Hv, Hne, Hfind, Ho, Hne. cbn [file_size]. rewrite Hsz.
  eexists. cbn.
  rewrite abortCurrent_sent, abortCurrent_timeouts, abortCurrent_upload,
    abortCurrent_intervals. cbn.
  repeat split; reflexivity.
Qed.

Lemma bounded_startUpload (p : Params) (n : nat) (w : World) :
  (n <= MAX_UPLOAD_RETRIES)%nat ->
  bounded_retries w -> bounded_retries (startUpload p n w).
Proof.
  intros Hn Hw. unfold startUpload.
  assert (H0 : bounded_retries (dispatchUpload START_UPLOAD w))
    by (apply (@bounded_ext w _); [reflexivity|reflexivity|exact Hw]).
  assert (Hfail : forall m,
            bounded_retries
              (dispatchUpload (FAIL m) (dispatchUpload START_UPLOAD w)))
    by (intros m; apply (@bounded_ext w _); [reflexivity|reflexivity|exact Hw]).
  destruct (selectedFile p) as [f|]; [|apply Hfail].
  destruct (selectedVoice p) as [v|]; [|apply Hfail].
  destruct (String.eqb v EmptyString); [apply Hfail|].
  destruct (find _ (voices p)) as [o|]; [|apply Hfail].
  destruct (String.eqb (apiName o) EmptyString); [apply Hfail|].
  cbn [file_size].
  destruct (Nat.eqb (file_size f) 0).
  - apply bounded_handleRetry.
    apply (@bounded_ext w _); cbn;
      [rewrite abortCurrent_sent; reflexivity
      |rewrite abortCurrent_timeouts; reflexivity|exact Hw].
  - destruct Hw as [Hs Ht]. split; cbn.
    + rewrite abortCurrent_sent. cbn. apply Forall_app. split; [exact Hs|].
      constructor; [exact Hn|constructor].
    + rewrite abortCurrent_timeouts. exact Ht.
Qed.

Lemma startProcessingAnimation_sent cb w :
  sent (startProcessingAnimation cb w) = sent w.
Proof. reflexivity. Qed.

Lemma bounded_done x st txt body w :
  bounded_retries w -> bounded_retries (onreadystatechange_done x st txt body w).
Proof.
  intros Hw. unfold onreadystatechange_done.
  assert (H0 : bounded_retries (clearUploadInterval (xhr_id x) w))
    by (apply (@bounded_ext w _); [reflexivity|reflexivity|exact Hw]).
  destruct (Nat.eqb st 200).
  - destruct body as [m|a b c d].
    + apply bounded_handleRetry, H0.
    + destruct (truthy a || truthy b || truthy c).
      * apply (@bounded_ext w _); [reflexivity|reflexivity|exact Hw].
      * destruct (truthy d).
        -- apply (@bounded_ext w _); [reflexivity|reflexivity|exact Hw].
        -- apply bounded_handleRetry, H0.
  - apply bounded_handleRetry, H0.
Qed.

Lemma uploadIntervalTick_sent id w : sent (uploadIntervalTick id w) = sent w.
Proof.
  unfold uploadIntervalTick.
  destruct (find _ (uploadIntervals w)) as [[i k]|]; [|reflexivity].
  destruct (100 <=? k + 1)%nat; reflexivity.
Qed.

Lemma uploadIntervalTick_timeouts id w :
  timeouts (uploadIntervalTick id w) = timeouts w.
Proof.
  unfold uploadIntervalTick.
  destruct (find _ (uploadIntervals w)) as [[i k]|]; [|reflexivity].
  destruct (100 <=? k + 1)%nat; reflexivity.
Qed.

Lemma bounded_step (p : Params) (e : Event) (w : World) :
  bounded_retries w -> bounded_retries (step p e w).
Proof.
  intros Hw. unfold step, step_with. destruct e.
  - destruct (newest w) as [x|]; [|exact Hw].
    apply bounded_handleRetry, Hw.
  - destruct (newest w) as [x|]; [|exact Hw].
    apply bounded_handleRetry, Hw.
  - destruct (newest w) as [x|]; [|exact Hw].
    apply bounded_done, Hw.
  - destruct (timeouts w) as [|[d n] rest] eqn:E; [exact Hw|].
    destruct Hw as [Hs Ht]. rewrite E in Ht.
    apply Forall_cons_iff in Ht. destruct Ht as [[_ Hn] Hrest].
    apply bounded_startUpload; [exact Hn|]. split; [exact Hs|exact Hrest].
  - apply (@bounded_ext w _);
      [apply uploadIntervalTick_sent|apply uploadIntervalTick_timeouts|exact Hw].
Qed.

(** X2.  However the platform orders its events after [startUpload()],
    no request is ever sent with a retry count above
    [MAX_UPLOAD_RETRIES], and every retry that is pending waits
    [RETRY_DELAY] and carries a count within the limit. *)
Theorem retry_counts_stay_bounded (p : Params) (es : list Event) :
  bounded_retries (run p es (startUpload p 0 initialWorld)).
Proof.
  assert (H0 : bounded_retries (startUpload p 0 initialWorld)).
  { apply bounded_startUpload; [unfold MAX_UPLOAD_RETRIES; lia|].
    split; constructor. }
  revert H0. generalize (startUpload p 0 initialWorld).
  unfold run. induction es as [|e es IH]; intros w Hw; [exact Hw|].
  cbn [fold_left]. apply IH, bounded_step, Hw.
Qed.

(** X3.  [startUpload] sends a request exactly when a non-empty file is
    selected and the selected voice is in the catalogue; otherwise the
    number of requests is unchanged.  Either way the status it leaves is
    [uploading] or [failed]. *)
Theorem startUpload_sends_iff_ready (p : Params) (n : nat) (w : World) :
  let w' := startUpload p n w in
  (attempts w' = S (attempts w) <-> ready p) /\
  (attempts w' = attempts w \/ attempts w' = S (attempts w)) /\
  (status (upload w') = uploading \/ status (upload w') = failed).
Proof.
  cbv zeta. unfold attempts.
  assert (Hfail : forall m,
            let w' := dispatchUpload (FAIL m) (dispatchUpload START_UPLOAD w) in
            List.length (sent w') = List.length (sent w) /\
            status (upload w') = failed)
    by (intros m; split; reflexivity).
  assert (Hretry : forall m w0,
            sent w0 = sent w -> status (upload w0) = uploading ->
            let w' := handleRetry n m w0 in
            List.length (sent w') = List.length (sent w) /\
            (status (upload w') = uploading \/ status (upload w') = failed)).
  { intros m w0 Hs Hu. cbv zeta. rewrite handleRetry_sent, Hs.
    split; [reflexivity|].
    unfold handleRetry. destruct (Nat.ltb n MAX_UPLOAD_RETRIES); cbn.
    - left. rewrite abortCurrent_upload. exact Hu.
    - right. reflexivity. }
  assert (Hnot : forall k : nat, k <> S k) by (intros k; lia).
  unfold startUpload, ready.
  destruct (selectedFile p) as [f|] eqn:Hf.
  2:{ destruct (Hfail "No file selected") as [E1 E2]. rewrite E1.
      repeat split; auto.
      - intros H; exfalso; exact (Hnot _ H).
      - intros (f & v & o & H & _); discriminate. }
  destruct (selectedVoice p) as [v|] eqn:Hv.
  2:{ destruct (Hfail "No voice selected. Please select a voice.")
        as [E1 E2]. rewrite E1.
      repeat split; auto.
      - intros H; exfalso; exact (Hnot _ H).
      - intros (f' & v' & o & _ & _ & H & _); discriminate. }
  destruct (String.eqb v EmptyString) eqn:Hne.
  { destruct (Hfail "No voice selected. Please select a voice.")
      as [E1 E2]. rewrite E1.
    repeat split; auto.
    - intros H; exfalso; exact (Hnot _ H).
    - intros (f' & v' & o & _ & _ & [= <-] & H & _).
      apply String.eqb_eq in Hne. contradiction. }
  destruct (find _ (voices p)) as [o|] eqn:Hfind.
  2:{ destruct (Hfail "Selected voice not found") as [E1 E2]. rewrite E1.
      repeat split; auto.
      - intros H; exfalso; exact (Hnot _ H).
      - intros (f' & v' & o & _ & _ & [= <-] & _ & H).
        rewrite Hfind in H. discriminate. }
  pose proof (find_some _ _ Hfind) as [_ Ho]. apply String.eqb_eq in Ho.
  rewrite Ho, Hne. cbn [file_size].
  destruct (Nat.eqb (file_size f) 0) eqn:Hsz.
  - match goal with
    | |- context [handleRetry n ?m ?w0] =>
        destruct (Hretry m w0) as [E1 E2];
          [cbn; rewrite abortCurrent_sent; reflexivity
          |cbn; rewrite abortCurrent_upload; reflexivity|]
    end.
    rewrite E1. repeat split; auto.
    + intros H; exfalso; exact (Hnot _ H).
    + intros (f' & v' & o' & [= <-] & H & _).
      apply Nat.eqb_eq in Hsz. contradiction.
  - cbn. rewrite abortCurrent_sent, abortCurrent_upload. cbn.
    rewrite length_app, Nat.add_1_r.
    repeat split; auto.
    intros _. exists f, v, o. apply Nat.eqb_neq in Hsz.
    apply String.eqb_neq in Hne. repeat split; assumption.
Qed.

(** *** The progress interval *)

Lemma tick_below (id j : nat) (w : World) :
  uploadIntervals w = [(id, j)] -> (S j < 100)%nat ->
  uploadIntervals (uploadIntervalTick id w) = [(id, S j)] /\
  upload (uploadIntervalTick id w)
  = uploadReducer (upload w)
      (SET_UPLOAD_PROGRESS (inject_Z (Z.of_nat (S j)))) /\
  xhrRef (uploadIntervalTick id w) = xhrRef w.
Proof.
  intros H Hj. unfold uploadIntervalTick. rewrite H.
  cbn [find fst]. rewrite Nat.eqb_refl, Nat.add_1_r.
  destruct (100 <=? S j)%nat eqn:E; [apply Nat.leb_le in E; lia|].
  cbn. rewrite H. cbn. rewrite Nat.eqb_refl. repeat split; reflexivity.
Qed.

Lemma tick_last (id : nat) (w : World) :
  uploadIntervals w = [(id, 99%nat)] ->
  uploadIntervals (uploadIntervalTick id w) = [] /\
  status (upload (uploadIntervalTick id w)) = processing /\
  progress (upload (uploadIntervalTick id w)) = 100%Q /\
  xhrRef (uploadIntervalTick id w) = xhrRef w.
Proof.
  intros H. unfold uploadIntervalTick. rewrite H.
  cbn [find fst]. rewrite Nat.eqb_refl.
  change (100 <=? 99 + 1)%nat with true. cbn. rewrite H. cbn.
  rewrite Nat.eqb_refl. repeat split; reflexivity.
Qed.

Lemma tick_none (id : nat) (w : World) :
  uploadIntervals w = [] -> uploadIntervalTick id w = w.
Proof. intros H. unfold uploadIntervalTick. rewrite H. reflexivity. Qed.

Lemma progressTicks_S id k w :
  progressTicks id (S k) w = uploadIntervalTick id (progressTicks id k w).
Proof. reflexivity. Qed.

Lemma progressTicks_below (id : nat) (w : World) :
  uploadIntervals w = [(id, 0%nat)] ->
  forall k, (0 < k < 100)%nat ->
    uploadIntervals (progressTicks id k w) = [(id, k)] /\
    status (upload (progressTicks id k w)) = status (upload w) /\
    progress (upload (progressTicks id k w)) = inject_Z (Z.of_nat k) /\
    xhrRef (progressTicks id k w) = xhrRef w.
Proof.
  intros H k. induction k as [|k IH]; [lia|]. intros Hk.
  rewrite progressTicks_S.
  destruct k as [|k].
  - destruct (@tick_below id 0%nat w H) as (E1 & E2 & E3); [lia|].
    change (progressTicks id 0 w) with w.
    rewrite E1, E2, E3. repeat split; reflexivity.
  - destruct IH as (I1 & I2 & I3 & I4); [lia|].
    destruct (@tick_below _ _ _ I1) as (E1 & E2 & E3); [lia|].
    rewrite E1, E2, E3, I4. cbn [uploadReducer status progress].
    rewrite I2. repeat split; reflexivity.
Qed.

(** X4.  The progress shown while uploading is driven by a timer alone: after
    [startUpload] with ready parameters the interval of the new request
    sets the progress to [k] at its [k]-th firing; at the 100th firing it
    sets 100, removes itself and moves the state to [processing], whether
    or not the request has been answered (it is still in flight).  A
    firing after that does nothing. *)
Theorem progress_interval_ends_in_processing
  (p : Params) (n : nat) (w : World) :
  ready p -> uploadIntervals w = [] ->
  let w1 := startUpload p n w in
  let id := attempts w in
  (forall k, (0 < k < 100)%nat ->
     status (upload (progressTicks id k w1)) = uploading /\
     progress (upload (progressTicks id k w1)) = inject_Z (Z.of_nat k)) /\
  status (upload (progressTicks id 100 w1)) = processing /\
  progress (upload (progressTicks id 100 w1)) = 100%Q /\
  uploadIntervals (progressTicks id 100 w1) = [] /\
  xhrRef (progressTicks id 100 w1) = xhrRef w1 /\ xhrRef w1 <> None /\
  progressTicks id 101 w1 = progressTicks id 100 w1.
Proof.
  intros Hp Hw. cbv zeta. unfold attempts.
  destruct (startUpload_ready n w Hp)
    as (x & _ & _ & _ & Hx & Hu & _ & Hi).
  rewrite Hw in Hi. cbn [app] in Hi.
  revert Hx Hu Hi. generalize (startUpload p n w).
  generalize (List.length (sent w)). intros id w1 Hx Hu Hi.
  pose proof (@progressTicks_below _ _ Hi) as Hk.
  split.
  - intros k Hlt. destruct (Hk k Hlt) as (_ & E2 & E3 & _).
    rewrite E2, E3, Hu. split; reflexivity.
  - destruct (Hk 99%nat) as (E1 & _ & _ & E4); [lia|].
    rewrite (progressTicks_S id 100), (progressTicks_S id 99).
    revert E1 E4. generalize (progressTicks id 99 w1). intros w99 E1 E4.
    destruct (@tick_last _ _ E1) as (F1 & F2 & F3 & F4).
    rewrite (@tick_none id _ F1), F2, F3, F4, E4, Hx.
    repeat split; try reflexivity; [exact F1|discriminate].
Qed.

Lemma progress_interval_ends_in_processing_witness :
  status (upload (progressTicks 0 100 (startUpload sampleParams 0 initialWorld)))
  = processing.
Proof.
  refine (proj1 (proj2
    (@progress_interval_ends_in_processing sampleParams 0%nat initialWorld
       _ eq_refl))).
  exists {| file_name := "clip.wav"; file_type := "audio/wav";
            file_size := 4096 |},
         "en-US-natalie", {| apiName := "en-US-natalie" |}.
  repeat split; try reflexivity; discriminate.
Defined.



(** X6.  A file that cannot be prepared is retried like a network
    failure: with an empty file and a voice from the catalogue no request
    is ever sent, each of the first three calls of [startUpload] schedules
    a retry, and the fourth fails with the message about 3 attempts. *)
Theorem empty_file_is_retried_then_fails (p : Params) :
  emptyFile p ->
  let w0 := startUpload p 0 initialWorld in
  let w3 := run p [TimerFires; TimerFires; TimerFires] w0 in
  (attempts w0 = 0%nat /\ status (upload w0) = uploading /\
   timeouts w0 = [(RETRY_DELAY, 1%nat)]) /\
  (attempts w3 = 0%nat /\ status (upload w3) = failed /\ timeouts w3 = [] /\
   List.length (toasts w3) = 4%nat /\
   error (upload w3)
   = Some ("Upload failed after 3 attempts: "
           ++ "Failed to prepare upload: Invalid file data")).
Proof.
  intros (f & v & o & Hf & Hsz & Hv & Hne & Hfind).
  apply String.eqb_neq in Hne.
  pose proof (find_some _ _ Hfind) as [_ Ho]. apply String.eqb_eq in Ho.
  set (su := fun n w =>
     let w := abortCurrent (dispatchUpload START_UPLOAD w) in
     let x := {| xhr_id := List.length (sent w);
                 xhr_retryCount := n; xhr_timeout := UPLOAD_TIMEOUT;
                 xhr_url := UPLOAD_API_URL;
                 xhr_body :=
                   {| fd_file := {| file_name := file_name f;
                                    file_type := type_or_wav (file_type f);
                                    file_size := file_size f |};
                      fd_voice_id := v; fd_retain_prosody := "true";
                      fd_multi_native_locale := selectedLanguageId p;
                      fd_style := "natural" |} |} in
     handleRetry n "Failed to prepare upload: Invalid file data"
       {| upload := upload w; toasts := toasts w; xhrRef := Some x;
          sent := sent w; aborted := aborted w; timeouts := timeouts w;
          uploadIntervals := uploadIntervals w;
          animations := animations w |}).
  assert (Hs : forall n w, startUpload p n w = su n w).
  { intros n w. unfold su, startUpload.
    rewrite Hf, Hv, Hne, Hfind, Ho, Hne. cbn [file_size]. rewrite Hsz.
    reflexivity. }
  cbv zeta. rewrite (@UploadProofs.run_ext p su Hs), Hs.
  vm_compute. repeat split.
Qed.

Lemma empty_file_is_retried_then_fails_witness :
  attempts (run emptyParams [TimerFires; TimerFires; TimerFires]
              (startUpload emptyParams 0 initialWorld)) = 0%nat.
Proof.
  refine (proj1 (proj2 (@empty_file_is_retried_then_fails emptyParams _))).
  exists {| file_name := "clip.wav"; file_type := "audio/wav";
            file_size := 0 |},
         "en-US-natalie", {| apiName := "en-US-natalie" |}.
  repeat split; try reflexivity; discriminate.
Defined.

End UploadInvariants.

(** ** File validation *)

Module ValidationProofs.
Import Validation.
Local Open Scope string_scope.

Lemma includes_In (l : list string) (s : string) :
  includes l s = true <-> In s l.
Proof.
  unfold includes. rewrite existsb_exists. split.
  - intros (x & Hx & E). apply String.eqb_eq in E. subst. exact Hx.
  - intros H. exists s. split; [exact H|apply String.eqb_refl].
Qed.

(** X7.  [validateFile] accepts a file exactly when its size is between
    1 KB and 25 MB, the lower-cased last segment of its name is one of the
    four extensions, its MIME type is one of the four types, and the
    duration probe loaded a duration that is not above 60 seconds; the
    error text is empty exactly for an accepted file. *)
Theorem validateFile_accepts_iff (file : Upload.File) (probe : DurationProbe) :
  let verdict := validateFile (Some file) probe in
  (isValid verdict = true <->
   (MIN_FILE_SIZE <= Z.of_nat (Upload.file_size file) <= MAX_FILE_SIZE)%Z /\
   In (fileExtension (Upload.file_name file)) ALLOWED_FILE_EXTENSIONS /\
   In (Upload.file_type file) ALLOWED_FILE_TYPES /\
   exists duration,
     probe = Loaded duration /\ gt duration MAX_DURATION = false) /\
  (isValid verdict = true <-> error verdict = EmptyString).
Proof.
  cbv zeta. unfold validateFile.
  assert (Hmin : (0 < MIN_FILE_SIZE)%Z) by reflexivity.
  destruct (Z.eqb_spec (Z.of_nat (Upload.file_size file)) 0) as [E0|E0].
  { cbn [isValid error]. split; split; try discriminate. intros ([H _] & _). exfalso; lia. }
  destruct (Z.ltb_spec (Z.of_nat (Upload.file_size file)) MIN_FILE_SIZE)
    as [E1|E1].
  { cbn [isValid error]. split; split; try discriminate. intros ([H _] & _). exfalso; lia. }
  destruct (Z.ltb_spec MAX_FILE_SIZE (Z.of_nat (Upload.file_size file)))
    as [E2|E2].
  { cbn [isValid error]. split; split; try discriminate. intros ([_ H] & _). exfalso; lia. }
  destruct (includes ALLOWED_FILE_EXTENSIONS _) eqn:E3; cbn [negb].
  2:{ cbn [isValid error]. split; split; try discriminate. intros (_ & H & _).
      apply includes_In in H. congruence. }
  destruct (includes ALLOWED_FILE_TYPES _) eqn:E4; cbn [negb].
  2:{ cbn [isValid error]. split; split; try discriminate. intros (_ & _ & H & _).
      apply includes_In in H. congruence. }
  apply includes_In in E3, E4.
  destruct probe as [d|].
  - destruct (gt d MAX_DURATION) eqn:E5; cbn [isValid error].
    + split; split; try discriminate.
      intros (_ & _ & _ & d' & [= <-] & H). congruence.
    + split; split; try reflexivity.
      intros _. split; [split; assumption|]. split; [exact E3|].
      split; [exact E4|]. exists d. split; [reflexivity|exact E5].
  - cbn [isValid error]. split; split; try discriminate.
    intros (_ & _ & _ & d' & H & _). discriminate.
Qed.

Lemma split_dotless (s : string) :
  dotless s = true -> split "."%char s = [s].
Proof.
  induction s as [|c s IH]; [reflexivity|].
  cbn [dotless split]. intros H. apply andb_prop in H. destruct H as [Hc Hs].
  apply negb_true_iff in Hc. rewrite Hc, (IH Hs). reflexivity.
Qed.

Lemma split_suffix (base ext : string) :
  dotless ext = true ->
  exists seg segs,
    split "."%char (base ++ "." ++ ext) = ((seg :: segs) ++ [ext])%list.
Proof.
  intros H. induction base as [|c base (seg & segs & IH)].
  - cbn. rewrite (split_dotless _ H). exists EmptyString, []. reflexivity.
  - cbn [String.append split]. fold (String.append "." ext).
    fold (String.append base ("." ++ ext)). rewrite IH.
    destruct (Ascii.eqb c "."%char).
    + exists EmptyString, (seg :: segs). reflexivity.
    + exists (String c seg), segs. reflexivity.
Qed.

Lemma pop_last (l : list string) (s : string) :
  pop (l ++ [s]) = Some s.
Proof. unfold pop. rewrite map_app. apply last_last. Qed.

(** X8.  The extension that is checked is the part of the name after its
    last dot, lower-cased; a name without any dot is taken as its own
    extension. *)
Theorem fileExtension_last_segment (base ext : string) :
  dotless ext = true ->
  fileExtension (base ++ "." ++ ext) = "." ++ toLowerCase ext /\
  fileExtension ext = "." ++ toLowerCase ext.
Proof.
  intros H. unfold fileExtension. split.
  - destruct (@split_suffix base ext H) as (seg & segs & E).
    rewrite E, pop_last. reflexivity.
  - rewrite (split_dotless _ H). reflexivity.
Qed.

Lemma fileExtension_last_segment_witness :
  fileExtension ("take.1" ++ "." ++ "WAV") = "." ++ toLowerCase "WAV" /\
  fileExtension "WAV" = "." ++ toLowerCase "WAV".
Proof.
  apply (@fileExtension_last_segment "take.1" "WAV"). reflexivity.
Defined.

End ValidationProofs.

(** ** Selecting a file, and the processing animation *)

Module PageProofs.
Import Page.
Local Open Scope string_scope.

(** X9.  [handleFileSelect] on a file that [validateFile] rejects leaves
    the selected file as it was, stops the recording flag, shows the
    reason of the rejection in a toast and puts the upload state in
    [failed] with the fixed text "Error validating file" (not the reason);
    on an accepted file it resets the upload state and selects the file,
    with no toast. *)
Theorem handleFileSelect_outcome (file : Upload.File)
  (probe : Validation.DurationProbe) (s : State) :
  let verdict := Validation.validateFile (Some file) probe in
  let s' := handleFileSelect file probe s in
  if Validation.isValid verdict then
    selectedFile s' = Some file /\
    upload s' = Upload.initialUploadState /\
    notices s' = notices s /\ isRecording s' = isRecording s
  else
    selectedFile s' = selectedFile s /\
    Upload.status (upload s') = Upload.failed /\
    Upload.error (upload s') = Some "Error validating file" /\
    notices s' = (notices s ++ [(Validation.error verdict, "error")])%list /\
    isRecording s' = false.
Proof.
  cbv zeta. unfold handleFileSelect.
  destruct (Validation.isValid _); cbn; repeat split; reflexivity.
Qed.

Lemma processingTick_idle (s : State) :
  processing s = None -> processingTick s = s.
Proof. intros H. unfold processingTick. rewrite H. reflexivity. Qed.

Lemma ticks_idle (k : nat) (s : State) :
  processing s = None -> ticks k s = s.
Proof.
  intros H. induction k as [|k IH]; [reflexivity|].
  change (ticks (S k) s) with (processingTick (ticks k s)).
  rewrite IH. apply processingTick_idle, H.
Qed.

(** X10.  The path of a response that carries [audio_file]: the animation
    to 90 takes 100 firings; at the 100th the finishing animation starts,
    and it starts from 0, so the progress that was 90 reads 0 again;
    after 40 more firings the progress is 100, the interval is gone and
    the audio element is loading; when it has loaded (or ten seconds
    have passed) the state is [completed] with the response's URL as
    output link. *)
Theorem audio_file_answer_completes
  (url : string) (outcome : AudioOutcome) (s : State) :
  loading s = [] -> outcome <> LoadFailed ->
  let s1 := answered (Upload.CompleteProcessing url) s in
  let s2 := ticks 100 s1 in
  let s3 := ticks 40 s2 in
  let s4 := audioSettles outcome s3 in
  (Upload.status (upload s1) = Upload.processing /\
   Upload.processingProgress (upload s1) = 0%Q) /\
  (Upload.processingProgress (upload (ticks 99 s1)) < 90)%Q /\
  (Upload.processingProgress (upload s2) = 0%Q /\ loading s2 = []) /\
  (Upload.processingProgress (upload s3) = 100%Q /\
   processing s3 = None /\ loading s3 = [url] /\
   Upload.status (upload s3) = Upload.processing) /\
  (Upload.status (upload s4) = Upload.completed /\
   Upload.outputLink (upload s4) = Some url /\
   Upload.processingProgress (upload s4) = 100%Q /\ loading s4 = []).
Proof.
  intros Hl Ho. destruct s as [f u r n pr l]. cbn in Hl. subst l.
  cbv zeta.
  destruct outcome; [| |contradiction]; vm_compute; repeat split.
Qed.

Lemma audio_file_answer_completes_witness :
  Upload.status
    (upload
       (audioSettles MetadataLoaded
          (ticks 40
             (ticks 100
                (answered (Upload.CompleteProcessing "https://cdn/out.wav")
                   initialState)))))
  = Upload.completed.
Proof.
  refine (proj1 (proj2 (proj2 (proj2 (proj2
    (@audio_file_answer_completes "https://cdn/out.wav" MetadataLoaded
       initialState eq_refl _)))))).
  discriminate.
Defined.

(** X11.  When the processed audio fails to load, three toasts are shown
    and the upload state ends [idle] with no error: the two [FAIL]
    actions of [handleError] are overwritten by the [RESET] that follows
    them. *)
Theorem failed_audio_load_resets (url : string) (s : State) :
  loading s = [] ->
  let s3 := ticks 40 (ticks 100 (answered (Upload.CompleteProcessing url) s)) in
  let s4 := audioSettles LoadFailed s3 in
  upload s4 = Upload.initialUploadState /\
  isRecording s4 = false /\
  notices s4
  = (notices s
     ++ [ ("Audio playback error", "error");
          ("Error processing final audio file for playback", "error");
          ("Failed to set up processed audio for playback", "error") ])%list.
Proof.
  intros Hl. destruct s as [f u r n pr l]. cbn in Hl. subst l.
  cbv zeta. split; [vm_compute; reflexivity|].
  split; [vm_compute; reflexivity|].
  cbv -[app]. rewrite <- !app_assoc. reflexivity.
Qed.

Lemma failed_audio_load_resets_witness :
  upload
    (audioSettles LoadFailed
       (ticks 40
          (ticks 100
             (answered (Upload.CompleteProcessing "https://cdn/out.wav")
                initialState))))
  = Upload.initialUploadState.
Proof.
  exact (proj1 (@failed_audio_load_resets "https://cdn/out.wav"
                  initialState eq_refl)).
Defined.

(** X12.  The path of a response that carries a job id: the animation
    runs to 90 and stops there.  Its callback does nothing, so the state
    stays [processing] at 90 with no interval and no audio element
    pending, and no later firing changes it. *)
Theorem job_id_answer_stops_at_90 (s : State) (k : nat) :
  let s2 := ticks 100 (answered Upload.NoCallback s) in
  Upload.status (upload s2) = Upload.processing /\
  Upload.processingProgress (upload s2) = 90%Q /\
  processing s2 = None /\ loading s2 = loading s /\
  ticks k s2 = s2.
Proof.
  cbv zeta.
  assert (H : Upload.status
                (upload (ticks 100 (answered Upload.NoCallback s)))
              = Upload.processing /\
              Upload.processingProgress
                (upload (ticks 100 (answered Upload.NoCallback s))) = 90%Q /\
              processing (ticks 100 (answered Upload.NoCallback s)) = None /\
              loading (ticks 100 (answered Upload.NoCallback s)) = loading s).
  { destruct s as [f u r n pr l]. vm_compute. repeat split. }
  destruct H as (H1 & H2 & H3 & H4).
  repeat split; try assumption. apply ticks_idle, H3.
Qed.

End PageProofs.

(** ** The recording session beyond the limit, and the review *)

Module RecorderMore.
Import Recorder Review RecorderProofs.
Local Open Scope Z_scope.

Lemma intervalFires_cleared (c : Coordinator) :
  intervals c = [] -> intervalFires c = c.
Proof.
  intros H. unfold intervalFires.
  destruct (recordingTimerRef c); [|reflexivity].
  rewrite H. reflexivity.
Qed.

Lemma session_after_limit (j : nat) : session (60 + j) = session 60.
Proof.
  induction j as [|j IH].
  - rewrite Nat.add_0_r. reflexivity.
  - rewrite Nat.add_succ_r, session_S, IH.
    apply intervalFires_cleared. apply session_60.
Qed.

(** X13.  However often the one-second timer is made to fire, the
    recording time shown is the number of firings up to 59 and never
    more; from the 60th firing on the timer is no longer installed and
    the recorder has been asked to stop exactly once. *)
Theorem recording_timer_saturates (k : nat) :
  recordingTime (recordingState (session k)) = Z.min (Z.of_nat k) 59 /\
  stopsPending (session k) = (if (k <? 60)%nat then 0 else 1)%nat /\
  intervals (session k) = (if (k <? 60)%nat then [1%nat] else []).
Proof.
  destruct (Nat.ltb_spec k 60) as [Hk|Hk].
  - destruct (session_counts Hk) as (Hrs & _ & Hiv & _ & Hsp).
    rewrite Hrs, Hiv, Hsp. cbn [recordingTime].
    repeat split. lia.
  - replace k with (60 + (k - 60))%nat by lia.
    rewrite session_after_limit.
    destruct session_60 as (Hrs & Hiv & _ & Hsp).
    rewrite Hrs, Hiv, Hsp. cbn [recordingTime].
    repeat split. lia.
Qed.

(** X14.  A recording stopped by hand before the limit: after [k] seconds
    the 'stopRecording' action and the recorder's [onstop] leave the
    review state with a duration of [k] seconds and the blob URL, the
    timer removed, the microphone released and no [onstop] owed; a late
    firing of the timer changes nothing. *)
Theorem manual_stop_records_elapsed_time (k : nat) (url : string) :
  (k < 60)%nat ->
  let c := onstop url (stopRecording (session k)) in
  recordingState c =
    {| isPopupOpen := true; isRecording := false;
       recordingTime := Z.of_nat k; recordedAudioUrl := Some url;
       recordedDuration := Z.of_nat k; playbackTime := 0%R;
       isPlayingRecordedAudio := false |} /\
  intervals c = [] /\ recordingTimerRef c = None /\
  audioStream c = false /\ mediaRecorder c = Some inactive /\
  stopsPending c = 0%nat /\ intervalFires c = c.
Proof.
  intros Hk. cbv zeta.
  destruct (session_counts Hk) as (Hrs & Href & Hiv & Hmr & Hsp).
  destruct (session k) as [rs up ref iv nx mr sp au ms ch wd rec rw rv].
  cbn in Hrs, Href, Hiv, Hmr, Hsp. subst.
  vm_compute. repeat split.
Qed.

Lemma manual_stop_records_elapsed_time_witness :
  recordedDuration
    (recordingState (onstop "blob:rec" (stopRecording (session 3)))) = 3.
Proof.
  pose proof (@manual_stop_records_elapsed_time 3 "blob:rec"
                ltac:(repeat constructor)) as H.
  cbv zeta in H. destruct H as [H _]. rewrite H. reflexivity.
Defined.

(** X15.  [reRecord] revokes the object URL of the audio element at most
    once: what it revokes is the element's source when that is a [blob:]
    URL, and a second [reRecord] revokes nothing more, since the first
    one removed the source. *)
Theorem reRecord_revokes_at_most_once (c : Coordinator) :
  revokedUrls (reRecord (reRecord c)) = revokedUrls (reRecord c) /\
  exists newly,
    revokedUrls (reRecord c) = (revokedUrls c ++ newly)%list /\
    (List.length newly <= 1)%nat /\
    Forall (fun u => starts_with_blob u = true /\
                     exists a, recorded c = Some a /\ audio_src a = Some u)
           newly.
Proof.
  destruct c as [rs up ref iv nx mr sp au ms ch wd rec rw rv].
  destruct rec as [[[src|] pz ct]|]; cbn;
    [destruct (starts_with_blob src) eqn:E; cbn|..];
    (split; [rewrite ?app_nil_r; reflexivity|]).
  1: exists [src]. 2-4: exists [].
  all: split; [rewrite ?app_nil_r; reflexivity|]; split; [cbn; lia|].
  2-4: constructor.
  constructor; [|constructor]. split; [exact E|].
  eexists. split; reflexivity.
Qed.

(** *** The audio element across the popup's actions *)

Lemma recorded_setRecordingState f c :
  recorded (setRecordingState f c) = recorded c.
Proof. reflexivity. Qed.

Lemma recorded_startRecording c : recorded (startRecording c) = recorded c.
Proof. reflexivity. Qed.

Lemma recorded_intervalFires c : recorded (intervalFires c) = recorded c.
Proof.
  unfold intervalFires.
  destruct (recordingTimerRef c) as [id|] eqn:Href; [|reflexivity].
  destruct (existsb _ _); [|reflexivity].
  unfold recordingTimerTick.
  destruct (_ >=? _); [|reflexivity].
  unfold stopMediaRecorder, clearInterval.
  destruct (mediaRecorder c) as [[|]|]; cbn; rewrite Href; reflexivity.
Qed.

Lemma recorded_stopRecording c : recorded (stopRecording c) = recorded c.
Proof.
  destruct c as [rs up ref iv nx mr sp au ms ch wd rec rw rv].
  destruct mr as [[|]|], ref; reflexivity.
Qed.

Lemma recorded_onstop url c : recorded (onstop url c) = recorded c.
Proof. unfold onstop. destruct (stopsPending c); reflexivity. Qed.

Lemma sourceless_ext c c' :
  recorded c' = recorded c -> sourceless c -> sourceless c'.
Proof. unfold sourceless. intros ->. exact (fun H => H). Qed.

Lemma sourceless_pauseAudio c : sourceless c -> sourceless (pauseAudio c).
Proof.
  intros (a & Ha & Hs). unfold pauseAudio. rewrite Ha.
  eexists. split; [reflexivity|exact Hs].
Qed.

Lemma sourceless_reRecord c a :
  recorded c = Some a -> sourceless (reRecord c).
Proof.
  intros Ha. unfold reRecord, cleanupRecordedAudio. rewrite Ha.
  eexists. split; reflexivity.
Qed.

Lemma sourceless_resetAudioElement c :
  sourceless c -> sourceless (resetAudioElement c).
Proof.
  intros (a & Ha & Hs). unfold resetAudioElement. rewrite Ha.
  eexists. split; [reflexivity|exact Hs].
Qed.

Lemma sourceless_playAudioElement rejection c :
  sourceless c -> sourceless (playAudioElement rejection c).
Proof.
  intros (a & Ha & Hs). unfold playAudioElement. rewrite Ha.
  destruct rejection as [e|].
  - exists a. split; [exact Ha|exact Hs].
  - eexists. split; [reflexivity|exact Hs].
Qed.

Lemma sourceless_playAudio atEnd rejection c :
  sourceless c -> sourceless (playAudio atEnd rejection c).
Proof.
  intros H. pose proof H as (a & Ha & Hs). unfold playAudio. cbv zeta.
  destruct (recordedAudioUrl (recordingState c)) as [url|]; [|exact H].
  destruct (String.eqb url EmptyString); [exact H|].
  repeat (rewrite Ha; cbv beta iota).
  destruct (isPlayingRecordedAudio (recordingState c)).
  - apply sourceless_pauseAudio, H.
  - apply sourceless_playAudioElement.
    destruct (atEnd || _); [apply sourceless_resetAudioElement|]; exact H.
Qed.

Lemma sourceless_perform act c : sourceless c -> sourceless (perform act c).
Proof.
  intros H. destruct act; cbn [perform].
  - apply (@sourceless_ext _ _ (recorded_startRecording c) H).
  - apply (@sourceless_ext _ _ (recorded_intervalFires c) H).
  - apply (@sourceless_ext _ _ (recorded_stopRecording c) H).
  - apply (@sourceless_ext _ _ (recorded_onstop url c) H).
  - apply sourceless_playAudio, H.
  - apply sourceless_pauseAudio, H.
  - destruct H as (a & Ha & _). apply (@sourceless_reRecord _ _ Ha).
Qed.

(** X16.  Once an audio element exists, 'reRecord' removes its source but
    leaves the element in [audioRefs.current.recorded]; whatever the
    popup does next (record again, stop, receive the new URL, play,
    pause, re-record), no element is created for the new recording: the
    one in the ref stays without a source. *)
Theorem reRecord_leaves_sourceless_element
  (c : Coordinator) (a : Audio) (actions : list Action) :
  recorded c = Some a ->
  exists a',
    recorded (performAll actions (reRecord c)) = Some a' /\
    audio_src a' = None.
Proof.
  intros Ha.
  assert (H : sourceless (reRecord c)) by (apply (@sourceless_reRecord _ _ Ha)).
  revert H. generalize (reRecord c). unfold performAll.
  induction actions as [|act actions IH]; intros c0 H; [exact H|].
  cbn [fold_left]. apply IH, sourceless_perform, H.
Qed.

Lemma reRecord_leaves_sourceless_element_witness :
  exists a',
    recorded
      (performAll
         [StartRecording; TimerFires; StopRecording;
          RecorderStopped "blob:next"; PlayAudio false None]
         (reRecord loaded)) = Some a' /\
    audio_src a' = None.
Proof.
  apply (@reRecord_leaves_sourceless_element loaded
           (setupAudioElement "blob:rec")).
  reflexivity.
Defined.

End RecorderMore.

(** ** The popup over its lifetime *)

Module PopupInvariants.
Import Popup PopupRun.
Local Open Scope R_scope.

(** *** Queues of frames *)

Lemma NoDup_map_filter (A B : Type) (f : A -> B) (g : A -> bool)
  (l : list A) :
  NoDup (map f l) -> NoDup (map f (filter g l)).
Proof.
  induction l as [|x l IH]; cbn; intros H; [constructor|].
  inversion H as [|? ? Hn Hd]; subst.
  destruct (g x); cbn; [constructor|]; auto.
  intros Hin. apply Hn. apply in_map_iff in Hin.
  destruct Hin as (y & Hy & Hiny).
  apply in_map_iff. exists y. split; [exact Hy|].
  apply filter_In in Hiny. tauto.
Qed.

Lemma Forall_filter (A : Type) (P : A -> Prop) (g : A -> bool) (l : list A) :
  Forall P l -> Forall P (filter g l).
Proof.
  rewrite !Forall_forall. intros H x Hx. apply filter_In in Hx.
  apply H. tauto.
Qed.

Lemma tidy_filter live pb fr nx g :
  tidy_of live pb fr nx -> tidy_of live pb (filter g fr) nx.
Proof.
  intros (H1 & H2 & H3). split; [|split].
  - apply Forall_filter, H1.
  - apply NoDup_map_filter, H2.
  - apply Forall_filter, H3.
Qed.

Lemma no_live_of_none pb fr nx :
  tidy_of None pb fr nx -> Forall (fun f => is_live f = false) fr.
Proof.
  intros (H1 & _). eapply Forall_impl; [|exact H1].
  intros [id cb]. unfold referenced, is_live. cbn.
  destruct cb; intros H; [discriminate H|reflexivity].
Qed.

Lemma no_playback_of_none live fr nx :
  tidy_of live None fr nx -> Forall (fun f => is_playback f = false) fr.
Proof.
  intros (H1 & _). eapply Forall_impl; [|exact H1].
  intros [id cb]. unfold referenced, is_playback. cbn.
  destruct cb; intros H; [reflexivity|discriminate H].
Qed.

Lemma no_live_after_cancel id pb fr nx :
  tidy_of (Some id) pb fr nx ->
  Forall (fun f => is_live f = false)
         (filter (fun f => negb (Pos.eqb (fst f) id)) fr).
Proof.
  intros (H1 & _). rewrite Forall_forall in *. intros [i cb] Hf.
  apply filter_In in Hf. destruct Hf as [Hin Hne].
  specialize (H1 _ Hin). unfold referenced, is_live in *. cbn in *.
  destruct cb; [|reflexivity].
  injection H1 as ->. rewrite Pos.eqb_refl in Hne. discriminate.
Qed.

Lemma no_playback_after_cancel id live fr nx :
  tidy_of live (Some id) fr nx ->
  Forall (fun f => is_playback f = false)
         (filter (fun f => negb (Pos.eqb (fst f) id)) fr).
Proof.
  intros (H1 & _). rewrite Forall_forall in *. intros [i cb] Hf.
  apply filter_In in Hf. destruct Hf as [Hin Hne].
  specialize (H1 _ Hin). unfold referenced, is_playback in *. cbn in *.
  destruct cb; [reflexivity|].
  injection H1 as ->. rewrite Pos.eqb_refl in Hne. discriminate.
Qed.

Lemma tidy_live_ref live live' pb fr nx :
  tidy_of live pb fr nx -> Forall (fun f => is_live f = false) fr ->
  tidy_of live' pb fr nx.
Proof.
  intros (H1 & H2 & H3) Hn. split; [|split; assumption].
  rewrite Forall_forall in *. intros [i cb] Hf.
  specialize (H1 _ Hf). specialize (Hn _ Hf).
  unfold referenced, is_live in *. cbn in *.
  destruct cb; [discriminate Hn|exact H1].
Qed.

Lemma tidy_playback_ref live pb pb' fr nx :
  tidy_of live pb fr nx -> Forall (fun f => is_playback f = false) fr ->
  tidy_of live pb' fr nx.
Proof.
  intros (H1 & H2 & H3) Hn. split; [|split; assumption].
  rewrite Forall_forall in *. intros [i cb] Hf.
  specialize (H1 _ Hf). specialize (Hn _ Hf).
  unfold referenced, is_playback in *. cbn in *.
  destruct cb; [exact H1|discriminate Hn].
Qed.

Lemma fresh_id (fr : list (positive * Callback)) (nx : positive) :
  Forall (fun f => (fst f < nx)%positive) fr -> ~ In nx (map fst fr).
Proof.
  intros H Hin. apply in_map_iff in Hin. destruct Hin as (f & <- & Hf).
  rewrite Forall_forall in H. specialize (H _ Hf). lia.
Qed.

Lemma tidy_push live pb fr nx cb :
  Forall (referenced live pb) (fr ++ [(nx, cb)]) ->
  tidy_of live pb fr nx ->
  tidy_of live pb (fr ++ [(nx, cb)]) (Pos.succ nx).
Proof.
  intros Href (_ & H2 & H3). split; [exact Href|split].
  - rewrite map_app. cbn [map fst].
    apply NoDup_app; [exact H2|repeat constructor; intros []|].
    intros i Hi [<-|[]]. exact (fresh_id H3 Hi).
  - apply Forall_app. split.
    + eapply Forall_impl; [|exact H3]. cbn. intros f Hf. lia.
    + repeat constructor. cbn. lia.
Qed.

Lemma tidy_schedule_live live pb fr nx p :
  tidy_of live pb fr nx -> Forall (fun f => is_live f = false) fr ->
  tidy_of (Some nx) pb (fr ++ [(nx, LiveLoop p)]) (Pos.succ nx).
Proof.
  intros H Hn. apply tidy_push.
  - apply Forall_app. split; [|repeat constructor].
    apply (tidy_live_ref (Some nx) H Hn).
  - apply (tidy_live_ref (Some nx) H Hn).
Qed.

Lemma tidy_schedule_playback live pb fr nx p :
  tidy_of live pb fr nx -> Forall (fun f => is_playback f = false) fr ->
  tidy_of live (Some nx) (fr ++ [(nx, PlaybackLoop p)]) (Pos.succ nx).
Proof.
  intros H Hn. apply tidy_push.
  - apply Forall_app. split; [|repeat constructor].
    apply (tidy_playback_ref (Some nx) H Hn).
  - apply (tidy_playback_ref (Some nx) H Hn).
Qed.

Lemma filter_at_most_one (P : positive * Callback -> bool) (i : positive)
  (fr : list (positive * Callback)) :
  NoDup (map fst fr) ->
  (forall f, In f fr -> P f = true -> fst f = i) ->
  (List.length (filter P fr) <= 1)%nat.
Proof.
  induction fr as [|x fr IH]; cbn; intros Hd Hi; [lia|].
  inversion Hd as [|? ? Hn Hd']; subst.
  destruct (P x) eqn:Px.
  - assert (E : filter P fr = []).
    { destruct (filter P fr) as [|y l] eqn:Ef; [reflexivity|exfalso].
      assert (Hy : In y (filter P fr)) by (rewrite Ef; now left).
      apply filter_In in Hy. destruct Hy as [Hy Py].
      apply Hn. apply in_map_iff. exists y. split; [|exact Hy].
      rewrite (Hi x), (Hi y); auto. }
    rewrite E. cbn. lia.
  - apply IH; [exact Hd'|]. intros f Hf. apply Hi. now right.
Qed.

Lemma tidy_at_most_one live pb fr nx :
  tidy_of live pb fr nx ->
  (List.length (filter is_live fr) <= 1)%nat /\
  (List.length (filter is_playback fr) <= 1)%nat.
Proof.
  intros (H1 & H2 & _). rewrite Forall_forall in H1. split.
  - apply (@filter_at_most_one is_live
             match live with Some i => i | None => 1%positive end);
      [exact H2|].
    intros [i cb] Hf Hl. specialize (H1 _ Hf).
    unfold referenced, is_live in *. cbn in *.
    destruct cb; [|discriminate Hl]. rewrite H1. reflexivity.
  - apply (@filter_at_most_one is_playback
             match pb with Some i => i | None => 1%positive end);
      [exact H2|].
    intros [i cb] Hf Hl. specialize (H1 _ Hf).
    unfold referenced, is_playback in *. cbn in *.
    destruct cb; [discriminate Hl|]. rewrite H1. reflexivity.
Qed.

(** *** The operations on the state *)

Lemma same_queue_refl st : same_queue st st.
Proof. repeat split. Qed.

Lemma same_queue_trans st1 st2 st3 :
  same_queue st1 st2 -> same_queue st2 st3 -> same_queue st1 st3.
Proof.
  unfold same_queue.
  intros (A1 & A2 & A3 & A4 & A5) (B1 & B2 & B3 & B4 & B5).
  repeat split; congruence.
Qed.

Lemma same_loops_queue st st' : same_loops st st' -> same_queue st st'.
Proof.
  unfold same_loops, same_queue.
  intros (A1 & A2 & A3 & A4 & A5 & _). repeat split; assumption.
Qed.

Lemma tidy_ext st st' :
  animationFrameId st' = animationFrameId st ->
  playbackAnimationFrameId st' = playbackAnimationFrameId st ->
  frames st' = frames st -> nextFrameId st' = nextFrameId st ->
  tidy st -> tidy st'.
Proof. unfold tidy. intros -> -> -> ->. exact (fun H => H). Qed.

Lemma tidy_same st st' : same_queue st st' -> tidy st -> tidy st'.
Proof.
  intros (E1 & E2 & E3 & E4 & _). apply tidy_ext; assumption.
Qed.

Lemma bounded_same st st' :
  same_queue st st' -> bounded_history st -> bounded_history st'.
Proof.
  unfold same_queue, bounded_history. intros (_ & _ & _ & _ & E) H.
  rewrite E. exact H.
Qed.

Lemma same_queue_drawPlaybackFrame env p t st :
  same_queue st (drawPlaybackFrame env p t st).
Proof. apply same_loops_queue, PopupFrames.drawPlaybackFrame_same_loops. Qed.

Lemma same_queue_drawStaticWaveformToCache env st :
  same_queue st (drawStaticWaveformToCache env st).
Proof.
  unfold drawStaticWaveformToCache.
  destruct (liveWaveformCanvas st); [|apply same_queue_refl].
  destruct (waveformHistory st) eqn:E; [apply same_queue_refl|].
  cbv zeta. destruct (negb _); repeat split.
Qed.

Lemma same_queue_urlEffect_or_cleared env p st :
  animationFrameId (urlEffect env p st) = animationFrameId st /\
  playbackAnimationFrameId (urlEffect env p st)
  = playbackAnimationFrameId st /\
  frames (urlEffect env p st) = frames st /\
  nextFrameId (urlEffect env p st) = nextFrameId st /\
  (waveformHistory (urlEffect env p st) = waveformHistory st \/
   waveformHistory (urlEffect env p st) = []).
Proof.
  unfold urlEffect. destruct (recordedAudioUrl p); [repeat split; now left|].
  cbv zeta. cbn [liveWaveformCanvas with_playback with_history].
  destruct (liveWaveformCanvas st) as [c|]; [destruct (has2d c)|];
    repeat split; now right.
Qed.

Lemma tidy_scheduleLive p st :
  tidy st -> Forall (fun f => is_live f = false) (frames st) ->
  tidy (scheduleLive p st).
Proof. unfold tidy, scheduleLive. cbn. apply tidy_schedule_live. Qed.

Lemma tidy_schedulePlayback p st :
  tidy st -> Forall (fun f => is_playback f = false) (frames st) ->
  tidy (schedulePlayback p st).
Proof. unfold tidy, schedulePlayback. cbn. apply tidy_schedule_playback. Qed.

Lemma tidy_cancelAnimationFrame id st :
  tidy st -> tidy (cancelAnimationFrame id st).
Proof. unfold tidy. cbn. apply tidy_filter. Qed.

Lemma tidy_cancelLive st :
  tidy st ->
  tidy (cancelLive st) /\
  Forall (fun f => is_live f = false) (frames (cancelLive st)).
Proof.
  unfold tidy, cancelLive.
  destruct (animationFrameId st) as [id|] eqn:E; cbn; intros H.
  - split; [|apply (no_live_after_cancel H)].
    apply (@tidy_live_ref (Some id)); [apply tidy_filter, H|].
    apply (no_live_after_cancel H).
  - rewrite E. split; [exact H|apply (no_live_of_none H)].
Qed.

Lemma tidy_cancelPlayback st :
  tidy st ->
  tidy (cancelPlayback st) /\
  Forall (fun f => is_playback f = false) (frames (cancelPlayback st)).
Proof.
  unfold tidy, cancelPlayback.
  destruct (playbackAnimationFrameId st) as [id|] eqn:E; cbn; intros H.
  - split; [|apply (no_playback_after_cancel H)].
    apply (@tidy_playback_ref _ (Some id)); [apply tidy_filter, H|].
    apply (no_playback_after_cancel H).
  - rewrite E. split; [exact H|apply (no_playback_of_none H)].
Qed.

Lemma frames_cancelPlayback_filter st :
  exists g, frames (cancelPlayback st) = filter g (frames st).
Proof.
  unfold cancelPlayback. destruct (playbackAnimationFrameId st) as [id|].
  - eexists. reflexivity.
  - exists (fun _ => true). symmetry. apply forallb_filter_id.
    apply forallb_forall. reflexivity.
Qed.

Lemma tidy_playbackCleanup st :
  tidy st -> tidy (playbackCleanup st).
Proof.
  intros H. unfold playbackCleanup. cbv zeta.
  apply (@tidy_same (cancelPlayback st)); [repeat split|].
  apply tidy_cancelPlayback, H.
Qed.

Lemma no_live_playbackCleanup st :
  Forall (fun f => is_live f = false) (frames st) ->
  Forall (fun f => is_live f = false) (frames (playbackCleanup st)).
Proof.
  intros H. unfold playbackCleanup. cbv zeta. cbn [frames with_playback].
  destruct (frames_cancelPlayback_filter st) as [g ->].
  apply Forall_filter, H.
Qed.

Lemma tidy_liveEffect env p st :
  tidy st -> Forall (fun f => is_live f = false) (frames st) ->
  tidy (liveEffect env p st).
Proof.
  intros H Hn. unfold liveEffect.
  destruct (liveWaveformCanvas st) as [canvas|]; [|exact H].
  destruct (isRecording p && analyserNode p).
  - destruct (_ && _).
    + cbv zeta. apply tidy_scheduleLive; [|exact Hn].
      apply (@tidy_ext st); [reflexivity..|exact H].
    + apply tidy_cancelLive, H.
  - cbv zeta. destruct (tidy_cancelLive H) as [Ht _].
    destruct (recordedAudioUrl p) as [url|]; [|exact Ht].
    destruct (waveformHistory (cancelLive st)); [exact Ht|].
    destruct (String.eqb url EmptyString); [exact Ht|].
    apply (@tidy_same (cancelLive st));
      [apply same_queue_drawStaticWaveformToCache|exact Ht].
Qed.

Lemma tidy_playbackEffect env p st :
  tidy st -> tidy (playbackEffect env p st).
Proof.
  intros H. unfold playbackEffect.
  destruct (isPlayingRecordedAudio p).
  - destruct (playbackAnimationFrameId st) eqn:E; [exact H|].
    apply tidy_schedulePlayback; [exact H|].
    unfold tidy in H. rewrite E in H. apply (no_playback_of_none H).
  - cbv zeta.
    eapply tidy_same; [apply same_queue_drawPlaybackFrame|].
    apply (@tidy_same (cancelPlayback st)); [repeat split|].
    apply tidy_cancelPlayback, H.
Qed.

Lemma tidy_resetEffect st : tidy st -> tidy (resetEffect st).
Proof. apply tidy_same. repeat split. Qed.

Lemma tidy_urlEffect env p st : tidy st -> tidy (urlEffect env p st).
Proof.
  unfold tidy.
  destruct (same_queue_urlEffect_or_cleared env p st)
    as (E1 & E2 & E3 & E4 & _).
  rewrite E1, E2, E3, E4. exact (fun H => H).
Qed.

Lemma tidy_initialState canvas :
  tidy (initialState canvas) /\
  Forall (fun f => is_live f = false) (frames (initialState canvas)).
Proof. split; [split; [|split]|]; constructor. Qed.

Lemma tidy_mount env p canvas : tidy (mount env p (initialState canvas)).
Proof.
  unfold mount. destruct (tidy_initialState canvas) as [H Hn].
  apply tidy_urlEffect, tidy_resetEffect, tidy_playbackEffect,
    tidy_liveEffect; assumption.
Qed.

Lemma tidy_rerender env old new st : tidy st -> tidy (rerender env old new st).
Proof.
  intros H. unfold rerender. cbv zeta.
  assert (H4 : tidy
            (playbackEffect env new
               (if liveDepsChanged old new
                then liveEffect env new
                       (playbackCleanup
                          (if liveDepsChanged old new then liveCleanup st
                           else st))
                else playbackCleanup
                       (if liveDepsChanged old new then liveCleanup st
                        else st)))).
  { apply tidy_playbackEffect. destruct (liveDepsChanged old new).
    - destruct (tidy_cancelLive H) as [Ht Hn].
      apply tidy_liveEffect.
      + apply tidy_playbackCleanup, Ht.
      + apply no_live_playbackCleanup, Hn.
    - apply tidy_playbackCleanup, H. }
  destruct (resetDepsChanged old new), (urlDepsChanged old new);
    repeat first [apply tidy_urlEffect | apply tidy_resetEffect];
    exact H4.
Qed.

Lemma newBarHeight_bounds d h data : 2 <= newBarHeight d h data <= 32.
Proof.
  unfold newBarHeight. cbv zeta. split; [apply Rmax_l|].
  apply Rmax_lub; [lra|apply Rmin_r].
Qed.

(** One run of the live callback: a state with the same queue, possibly
    one more bar, and then the next frame if the callback's props say
    the recording goes on. *)
Lemma drawLiveWaveformBars_shape env p data st :
  exists st0,
    drawLiveWaveformBars env p data st
    = (if isRecording p then scheduleLive p st0 else st0) /\
    animationFrameId st0 = animationFrameId st /\
    playbackAnimationFrameId st0 = playbackAnimationFrameId st /\
    frames st0 = frames st /\
    nextFrameId st0 = nextFrameId st /\
    (waveformHistory st0 = waveformHistory st \/
     exists d h,
       waveformHistory st0
       = (waveformHistory st ++ [newBarHeight d h data])%list).
Proof.
  unfold drawLiveWaveformBars. cbv beta zeta.
  destruct (liveWaveformCanvas st) as [canvas|];
    [|exists st; repeat split; now left].
  destruct (negb (analyserNode p)); [exists st; repeat split; now left|].
  destruct (negb (has2d canvas)); [exists st; repeat split; now left|].
  eexists. split; [reflexivity|].
  cbn [animationFrameId playbackAnimationFrameId frames nextFrameId
       waveformHistory with_canvas with_history].
  repeat split. right. eexists _, _. reflexivity.
Qed.

Lemma tidy_drawLiveWaveformBars env p data st :
  tidy st -> Forall (fun f => is_live f = false) (frames st) ->
  tidy (drawLiveWaveformBars env p data st).
Proof.
  intros H Hn.
  destruct (drawLiveWaveformBars_shape env p data st)
    as (st0 & -> & E1 & E2 & E3 & E4 & _).
  assert (H0 : tidy st0) by (unfold tidy; rewrite E1, E2, E3, E4; exact H).
  destruct (isRecording p); [|exact H0].
  apply tidy_scheduleLive; [exact H0|]. rewrite E3. exact Hn.
Qed.

Lemma bounded_drawLiveWaveformBars env p data st :
  bounded_history st -> bounded_history (drawLiveWaveformBars env p data st).
Proof.
  intros H.
  destruct (drawLiveWaveformBars_shape env p data st)
    as (st0 & -> & _ & _ & _ & _ & E).
  assert (H0 : bounded_history st0).
  { unfold bounded_history. destruct E as [->|(d & h & ->)]; [exact H|].
    apply Forall_app. split; [exact H|].
    constructor; [apply newBarHeight_bounds|constructor]. }
  destruct (isRecording p); exact H0.
Qed.

(** One run of the playback callback: the queue and the live ref are
    kept, and either no playback frame is referenced or the next one was
    requested. *)
Lemma animationLoop_shape env p timestamp st :
  exists st0,
    animationFrameId st0 = animationFrameId st /\
    frames st0 = frames st /\ nextFrameId st0 = nextFrameId st /\
    waveformHistory st0 = waveformHistory st /\
    ((playbackAnimationFrameId st0 = None /\
      animationLoop env p timestamp st = st0) \/
     animationLoop env p timestamp st = schedulePlayback p st0).
Proof.
  assert (Hstop :
    exists st0,
      animationFrameId st0 = animationFrameId st /\
      frames st0 = frames st /\ nextFrameId st0 = nextFrameId st /\
      waveformHistory st0 = waveformHistory st /\
      playbackAnimationFrameId st0 = None /\
      drawPlaybackFrame env p (currentPlaybackTime p)
        (with_playback None (internalPlaybackTime st)
           (smoothedScrollOffset st) None
           (with_playbackFrameId None st)) = st0).
  { destruct (same_queue_drawPlaybackFrame env p (currentPlaybackTime p)
                (with_playback None (internalPlaybackTime st)
                   (smoothedScrollOffset st) None
                   (with_playbackFrameId None st)))
      as (E1 & E2 & E3 & E4 & E5).
    eexists. split; [exact E1|]. split; [exact E3|]. split; [exact E4|].
    split; [exact E5|]. split; [exact E2|reflexivity]. }
  destruct (liveWaveformCanvas st) as [canvas|] eqn:Hc.
  2:{ destruct Hstop as (st0 & A & B & C & D & E & F). exists st0.
      repeat (split; [assumption|]). left. split; [exact E|].
      unfold animationLoop. rewrite Hc. exact F. }
  destruct (isPlayingRecordedAudio p) eqn:Hp.
  2:{ destruct Hstop as (st0 & A & B & C & D & E & F). exists st0.
      repeat (split; [assumption|]). left. split; [exact E|].
      unfold animationLoop. rewrite Hc, Hp. exact F. }
  clear Hstop.
  rewrite (@Playback.animationLoop_playing env p timestamp st canvas Hc Hp).
  cbv zeta.
  match goal with
  | |- context [drawPlaybackFrame ?e ?q ?t ?s] =>
      destruct (same_queue_drawPlaybackFrame e q t s)
        as (E1 & E2 & E3 & E4 & E5);
      generalize dependent (drawPlaybackFrame e q t s)
  end.
  intros drawn E1 E2 E3 E4 E5.
  cbn [animationFrameId playbackAnimationFrameId frames nextFrameId
       waveformHistory with_playback] in E1, E2, E3, E4, E5.
  destruct (Rle_dec _ _).
  - exists (with_playback None (recordedDuration p)
              (smoothedScrollOffset drawn) None
              (with_playbackFrameId None (onPauseRecording drawn))).
    split; [exact E1|]. split; [exact E3|]. split; [exact E4|].
    split; [exact E5|]. left. split; reflexivity.
  - exists drawn. split; [exact E1|]. split; [exact E3|].
    split; [exact E4|]. split; [exact E5|]. now right.
Qed.

Lemma tidy_animationLoop env p timestamp st :
  tidy st -> Forall (fun f => is_playback f = false) (frames st) ->
  tidy (animationLoop env p timestamp st).
Proof.
  intros H Hn.
  destruct (animationLoop_shape env p timestamp st)
    as (st0 & E1 & E3 & E4 & _ & [[E2 ->]| ->]).
  - unfold tidy. rewrite E1, E2, E3, E4.
    apply (tidy_playback_ref None H Hn).
  - apply tidy_schedulePlayback; [|rewrite E3; exact Hn].
    unfold tidy. rewrite E1, E3, E4.
    apply (tidy_playback_ref _ H Hn).
Qed.

Lemma bounded_animationLoop env p timestamp st :
  bounded_history st -> bounded_history (animationLoop env p timestamp st).
Proof.
  intros H.
  destruct (animationLoop_shape env p timestamp st)
    as (st0 & _ & _ & _ & E & [[_ ->]| ->]);
    unfold bounded_history; cbn; rewrite E; exact H.
Qed.

Lemma tidy_runFrame env id timestamp data st :
  tidy st -> tidy (runFrame env id timestamp data st).
Proof.
  intros H. unfold runFrame.
  destruct (find _ (frames st)) as [[i cb]|] eqn:Ef; [|exact H].
  pose proof (find_some _ _ Ef) as [Hin Hid]. cbn in Hid.
  apply Pos.eqb_eq in Hid. subst i.
  pose proof H as (Href & _). rewrite Forall_forall in Href.
  specialize (Href _ Hin). unfold referenced in Href. cbn in Href.
  pose proof (tidy_cancelAnimationFrame id H) as Hc.
  destruct cb as [q|q].
  - apply tidy_drawLiveWaveformBars; [exact Hc|].
    cbn. unfold tidy in H. rewrite Href in H.
    apply (no_live_after_cancel H).
  - apply tidy_animationLoop; [exact Hc|].
    cbn. unfold tidy in H. rewrite Href in H.
    apply (no_playback_after_cancel H).
Qed.

(** *** The history *)

Lemma bounded_nil st : waveformHistory st = [] -> bounded_history st.
Proof. unfold bounded_history. intros ->. constructor. Qed.

Lemma history_cancelLive st :
  waveformHistory (cancelLive st) = waveformHistory st.
Proof. apply PopupFrames.cancelLive_keeps. Qed.

Lemma history_cancelPlayback st :
  waveformHistory (cancelPlayback st) = waveformHistory st.
Proof. apply PopupFrames.cancelPlayback_keeps. Qed.

Lemma bounded_liveEffect env p st :
  bounded_history st -> bounded_history (liveEffect env p st).
Proof.
  intros H. unfold liveEffect.
  destruct (liveWaveformCanvas st) as [canvas|]; [|exact H].
  assert (Hc : bounded_history (cancelLive st))
    by (unfold bounded_history; rewrite history_cancelLive; exact H).
  destruct (isRecording p && analyserNode p).
  - destruct (_ && _); [|exact Hc]. apply bounded_nil. reflexivity.
  - cbv zeta.
    destruct (recordedAudioUrl p) as [url|]; [|exact Hc].
    destruct (waveformHistory (cancelLive st)) eqn:E; [exact Hc|].
    destruct (String.eqb url EmptyString); [exact Hc|].
    apply (@bounded_same (cancelLive st));
      [apply same_queue_drawStaticWaveformToCache|exact Hc].
Qed.

Lemma bounded_playbackCleanup st :
  bounded_history st -> bounded_history (playbackCleanup st).
Proof.
  unfold bounded_history, playbackCleanup. cbv zeta.
  cbn [waveformHistory with_playback]. rewrite history_cancelPlayback.
  exact (fun H => H).
Qed.

Lemma bounded_playbackEffect env p st :
  bounded_history st -> bounded_history (playbackEffect env p st).
Proof.
  intros H. unfold playbackEffect.
  destruct (isPlayingRecordedAudio p).
  - destruct (playbackAnimationFrameId st); exact H.
  - cbv zeta. eapply bounded_same; [apply same_queue_drawPlaybackFrame|].
    unfold bounded_history. cbn [waveformHistory with_playback].
    rewrite history_cancelPlayback. exact H.
Qed.

Lemma bounded_urlEffect env p st :
  bounded_history st -> bounded_history (urlEffect env p st).
Proof.
  intros H. unfold bounded_history.
  destruct (same_queue_urlEffect_or_cleared env p st)
    as (_ & _ & _ & _ & [-> | ->]); [exact H|constructor].
Qed.

Lemma bounded_rerender env old new st :
  bounded_history st -> bounded_history (rerender env old new st).
Proof.
  intros H. unfold rerender. cbv zeta.
  assert (H1 : bounded_history
                 (if liveDepsChanged old new then liveCleanup st else st)).
  { destruct (liveDepsChanged old new); [|exact H].
    unfold liveCleanup, bounded_history. rewrite history_cancelLive.
    exact H. }
  apply bounded_playbackCleanup in H1.
  assert (H3 : bounded_history
                 (if liveDepsChanged old new
                  then liveEffect env new
                         (playbackCleanup
                            (if liveDepsChanged old new then liveCleanup st
                             else st))
                  else playbackCleanup
                         (if liveDepsChanged old new then liveCleanup st
                          else st))).
  { destruct (liveDepsChanged old new); [apply bounded_liveEffect|];
      exact H1. }
  apply (bounded_playbackEffect env new) in H3.
  destruct (resetDepsChanged old new), (urlDepsChanged old new);
    repeat first [apply bounded_urlEffect
                 | apply (@bounded_same _ (resetEffect _));
                   [repeat split|]];
    exact H3.
Qed.

Lemma bounded_mount env p canvas :
  bounded_history (mount env p (initialState canvas)).
Proof.
  unfold mount. apply bounded_urlEffect.
  apply (@bounded_same
           (playbackEffect env p (liveEffect env p (initialState canvas))));
    [repeat split|].
  apply bounded_playbackEffect, bounded_liveEffect, bounded_nil.
  reflexivity.
Qed.

Lemma bounded_runFrame env id timestamp data st :
  bounded_history st -> bounded_history (runFrame env id timestamp data st).
Proof.
  intros H. unfold runFrame.
  destruct (find _ (frames st)) as [[i [q|q]]|]; [| |exact H].
  - apply bounded_drawLiveWaveformBars. exact H.
  - apply bounded_animationLoop. exact H.
Qed.

(** X17.  In every state the popup can reach, each bar of the waveform
    history is between 2 and 32 logical pixels high: the live loop only
    appends clamped heights, and every other operation keeps the history
    or empties it. *)
Theorem history_bars_stay_clamped (env : Env) (p : Props) (st : State) :
  Reachable env p st ->
  Forall (fun h => 2 <= h <= 32) (waveformHistory st).
Proof.
  intros H. change (bounded_history st).
  induction H as [canvas p|old new st _ IH|p st id ts data _ IH _].
  - apply bounded_mount.
  - apply bounded_rerender, IH.
  - apply bounded_runFrame, IH.
Qed.

Lemma history_bars_stay_clamped_witness :
  Forall (fun h => 2 <= h <= 32)
    (waveformHistory
       (runFrame plainEnv 1 16 loudBins
          (mount plainEnv
             (popupProps true (Recorder.session 1)) (initialState laidOut)))).
Proof.
  apply (@history_bars_stay_clamped plainEnv
           (popupProps true (Recorder.session 1))).
  apply reach_frame; [apply reach_mount|discriminate].
Defined.

(** X18.  In every state the popup can reach, each animation frame that
    is still requested is the one its loop's ref holds, so at most one
    frame of the live loop and at most one frame of the playback loop are
    pending: no callback is left running behind the refs. *)
Theorem no_orphaned_frames (env : Env) (p : Props) (st : State) :
  Reachable env p st ->
  (forall id cb, In (id, cb) (frames st) ->
     match cb with
     | LiveLoop _ => animationFrameId st = Some id
     | PlaybackLoop _ => playbackAnimationFrameId st = Some id
     end) /\
  (List.length (filter is_live (frames st)) <= 1)%nat /\
  (List.length (filter is_playback (frames st)) <= 1)%nat.
Proof.
  intros H.
  assert (Ht : tidy st).
  { induction H as [canvas p|old new st _ IH|p st id ts data _ IH _].
    - apply tidy_mount.
    - apply tidy_rerender, IH.
    - apply tidy_runFrame, IH. }
  split; [|apply (tidy_at_most_one Ht)].
  destruct Ht as (Href & _). rewrite Forall_forall in Href.
  intros id cb Hin. exact (Href _ Hin).
Qed.

Lemma no_orphaned_frames_witness :
  (List.length
     (filter is_live
        (frames
           (runFrame plainEnv 1 16 loudBins
              (mount plainEnv
                 (popupProps true (Recorder.session 1))
                 (initialState laidOut))))) <= 1)%nat.
Proof.
  refine (proj1 (proj2
    (@no_orphaned_frames plainEnv (popupProps true (Recorder.session 1))
       _ _))).
  apply reach_frame; [apply reach_mount|discriminate].
Defined.

End PopupInvariants.

(** ** Playback: the clock, the scroll offset and the overlay *)

Module PlaybackMore.
Import Popup PopupRun.
Local Open Scope R_scope.






(** *** The clock *)

Lemma drawPlaybackFrame_canvas env p t st :
  liveWaveformCanvas st <> None ->
  liveWaveformCanvas (drawPlaybackFrame env p t st) <> None.
Proof.
  intros H. unfold drawPlaybackFrame.
  destruct (liveWaveformCanvas st) eqn:Hc; [|contradiction].
  destruct (cachedWaveformCanvas st); [|rewrite Hc; discriminate].
  destruct (waveformHistory st); [rewrite Hc; discriminate|].
  destruct (negb _); [rewrite Hc; discriminate|].
  cbv zeta. cbn [liveWaveformCanvas with_canvas]. discriminate.
Qed.

Lemma animationLoop_position env p timestamp st :
  liveWaveformCanvas st <> None ->
  isPlayingRecordedAudio p = true ->
  internalPlaybackTime (animationLoop env p timestamp st)
  = positionAt p timestamp st.
Proof.
  intros Hc Hp.
  destruct (liveWaveformCanvas st) as [canvas|] eqn:E; [|contradiction].
  rewrite (@Playback.animationLoop_playing env p timestamp st canvas E Hp).
  cbv zeta.
  match goal with
  | |- context [drawPlaybackFrame ?e ?q ?t ?s] =>
      destruct (PopupFrames.drawPlaybackFrame_playback e q t s)
        as (_ & E2 & _);
      generalize dependent (drawPlaybackFrame e q t s)
  end.
  intros drawn E2. cbn [internalPlaybackTime with_playback] in E2.
  destruct (Rle_dec _ _) as [Hle|Hlt]; cbn.
  - unfold positionAt in *. apply Rle_antisym; [exact Hle|apply Rmin_r].
  - exact E2.
Qed.

Lemma animationLoop_goes_on env p timestamp st :
  liveWaveformCanvas st <> None ->
  isPlayingRecordedAudio p = true ->
  (timestamp - basisTime p timestamp st) / 1000 < recordedDuration p ->
  liveWaveformCanvas (animationLoop env p timestamp st) <> None /\
  playbackStartTime (animationLoop env p timestamp st)
  = Some (basisTime p timestamp st).
Proof.
  intros Hc Hp Hlt.
  destruct (liveWaveformCanvas st) as [canvas|] eqn:E; [|contradiction].
  rewrite (@Playback.animationLoop_playing env p timestamp st canvas E Hp).
  cbv zeta.
  destruct (Rle_dec _ _) as [Hle|_].
  { exfalso. unfold positionAt in Hle.
    rewrite Rmin_left in Hle by lra. lra. }
  match goal with
  | |- context [drawPlaybackFrame ?e ?q ?t ?s] =>
      destruct (PopupFrames.drawPlaybackFrame_playback e q t s)
        as (E1 & _);
      assert (Hd : liveWaveformCanvas (drawPlaybackFrame e q t s) <> None)
        by (apply drawPlaybackFrame_canvas; cbn; rewrite E; discriminate);
      generalize dependent (drawPlaybackFrame e q t s)
  end.
  intros drawn E1 Hd. cbn [playbackStartTime with_playback] in E1.
  split; [exact Hd|exact E1].
Qed.

Lemma playFrames_position env p start tss : forall st t,
  liveWaveformCanvas st <> None ->
  isPlayingRecordedAudio p = true ->
  playbackStartTime st = Some start ->
  Forall (fun ts => (ts - start) / 1000 < recordedDuration p) tss ->
  internalPlaybackTime (playFrames env p (tss ++ [t]) st)
  = Rmin ((t - start) / 1000) (recordedDuration p).
Proof.
  induction tss as [|ts tss IH]; intros st t Hc Hp Hs Hall.
  - cbn. rewrite animationLoop_position by assumption.
    unfold positionAt, basisTime. rewrite Hs. reflexivity.
  - inversion Hall as [|? ? Hts Hrest]; subst.
    cbn [app playFrames fold_left].
    assert (Hb : basisTime p ts st = start)
      by (unfold basisTime; rewrite Hs; reflexivity).
    destruct (@animationLoop_goes_on env p ts st Hc Hp) as [Hc' Hs'].
    { rewrite Hb. exact Hts. }
    rewrite Hb in Hs'.
    apply (IH (animationLoop env p ts st) t Hc' Hp Hs' Hrest).
Qed.

(** X20.  The playback position follows the clock, not the number of
    frames: when playback starts at time stamp [t0] from
    [currentPlaybackTime], then after any frames in between (none of
    them past the end) the position at a frame with time stamp [t] is
    [currentPlaybackTime + (t - t0) / 1000], limited to the recorded
    duration. *)
Theorem playback_position_follows_the_clock
  (env : Env) (p : Props) (st : State) (t0 t : R) (tss : list R) :
  liveWaveformCanvas st <> None ->
  isPlayingRecordedAudio p = true ->
  playbackStartTime st = None ->
  Forall (fun ts =>
            currentPlaybackTime p + (ts - t0) / 1000 < recordedDuration p)
         (t0 :: tss) ->
  internalPlaybackTime (playFrames env p (t0 :: tss ++ [t]) st)
  = Rmin (currentPlaybackTime p + (t - t0) / 1000) (recordedDuration p).
Proof.
  intros Hc Hp Hs Hall.
  set (start := t0 - currentPlaybackTime p * 1000).
  assert (Hb : basisTime p t0 st = start)
    by (unfold basisTime; rewrite Hs; reflexivity).
  assert (Hconv : forall ts,
            (ts - start) / 1000 = currentPlaybackTime p + (ts - t0) / 1000)
    by (intros ts; unfold start; field).
  inversion Hall as [|? ? H0 Hrest]; subst.
  cbn [playFrames fold_left].
  destruct (@animationLoop_goes_on env p t0 st Hc Hp) as [Hc' Hs'].
  { rewrite Hb, Hconv. exact H0. }
  rewrite Hb in Hs'. rewrite <- Hconv.
  apply (@playFrames_position env p start tss
           (animationLoop env p t0 st) t Hc' Hp Hs').
  eapply Forall_impl; [|exact Hrest]. cbn. intros ts Hts.
  rewrite Hconv. exact Hts.
Qed.

Lemma playback_position_follows_the_clock_witness :
  internalPlaybackTime
    (playFrames plainEnv playingProps (1000 :: [1016; 1500] ++ [4000])
       (initialState laidOut))
  = Rmin (currentPlaybackTime playingProps + (4000 - 1000) / 1000)
         (recordedDuration playingProps).
Proof.
  apply (@playback_position_follows_the_clock plainEnv playingProps
           (initialState laidOut) 1000 4000 [1016; 1500]).
  - discriminate.
  - reflexivity.
  - reflexivity.
  - repeat constructor; cbn; lra.
Defined.

(** *** The overlay *)

Lemma last_map_Some (A : Type) (l : list A) (x : A) :
  last (map Some (l ++ [x])) None = Some x.
Proof. rewrite map_app. apply last_last. Qed.

Lemma progress_monotone (duration total t1 t2 : R) :
  0 <= total -> t1 <= t2 ->
  playbackProgressPhysical duration t1 total
  <= playbackProgressPhysical duration t2 total.
Proof.
  intros Ht H. unfold playbackProgressPhysical.
  destruct (Rlt_dec 0 duration) as [Hd|_]; [|lra].
  apply Rmult_le_compat_r; [exact Ht|].
  unfold Rdiv. apply Rmult_le_compat_r; [|exact H].
  left. apply Rinv_0_lt_compat, Hd.
Qed.

Lemma dpr_pos (env : Env) : 0 <= devicePixelRatio env -> 0 < dpr env.
Proof.
  intros H. unfold dpr.
  destruct (Req_dec_T (devicePixelRatio env) 0); lra.
Qed.

Lemma total_nonneg (env : Env) (st : State) :
  0 <= devicePixelRatio env -> 0 <= totalWaveformPhysicalWidth env st.
Proof.
  intros H. unfold totalWaveformPhysicalWidth, totalBarAndGapWidth,
    fixedBarWidth, fixedGap.
  pose proof (dpr_pos env H). pose proof (pos_INR (List.length (waveformHistory st))).
  nra.
Qed.

(** What a frame that is drawn ends with: the overlay rectangle. *)
Lemma drawPlaybackFrame_overlay env p t st canvas cached :
  liveWaveformCanvas st = Some canvas ->
  cachedWaveformCanvas st = Some cached ->
  has2d canvas = true -> has2d cached = true ->
  waveformHistory st <> [] ->
  lastDrawn (drawPlaybackFrame env p t st)
  = Some (FillRect "rgba(132,137,145,0.8)" "source-atop" 0 0
            (overlayWidth env p st t)
            (height (if needs_resize (dpr env) canvas
                     then resize (dpr env) canvas else canvas))).
Proof.
  intros Hc Hk H2 H2' Hh. unfold drawPlaybackFrame, lastDrawn.
  rewrite Hc, Hk, H2, H2'.
  destruct (waveformHistory st) eqn:E; [contradiction|]. rewrite <- E.
  cbn [andb negb]. cbv zeta.
  cbn [liveWaveformCanvas with_canvas].
  unfold set_composite at 1. cbn [bitmap].
  unfold fillRect, draw. cbn [bitmap fillStyle globalCompositeOperation
                                set_composite set_fillStyle].
  rewrite last_map_Some.
  unfold overlayWidth, playbackProgressPhysical, totalWaveformPhysicalWidth.
  reflexivity.
Qed.

(** X21.  The overlay that marks the played part is the last thing a
    playback frame draws; for a fixed scroll offset its width does not
    shrink as the playback time grows, and at time 0 it is 0 when the
    offset is not negative. *)
Theorem overlay_grows_with_playback_time
  (env : Env) (p : Props) (st : State) (canvas cached : Canvas)
  (t1 t2 : R) :
  liveWaveformCanvas st = Some canvas ->
  cachedWaveformCanvas st = Some cached ->
  has2d canvas = true -> has2d cached = true ->
  waveformHistory st <> [] ->
  0 <= devicePixelRatio env ->
  t1 <= t2 ->
  (exists h,
     lastDrawn (drawPlaybackFrame env p t1 st)
     = Some (FillRect "rgba(132,137,145,0.8)" "source-atop" 0 0
               (overlayWidth env p st t1) h) /\
     lastDrawn (drawPlaybackFrame env p t2 st)
     = Some (FillRect "rgba(132,137,145,0.8)" "source-atop" 0 0
               (overlayWidth env p st t2) h)) /\
  0 <= overlayWidth env p st t1 <= overlayWidth env p st t2 /\
  (0 <= smoothedScrollOffset st -> overlayWidth env p st 0 = 0).
Proof.
  intros Hc Hk H2 H2' Hh Hd Ht. split; [|split; [split|]].
  - eexists. split; eapply drawPlaybackFrame_overlay; eassumption.
  - apply Rmax_l.
  - unfold overlayWidth.
    pose proof (@progress_monotone (recordedDuration p)
                  (totalWaveformPhysicalWidth env st) t1 t2
                  (total_nonneg env st Hd) Ht).
    apply Rle_max_compat_l. lra.
  - intros Hs. unfold overlayWidth, playbackProgressPhysical.
    destruct (Rlt_dec 0 (recordedDuration p));
      apply Rmax_left; lra.
Qed.

Lemma overlay_grows_with_playback_time_witness :
  0 <= overlayWidth plainEnv playingProps (with_cached (Some laidOut) tenBars) 1
    <= overlayWidth plainEnv playingProps (with_cached (Some laidOut) tenBars)
         2.
Proof.
  refine (proj1 (proj2
    (@overlay_grows_with_playback_time plainEnv playingProps
       (with_cached (Some laidOut) tenBars) laidOut laidOut
       1 2 eq_refl eq_refl eq_refl eq_refl _ _ _))).
  - discriminate.
  - cbn. lra.
  - lra.
Defined.

(** *** The raster's bars *)

Lemma staticBarOps_rounded style comp d ph hs : forall i,
  0 < d -> Forall (fun h => 2 <= h) hs ->
  Forall (fun op => isFillPath op = true)
         (staticBarOps style comp d ph i hs).
Proof.
  induction hs as [|h hs IH]; intros i Hd Hall; [constructor|].
  inversion Hall as [|? ? Hh Hrest]; subst.
  cbn [staticBarOps]. constructor; [|apply IH; assumption].
  unfold roundedRectOp, cornerRadiusLogical.
  destruct (Rlt_dec (h * d) (2 * (1 * d))) as [Hlt|_]; [|reflexivity].
  exfalso. nra.
Qed.

Lemma staticBarOps_length style comp d ph hs : forall i,
  List.length (staticBarOps style comp d ph i hs) = List.length hs.
Proof.
  induction hs as [|h hs IH]; intros i; [reflexivity|].
  cbn [staticBarOps List.length]. rewrite IH. reflexivity.
Qed.

(** X22.  The raster built from a history whose bars are at least 2
    logical pixels high (as every recorded bar is) consists of the
    clearing of the canvas followed by one filled rounded path per bar:
    the plain rectangle [drawRoundedRect] falls back to for bars lower
    than twice the corner radius is never used. *)
Theorem raster_bars_are_rounded
  (env : Env) (st : State) (mainCanvas : Canvas) :
  liveWaveformCanvas st = Some mainCanvas ->
  waveformHistory st <> [] ->
  cache_ready env st ->
  0 <= devicePixelRatio env ->
  bounded_history st ->
  exists cached ops,
    cachedWaveformCanvas (drawStaticWaveformToCache env st) = Some cached /\
    bitmap cached
    = ClearRect 0 0 (width cached) (height cached) :: ops /\
    List.length ops = List.length (waveformHistory st) /\
    Forall (fun op => isFillPath op = true) ops.
Proof.
  intros Hc Hh Hr Hd Hb.
  rewrite (@Raster.drawStaticWaveformToCache_built env st mainCanvas Hc Hh Hr).
  eexists _, _. split; [reflexivity|]. split; [reflexivity|]. split.
  - apply staticBarOps_length.
  - apply staticBarOps_rounded; [apply dpr_pos, Hd|].
    eapply Forall_impl; [|exact Hb]. cbn. intros h Hh'. lra.
Qed.

Lemma raster_bars_are_rounded_witness :
  exists cached ops,
    cachedWaveformCanvas (drawStaticWaveformToCache plainEnv tenBars)
    = Some cached /\
    bitmap cached
    = ClearRect 0 0 (width cached) (height cached) :: ops /\
    List.length ops = List.length (waveformHistory tenBars) /\
    Forall (fun op => isFillPath op = true) ops.
Proof.
  apply (@raster_bars_are_rounded plainEnv tenBars laidOut eq_refl).
  - discriminate.
  - reflexivity.
  - cbn. lra.
  - unfold bounded_history, tenBars. cbn [waveformHistory with_history].
    repeat (apply Forall_cons; [split; lra|]). apply Forall_nil.
Defined.

End PlaybackMore.

(** ** Formatting a time *)

Module TimeFormatProofs.
Import TimeFormat.
Local Open Scope string_scope.
Local Open Scope Z_scope.

Lemma padStart2_twoDigits (m : Z) :
  0 <= m < 100 -> padStart2 (toString m) = twoDigits m.
Proof.
  intros Hm.
  assert (Hall : forallb
            (fun k => String.eqb (padStart2 (toString (Z.of_nat k)))
                        (twoDigits (Z.of_nat k)))
            (seq 0 100) = true) by (vm_compute; reflexivity).
  rewrite forallb_forall in Hall.
  specialize (Hall (Z.to_nat m)).
  rewrite Z2Nat.id in Hall by lia.
  apply String.eqb_eq, Hall, in_seq. lia.
Qed.

Lemma Qfloor_div60 (a : Z) (b : positive) :
  Qfloor ((a # b) / 60) = a / (Zpos b * 60).
Proof.
  unfold Qdiv, Qinv, Qmult, Qfloor. cbn [Qnum Qden].
  rewrite Z.mul_1_r, Pos2Z.inj_mul. reflexivity.
Qed.

Lemma truncate_div60 (a : Z) (b : positive) :
  0 <= a -> Wav.truncate ((a # b) / 60) = a / (Zpos b * 60).
Proof.
  intros Ha. unfold Wav.truncate, Qdiv, Qinv, Qmult. cbn [Qnum Qden].
  rewrite Z.mul_1_r, Pos2Z.inj_mul. apply Z.quot_div_nonneg; lia.
Qed.

Lemma Qfloor_rem60 (a : Z) (b : positive) :
  0 <= a ->
  Qfloor (rem60 (a # b)) = a / Zpos b - 60 * (a / (Zpos b * 60)).
Proof.
  intros Ha. unfold rem60. rewrite (truncate_div60 b Ha).
  generalize (a / (Zpos b * 60)). intros k.
  unfold Qminus, Qplus, Qopp, Qmult, inject_Z, Qfloor. cbn [Qnum Qden].
  rewrite Z.mul_1_r, Pos.mul_1_r.
  replace (a * 1 + - (60 * k) * Zpos b) with (a + (- (60 * k)) * Zpos b)
    by ring.
  rewrite Z.div_add by lia. ring.
Qed.

Lemma formatRecordingTime_nonneg (a : Z) (b : positive) :
  0 <= a ->
  formatRecordingTime (a # b)
  = (padStart2 (toString (a / Zpos b / 60)) ++ ":"
     ++ padStart2 (toString ((a / Zpos b) mod 60)))%string.
Proof.
  intros Ha. unfold formatRecordingTime. cbv zeta.
  rewrite Qfloor_div60, (Qfloor_rem60 b Ha).
  rewrite <- Z.div_div by lia.
  rewrite (Z.mod_eq (a / Zpos b) 60) by lia. reflexivity.
Qed.

(** X23.  For a whole number of seconds below 100 minutes the time is
    shown as two digits of minutes, a colon and two digits of seconds:
    59 reads 00:59, 60 reads 01:00. *)
Theorem formatRecordingTime_whole_seconds (n : Z) :
  0 <= n < 6000 ->
  formatRecordingTime (inject_Z n)
  = (twoDigits (n / 60) ++ ":" ++ twoDigits (n mod 60))%string.
Proof.
  intros Hn. unfold inject_Z. rewrite formatRecordingTime_nonneg by lia.
  rewrite Z.div_1_r.
  rewrite !padStart2_twoDigits; [reflexivity| |].
  - pose proof (Z.mod_pos_bound n 60). lia.
  - split; [apply Z.div_pos; lia|apply Z.div_lt_upper_bound; lia].
Qed.

Lemma formatRecordingTime_whole_seconds_witness :
  formatRecordingTime (inject_Z 60) = "01:00"%string.
Proof.
  exact (@formatRecordingTime_whole_seconds 60
           (conj (Zle_bool_imp_le 0 60 eq_refl) eq_refl)).
Defined.

(** X24.  The fraction of a second is never shown: a time that is not
    negative is formatted like its whole part.  (The popup passes the
    high-resolution playback time.) *)
Theorem formatRecordingTime_drops_fraction (seconds : Q) :
  (0 <= seconds)%Q ->
  formatRecordingTime seconds
  = formatRecordingTime (inject_Z (Qfloor seconds)).
Proof.
  destruct seconds as [a b]. intros Hq.
  assert (Ha : 0 <= a).
  { unfold Qle in Hq. cbn in Hq. lia. }
  unfold inject_Z, Qfloor. cbn [Qnum Qden].
  rewrite !formatRecordingTime_nonneg;
    [|apply Z.div_pos; lia|exact Ha].
  rewrite Z.div_1_r. reflexivity.
Qed.

Lemma formatRecordingTime_drops_fraction_witness :
  formatRecordingTime (7 # 2) = formatRecordingTime (inject_Z (Qfloor (7 # 2))).
Proof.
  apply (@formatRecordingTime_drops_fraction (7 # 2)). discriminate.
Defined.

(** X25.  [formatTime] of the utilities and [formatRecordingTime] of the
    popup agree on every finite number, and [formatTime] shows 00:00 for
    NaN and the infinities. *)
Theorem formatTime_agrees_with_popup (seconds : Q) :
  formatTime (Validation.Finite seconds) = formatRecordingTime seconds /\
  formatTime Validation.NaN = "00:00"%string /\
  formatTime Validation.PlusInfinity = "00:00"%string /\
  formatTime Validation.MinusInfinity = "00:00"%string.
Proof.
  split; [|repeat split].
  unfold formatTime. destruct (Qeq_bool seconds 0) eqn:E; [|reflexivity].
  destruct seconds as [a b]. apply Qeq_bool_iff in E.
  unfold Qeq in E. cbn in E.
  assert (Ha : a = 0) by lia. subst a.
  rewrite formatRecordingTime_nonneg by lia.
  reflexivity.
Qed.

End TimeFormatProofs.

(** ** The WAV encoder: sample codes and their places *)

Module WavMore.
Import Wav WavRead WavProofs.
Local Open Scope Z_scope.

Lemma truncate_le (p q : Q) : (p <= q)%Q -> truncate p <= truncate q.
Proof.
  destruct p as [a b], q as [c d]. unfold Qle, truncate. cbn [Qnum Qden].
  intros H.
  rewrite <- (Z.quot_mul_cancel_r a (Zpos b) (Zpos d)) by lia.
  rewrite <- (Z.quot_mul_cancel_r c (Zpos d) (Zpos b)) by lia.
  rewrite (Z.mul_comm (Zpos d) (Zpos b)).
  apply Z.quot_le_mono; lia.
Qed.

Lemma truncate_inject (z : Z) : truncate (inject_Z z) = z.
Proof. unfold truncate, inject_Z. cbn. apply Z.quot_1_r. Qed.

Lemma wrap_small (z : Z) :
  -32768 <= z < 32768 ->
  (if z mod 65536 >=? 32768 then z mod 65536 - 65536 else z mod 65536) = z.
Proof.
  intros H. destruct (Z_lt_ge_dec z 0) as [Hneg|Hpos].
  - replace (z mod 65536) with (z + 65536).
    + destruct (Z.geb_spec (z + 65536) 32768); lia.
    + apply Z.mod_unique with (q := -1); lia.
  - rewrite Z.mod_small by lia.
    destruct (Z.geb_spec z 32768); lia.
Qed.

Lemma Qle_bool_false (a b : Q) : Qle_bool a b = false -> (b < a)%Q.
Proof.
  intros H. apply Qnot_le_lt. intros L.
  apply Qle_bool_iff in L. congruence.
Qed.

(** The four pieces of [scale]. *)
Lemma scale_cases (x : Q) :
  ((1 <= x)%Q /\ scale x = (1 * 32767)%Q) \/
  ((0 <= x)%Q /\ (x < 1)%Q /\ scale x = (x * 32767)%Q) \/
  ((-1 <= x)%Q /\ (x < 0)%Q /\ scale x = (x * 32768)%Q) \/
  ((x < -1)%Q /\ scale x = (-1 * 32768)%Q).
Proof.
  unfold scale, Math_max, Math_min, lt0. cbv zeta.
  destruct (Qle_bool 1 x) eqn:X1.
  - left. apply Qle_bool_iff in X1. split; [exact X1|reflexivity].
  - right. apply Qle_bool_false in X1.
    destruct (Qle_bool (-1) x) eqn:X2.
    + apply Qle_bool_iff in X2.
      destruct (Qle_bool 0 x) eqn:X3; cbn [negb].
      * left. apply Qle_bool_iff in X3. repeat split; assumption.
      * right. left. apply Qle_bool_false in X3. repeat split; assumption.
    + right. right. apply Qle_bool_false in X2.
      split; [exact X2|reflexivity].
Qed.

Lemma scale_le (x y : Q) : (x <= y)%Q -> (scale x <= scale y)%Q.
Proof.
  intros H.
  destruct (scale_cases x) as [[X ->]|[(X & X' & ->)|[(X & X' & ->)|[X ->]]]];
  destruct (scale_cases y) as [[Y ->]|[(Y & Y' & ->)|[(Y & Y' & ->)|[Y ->]]]];
  Lqa.lra.
Qed.

Lemma scale_bounds (x : Q) : (-32768 <= scale x <= 32767)%Q.
Proof.
  destruct (scale_cases x) as [[X ->]|[(X & X' & ->)|[(X & X' & ->)|[X ->]]]];
  split; Lqa.lra.
Qed.

Lemma sampleCode_truncate (x : Q) :
  sampleCode x = truncate (scale x) /\
  -32768 <= truncate (scale x) <= 32767.
Proof.
  assert (H : -32768 <= truncate (scale x) <= 32767).
  { destruct (scale_bounds x) as [Hlo Hhi].
    apply truncate_le in Hlo, Hhi.
    change (truncate (-32768)) with (-32768) in Hlo.
    change (truncate 32767) with 32767 in Hhi. lia. }
  split; [|exact H].
  unfold sampleCode, ToInt16. cbv zeta. apply wrap_small. lia.
Qed.

(** X26.  The 16-bit code of a sample never wraps around: clamping keeps
    the scaled value within the range of a signed 16-bit integer, so the
    code is the scaled value with its fraction dropped; it is monotone in
    the sample; full scale maps to the two ends, silence to 0. *)
Theorem sample_code_is_exact_and_monotone (x y : Q) :
  sampleCode x = truncate (scale x) /\
  -32768 <= sampleCode x <= 32767 /\
  ((x <= y)%Q -> sampleCode x <= sampleCode y) /\
  ((1 <= x)%Q -> sampleCode x = 32767) /\
  ((x <= -1)%Q -> sampleCode x = -32768) /\
  sampleCode 0 = 0.
Proof.
  destruct (sampleCode_truncate x) as [Ex Bx].
  destruct (sampleCode_truncate y) as [Ey By].
  assert (Hmono : forall a b, (a <= b)%Q -> sampleCode a <= sampleCode b).
  { intros a b H.
    rewrite (proj1 (sampleCode_truncate a)), (proj1 (sampleCode_truncate b)).
    apply truncate_le, scale_le, H. }
  split; [exact Ex|]. split; [rewrite Ex; exact Bx|].
  split; [apply Hmono|]. split; [|split; [|reflexivity]].
  - intros H. apply Hmono in H.
    change (sampleCode 1) with 32767 in H. rewrite Ex in *. lia.
  - intros H. apply Hmono in H.
    change (sampleCode (-1)) with (-32768) in H. rewrite Ex in *. lia.
Qed.

(** X27.  The pass that writes the channels one after the other has no
    effect on the file: writing the header and then only the interleaved
    samples gives the same bytes as the whole encoder. *)
Theorem sequential_pass_is_overwritten (ab : AudioBuffer) :
  well_formed ab ->
  let len := (ab_length ab * numberOfChannels ab * 2 + 44)%nat in
  (view <- writeHeader len (numberOfChannels ab) (sampleRate ab)
             (repeat 0 len) ;;
   writeInterleaved (interleave ab) view)
  = encodeWav ab.
Proof.
  intros Hwf. rewrite (encodeWav_wav_file Hwf). cbv zeta.
  set (f := ab_length ab). set (c := numberOfChannels ab).
  replace (f * c * 2 + 44)%nat with (44 + f * c * 2)%nat at 2 by lia.
  rewrite repeat_app, writeHeader_zeros. cbn [bind].
  set (d0 := repeat 0 (f * c * 2)).
  rewrite interleave_frames. unfold writeInterleaved, for_.
  assert (Hd : List.length d0 = (2 * List.length (pcm_frames ab))%nat).
  { unfold d0. rewrite repeat_length, pcm_frames_length. fold f c. lia. }
  match goal with
  | |- for_from _ _ _ ?v = _ =>
      replace v
        with ((wav_header (sampleRate ab) f c ++ d0 ++ [])%list)
  end.
  2:{ unfold wav_header. rewrite <- !app_assoc, app_nil_r.
      replace (Z.of_nat (f * c * 2 + 44) - 8)
        with (Z.of_nat (44 + 2 * f * c) - 8) by lia.
      replace (Z.of_nat (f * c * 2 + 44) - 44)
        with (Z.of_nat (2 * f * c)) by lia.
      replace (sampleRate ab * Z.of_nat c * 2)
        with (sampleRate ab * 2 * Z.of_nat c) by lia.
      replace (Z.of_nat c * 2) with (2 * Z.of_nat c) by lia.
      reflexivity. }
  pose proof (write16_run 44
                (fun j => ToInt16 (inject_Z (nth j (pcm_frames ab) 0)))
                (List.length (pcm_frames ab)) 0
                (wav_header (sampleRate ab) f c) d0 [] eq_refl Hd) as H.
  cbv beta in H. unfold setInt16. rewrite H.
  rewrite data_bytes, app_nil_r. reflexivity.
Qed.

Lemma sequential_pass_is_overwritten_witness :
  (view <- writeHeader 56 2 48000 (repeat 0 56) ;;
   writeInterleaved (interleave stereo) view)
  = encodeWav stereo.
Proof.
  apply (@sequential_pass_is_overwritten stereo).
  repeat constructor.
Defined.

(** *** Where a sample is stored *)

Lemma block_at (A B : Type) (F : A -> list B) (n : nat) (d : A) :
  (forall a, List.length (F a) = n) ->
  forall (l : list A) (k : nat),
    (k < List.length l)%nat ->
    firstn n (skipn (n * k) (flat_map F l)) = F (nth k l d).
Proof.
  intros Hn. induction l as [|a l IH]; intros k Hk; [cbn in Hk; lia|].
  cbn [flat_map]. destruct k as [|k].
  - rewrite Nat.mul_0_r. cbn [skipn nth].
    rewrite firstn_app, <- (Hn a), firstn_all, Nat.sub_diag.
    cbn. apply app_nil_r.
  - replace (n * S k)%nat with (List.length (F a) + n * k)%nat
      by (rewrite Hn; lia).
    rewrite skipn_app, skipn_all2 by lia.
    replace (List.length (F a) + n * k - List.length (F a))%nat
      with (n * k)%nat by lia.
    cbn [app nth]. apply IH. cbn in Hk. lia.
Qed.

Lemma nth_block (A : Type) (G : nat -> list A) (c : nat) (d : A) :
  (forall i, List.length (G i) = c) ->
  forall (n s i ch : nat),
    (i < n)%nat -> (ch < c)%nat ->
    nth (i * c + ch) (flat_map G (seq s n)) d = nth ch (G (s + i)%nat) d.
Proof.
  intros Hc. induction n as [|n IH]; intros s i ch Hi Hch; [lia|].
  cbn [seq flat_map]. destruct i as [|i].
  - cbn [Nat.mul Nat.add]. rewrite app_nth1 by (rewrite Hc; lia).
    rewrite Nat.add_0_r. reflexivity.
  - rewrite app_nth2 by (rewrite Hc; nia).
    rewrite Hc. replace (S i * c + ch - c)%nat with (i * c + ch)%nat by nia.
    rewrite IH by lia. f_equal. f_equal. lia.
Qed.

Lemma pcm_frames_nth (ab : AudioBuffer) (i ch : nat) :
  (i < ab_length ab)%nat -> (ch < numberOfChannels ab)%nat ->
  nth (i * numberOfChannels ab + ch) (pcm_frames ab) 0
  = sampleCode (nth i (getChannelData ab ch) 0%Q).
Proof.
  intros Hi Hch. unfold pcm_frames.
  rewrite (@nth_block Z
             (fun i => map (fun chd => ToInt16 (scale (nth i chd 0%Q)))
                         (channelData ab))
             (numberOfChannels ab) 0);
    [|intros j; apply length_map|exact Hi|exact Hch].
  cbn [Nat.add].
  rewrite (nth_indep _ 0 ((fun chd => ToInt16 (scale (nth i chd 0%Q))) []))
    by (rewrite length_map; exact Hch).
  exact (map_nth (fun chd => ToInt16 (scale (nth i chd 0%Q)))
           (channelData ab) [] ch).
Qed.

(** X28.  Reading the file back: the sample of frame [i] in channel [ch]
    is the signed 16-bit number at byte [44 + 2 * (i * channels + ch)],
    that is, the samples are interleaved frame by frame behind the
    44-byte header. *)
Theorem sample_is_read_back_at_its_place
  (ab : AudioBuffer) (view : DataView) (i ch : nat) :
  well_formed ab -> encodeWav ab = Some view ->
  (i < ab_length ab)%nat -> (ch < numberOfChannels ab)%nat ->
  getInt16 (44 + 2 * (i * numberOfChannels ab + ch)) view
  = sampleCode (nth i (getChannelData ab ch) 0%Q).
Proof.
  intros Hwf Henc Hi Hch.
  rewrite (encodeWav_wav_file Hwf) in Henc. injection Henc as <-.
  unfold getInt16, getUint, wav_file. cbv zeta.
  set (k := (i * numberOfChannels ab + ch)%nat).
  replace (44 + 2 * k)%nat
    with (List.length (wav_header (sampleRate ab) (ab_length ab)
                         (numberOfChannels ab)) + 2 * k)%nat
    by (rewrite wav_header_length; reflexivity).
  rewrite skipn_app, skipn_all2 by lia.
  replace (List.length (wav_header (sampleRate ab) (ab_length ab)
                          (numberOfChannels ab)) + 2 * k
           - List.length (wav_header (sampleRate ab) (ab_length ab)
                            (numberOfChannels ab)))%nat
    with (2 * k)%nat by lia.
  cbn [app]. rewrite <- data_bytes.
  assert (Hk : (k < List.length (pcm_frames ab))%nat).
  { rewrite pcm_frames_length. unfold k. nia. }
  rewrite (@block_at nat Z
             (fun j => le_bytes 2
                         (ToInt16 (inject_Z (nth j (pcm_frames ab) 0))))
             2 0%nat (fun a => length_le_bytes 2 _))
    by (rewrite length_seq; exact Hk).
  rewrite seq_nth by exact Hk. cbn [Nat.add].
  unfold k. rewrite (@pcm_frames_nth ab i ch Hi Hch).
  destruct (sampleCode_truncate (nth i (getChannelData ab ch) 0%Q))
    as [E B].
  rewrite ToInt16_inject by lia.
  rewrite le_value_le_bytes.
  change (256 ^ Z.of_nat 2) with 65536.
  apply wrap_small. lia.
Qed.

Lemma sample_is_read_back_at_its_place_witness :
  getInt16 (44 + 2 * (2 * numberOfChannels stereo + 1))
    (wav_file stereo)
  = sampleCode (nth 2 (getChannelData stereo 1) 0%Q).
Proof.
  apply (@sample_is_read_back_at_its_place stereo (wav_file stereo) 2 1).
  - repeat constructor.
  - vm_compute. reflexivity.
  - vm_compute. repeat constructor.
  - vm_compute. repeat constructor.
Defined.

End WavMore.

(** ** The resource registry: what [cleanupAll] releases *)

Module ResourceManagerProofs.
Import ResourceManager.

Section Sets.

Variable A : Type.
Variable eqb : A -> A -> bool.
Hypothesis eqb_spec : forall x y, eqb x y = true <-> x = y.

Lemma In_add (x y : A) (s : list A) :
  In y (add eqb x s) <-> y = x \/ In y s.
Proof.
  unfold add. destruct (existsb (eqb x) s) eqn:E.
  - split; [intros H; right; exact H|].
    intros [->|H]; [|exact H].
    apply existsb_exists in E. destruct E as (z & Hz & Ez).
    apply eqb_spec in Ez. subst z. exact Hz.
  - rewrite in_app_iff. cbn. split.
    + intros [H|[H|[]]]; [right; exact H|left; symmetry; exact H].
    + intros [->|H]; [right; left; reflexivity|left; exact H].
Qed.

Lemma In_delete (x y : A) (s : list A) :
  In y (delete eqb x s) <-> y <> x /\ In y s.
Proof.
  unfold delete. rewrite filter_In. split.
  - intros [H E]. split; [|exact H]. intros ->.
    rewrite (proj2 (eqb_spec x x) eq_refl) in E. discriminate.
  - intros [N H]. split; [exact H|].
    destruct (eqb x y) eqn:E; [|reflexivity].
    apply eqb_spec in E. congruence.
Qed.

Lemma NoDup_add (x : A) (s : list A) : NoDup s -> NoDup (add eqb x s).
Proof.
  intros H. unfold add. destruct (existsb (eqb x) s) eqn:E; [exact H|].
  apply NoDup_app; [exact H|repeat constructor; intros []|].
  intros y Hy [<-|[]].
  assert (existsb (eqb x) s = true); [|congruence].
  apply existsb_exists. exists x. split; [exact Hy|].
  apply eqb_spec. reflexivity.
Qed.

Lemma NoDup_delete (x : A) (s : list A) : NoDup s -> NoDup (delete eqb x s).
Proof. apply NoDup_filter. Qed.

End Sets.

Lemma log_all (A : Type) (l log : list A) :
  fold_left (fun log id => log ++ [id]) l log = (log ++ l)%list.
Proof.
  revert log. induction l as [|a l IH]; intros log; cbn.
  - rewrite app_nil_r. reflexivity.
  - rewrite IH, <- app_assoc. reflexivity.
Qed.

Lemma log_some (A : Type) (p : A -> bool) (l log : list A) :
  fold_left (fun log x => if p x then log ++ [x] else log) l log
  = (log ++ filter p l)%list.
Proof.
  revert log. induction l as [|a l IH]; intros log; cbn.
  - rewrite app_nil_r. reflexivity.
  - rewrite IH. destruct (p a); [rewrite <- app_assoc|]; reflexivity.
Qed.

Lemma Z_eqb_spec (x y : Z) : Z.eqb x y = true <-> x = y.
Proof. apply Z.eqb_eq. Qed.

Lemma nat_eqb_spec (x y : nat) : Nat.eqb x y = true <-> x = y.
Proof. apply Nat.eqb_eq. Qed.

Lemma string_eqb_spec (x y : string) : String.eqb x y = true <-> x = y.
Proof. apply String.eqb_eq. Qed.

Lemma duplicate_free_perform (c : Call) (m : Manager) :
  duplicate_free m -> duplicate_free (perform c m).
Proof.
  intros (H1 & H2 & H3 & H4 & H5 & H6).
  destruct c as [[a|]|[a|]|u|u|id|id|id|id|id|id|]; cbn [perform];
    unfold registerAudio, unregisterAudio, registerBlobUrl,
      unregisterBlobUrl, registerAnimationFrame, unregisterAnimationFrame,
      registerInterval, unregisterInterval, registerTimeout,
      unregisterTimeout, cleanupAll, duplicate_free;
    try destruct (String.eqb_spec u EmptyString) as [Eu|Eu];
    cbn [audioRefs blobUrls animationFrames intervals timeouts
         set_audioRefs set_blobUrls set_animationFrames set_intervals
         set_timeouts];
    (split; [|split; [|split; [|split; [|split]]]]);
    first
      [ assumption | apply NoDup_nil
      | apply (@NoDup_add _ _ nat_eqb_spec); assumption
      | apply (@NoDup_add _ _ Z_eqb_spec); assumption
      | apply (@NoDup_add _ _ string_eqb_spec); assumption
      | apply NoDup_delete; assumption
      | idtac ].
  - intros H. apply (@In_add _ _ string_eqb_spec) in H.
    destruct H as [H|H]; [congruence|contradiction].
  - intros H. apply (@In_delete _ _ string_eqb_spec) in H.
    destruct H as [_ H]. contradiction.
  - intros [].
Qed.

Lemma run_snoc (calls : list Call) (c : Call) :
  run (calls ++ [c]) = perform c (run calls).
Proof. unfold run. rewrite fold_left_app. reflexivity. Qed.

Lemma duplicate_free_run (calls : list Call) : duplicate_free (run calls).
Proof.
  induction calls as [|c calls IH] using rev_ind.
  - unfold duplicate_free. cbn.
    repeat (split; [constructor|]). intros [].
  - rewrite run_snoc. apply duplicate_free_perform, IH.
Qed.

(** X29.  Whatever calls were made before, [cleanupAll] leaves the five
    registries empty and releases what was registered at that moment, in
    the order of registration and each thing once: it clears every
    interval and timeout, cancels every frame, and revokes the URLs that
    begin with [blob:] (others are dropped without a call).  A second
    [cleanupAll] makes no further call. *)
Theorem cleanupAll_releases_each_once (calls : list Call) :
  let m := run calls in
  let m' := cleanupAll m in
  (audioRefs m' = [] /\ blobUrls m' = [] /\ animationFrames m' = [] /\
   intervals m' = [] /\ timeouts m' = []) /\
  (clearedIntervals m' = (clearedIntervals m ++ intervals m)%list /\
   clearedTimeouts m' = (clearedTimeouts m ++ timeouts m)%list /\
   cancelledFrames m' = (cancelledFrames m ++ animationFrames m)%list /\
   revoked m'
   = (revoked m ++ filter Recorder.starts_with_blob (blobUrls m))%list) /\
  (NoDup (intervals m) /\ NoDup (timeouts m) /\ NoDup (animationFrames m) /\
   NoDup (filter Recorder.starts_with_blob (blobUrls m))) /\
  cleanupAll m' = m'.
Proof.
  cbv zeta. destruct (duplicate_free_run calls) as (H1 & H2 & H3 & H4 & H5 & H6).
  split; [repeat split|]. split.
  { unfold cleanupAll. cbn.
    rewrite !log_all, log_some. repeat split. }
  split.
  { repeat split; try assumption. apply NoDup_filter, H2. }
  unfold cleanupAll. cbn. reflexivity.
Qed.

Lemma intervals_perform (c : Call) (m : Manager) (id : Z) :
  In id (intervals (perform c m)) <->
  c = RegisterInterval id \/
  (drops_interval id c = false /\ In id (intervals m)).
Proof.
  destruct c as [[a|]|[a|]|u|u|i|i|i|i|i|i|]; cbn [perform drops_interval];
    unfold registerAudio, unregisterAudio, registerBlobUrl,
      unregisterBlobUrl, registerAnimationFrame, unregisterAnimationFrame,
      registerInterval, unregisterInterval, registerTimeout,
      unregisterTimeout, cleanupAll;
    try destruct (String.eqb u EmptyString);
    cbn [intervals set_audioRefs set_blobUrls set_animationFrames
         set_intervals set_timeouts];
    try (split; [intros H; right; split; [reflexivity|exact H]
                |intros [H|[_ H]]; [discriminate|exact H]]).
  - rewrite (@In_add _ _ Z_eqb_spec). split.
    + intros [->|H]; [left; reflexivity|right; split; [reflexivity|exact H]].
    + intros [[= ->]|[_ H]]; [left; reflexivity|right; exact H].
  - rewrite (@In_delete _ _ Z_eqb_spec). split.
    + intros [N H]. right. split; [|exact H].
      apply Z.eqb_neq. congruence.
    + intros [H|[N H]]; [discriminate|].
      apply Z.eqb_neq in N. split; [congruence|exact H].
  - split; [intros []|intros [H|[H _]]; discriminate].
Qed.

(** X30.  An interval id is in the registry exactly when it was
    registered and, after the last time it was, neither unregistered nor
    swept by [cleanupAll]; how often it was registered makes no
    difference.  So the next [cleanupAll] clears exactly these ids. *)
Theorem interval_registered_iff (calls : list Call) (id : Z) :
  In id (intervals (run calls)) <->
  exists before after,
    calls = (before ++ RegisterInterval id :: after)%list /\
    forallb (fun c => negb (drops_interval id c)) after = true.
Proof.
  induction calls as [|c calls IH] using rev_ind.
  - split; [intros []|]. intros (before & after & E & _).
    destruct before; discriminate.
  - rewrite run_snoc, intervals_perform, IH. split.
    + intros [->|(Hc & before & after & -> & Hafter)].
      * exists calls, []. split; reflexivity.
      * exists before, (after ++ [c])%list. split.
        -- rewrite <- app_assoc. reflexivity.
        -- rewrite forallb_app, Hafter. cbn. rewrite Hc. reflexivity.
    + intros (before & after & E & Hafter).
      destruct after as [|a after] using rev_ind.
      * left. apply app_inj_tail in E. destruct E as [_ ->]. reflexivity.
      * clear IHafter. right.
        change (before ++ RegisterInterval id :: after ++ [a])%list
          with (before ++ (RegisterInterval id :: after) ++ [a])%list in E.
        rewrite app_assoc in E. apply app_inj_tail in E.
        destruct E as [-> ->].
        rewrite forallb_app in Hafter. apply andb_prop in Hafter.
        destruct Hafter as [Hafter Ha]. cbn in Ha.
        rewrite andb_true_r in Ha. apply negb_true_iff in Ha.
        split; [exact Ha|]. exists before, after.
        split; [reflexivity|exact Hafter].
Qed.

End ResourceManagerProofs.
